(** * Flow Affiliate Pro: the job queue store and the page automation agents

    A shallow embedding of [src/store/queue.store.ts] (the zustand job
    store), of [config/constants.ts] and [types/video.types.ts], and of the
    two content-script controllers of [content-scripts/tiktok-controller.ts]
    ([TikTokController] and [FlowController]), with the properties of the
    job lifecycle that the design document states about them; then what
    reads and drives them: the [useQueue] hook and the [QueueProcessor] of
    the service worker, with properties of their own.

    Conventions of the embedding.
    - A JavaScript [number] is carried as a [Z]: the store only compares,
      increments and copies numbers, and the controllers only subtract
      millisecond timestamps.
    - An optional field [f?: T] is an [option T]; [undefined] is [None].
    - [Date.now()] and [generateId()] are inputs of the operation that
      calls them; the readings of the clock inside one synchronous store
      action are one instant [now].
    - Calls to the logger have no effect on the state and are left out. *)

From Stdlib Require Import String Ascii ZArith List Bool Lia DecimalString.
Import ListNotations.
Local Open Scope Z_scope.
Local Open Scope string_scope.

(** ** config/constants.ts *)

Module Constants.

Definition MAX_QUEUE_SIZE : nat := 100.
Definition MAX_CONCURRENT_JOBS : nat := 3.
Definition DEFAULT_RETRY_COUNT : Z := 3.
Definition JOB_TIMEOUT_MS : Z := 5 * 60 * 1000.

Module RATE_LIMIT.
Definition videosPerDay : Z := 50.
Definition postsPerHour : Z := 10.
Definition apiCallsPerMinute : Z := 30.
Definition delayBetweenJobs : Z := 2 * 60 * 1000.
Definition MIN_ACTION_DELAY_MS : Z := 700.
End RATE_LIMIT.

(** [RATE_LIMITS] is an alias of [RATE_LIMIT]. *)
Module RATE_LIMITS := RATE_LIMIT.

End Constants.

(** ** types/video.types.ts *)

Module Types.

Inductive VideoStatus := pending | processing | completed | failed | cancelled.
Inductive VideoTemplate :=
  product_review | unboxing | deal_alert | before_after | custom.
Inductive AspectRatio := ratio_9_16 | ratio_1_1 | ratio_16_9.
Inductive VideoDuration := duration_15 | duration_30 | duration_60.
Inductive Platform := tiktok | shopee | lazada.
Inductive VideoStyle := dynamic | calm | energetic.

Definition VideoStatus_eqb (a b : VideoStatus) : bool :=
  match a, b with
  | pending, pending | processing, processing | completed, completed
  | failed, failed | cancelled, cancelled => true
  | _, _ => false
  end.

Record ProductInfo := {
  name : string;
  url : string;
  price : Z;
  currency : string;
  imageUrl : string;
  description : option string;
  category : option string;
  seller : option string;
  rating : option Z;
  reviews : option Z
}.

Record VideoSettings := {
  template : VideoTemplate;
  duration : VideoDuration;
  aspectRatio : AspectRatio;
  style : VideoStyle;
  includeMusic : bool;
  includeVoiceover : bool;
  includePriceSticker : bool;
  includeCTA : bool
}.

Record VideoJob := {
  id : string;
  status : VideoStatus;
  progress : Z;
  product : ProductInfo;
  prompt : string;
  customPrompt : option string;
  settings : VideoSettings;
  videoUrl : option string;
  thumbnailUrl : option string;
  localPath : option string;
  flowJobId : option string;
  platforms : list Platform;
  scheduledAt : option Z;
  createdAt : Z;
  updatedAt : Z;
  completedAt : option Z;
  error : option string;
  retryCount : Z
}.

Record QueueStats := {
  total : nat;
  stat_pending : nat;
  stat_processing : nat;
  stat_completed : nat;
  stat_failed : nat
}.

Record QueueState := {
  jobs : list VideoJob;
  activeJobId : option string;
  isProcessing : bool;
  stats : QueueStats;
  dailyLimit : Z;
  dailyCreated : Z
}.

(** [Partial<VideoJob>]: a key that is absent is [None]; an optional key
    that is present with the value [undefined] is [Some None]. *)
Record PartialVideoJob := {
  u_id : option string;
  u_status : option VideoStatus;
  u_progress : option Z;
  u_product : option ProductInfo;
  u_prompt : option string;
  u_customPrompt : option (option string);
  u_settings : option VideoSettings;
  u_videoUrl : option (option string);
  u_thumbnailUrl : option (option string);
  u_localPath : option (option string);
  u_flowJobId : option (option string);
  u_platforms : option (list Platform);
  u_scheduledAt : option (option Z);
  u_createdAt : option Z;
  u_updatedAt : option Z;
  u_completedAt : option (option Z);
  u_error : option (option string);
  u_retryCount : option Z
}.

End Types.

(** The result of a call that may [throw]. *)
Inductive outcome (A : Type) : Type :=
| Returned (a : A)
| Thrown (msg : string).
Arguments Returned {A} a.
Arguments Thrown {A} msg.

Definition string_of_nat (n : nat) : string :=
  NilEmpty.string_of_uint (Nat.to_uint n).

(** ** store/queue.store.ts *)

Module QueueStore.
Import Constants Types.

Definition initialState : QueueState := {|
  jobs := [];
  activeJobId := None;
  isProcessing := false;
  stats := {| total := 0; stat_pending := 0; stat_processing := 0;
              stat_completed := 0; stat_failed := 0 |};
  dailyLimit := 50;
  dailyCreated := 0
|}.

(** The argument of [addJob]. *)
Record AddJobParams := {
  p_product : ProductInfo;
  p_prompt : string;
  p_customPrompt : option string;
  p_settings : VideoSettings;
  p_platforms : list Platform;
  p_scheduledAt : option Z
}.

(** [set(partial)] of zustand merges the given keys into the state; the
    setters below are the merges the store uses. *)
Definition set_jobs (js : list VideoJob) (state : QueueState) : QueueState :=
  {| jobs := js;
     activeJobId := activeJobId state;
     isProcessing := isProcessing state;
     stats := stats state;
     dailyLimit := dailyLimit state;
     dailyCreated := dailyCreated state |}.

Definition set_activeJobId (a : option string) (state : QueueState) : QueueState :=
  {| jobs := jobs state;
     activeJobId := a;
     isProcessing := isProcessing state;
     stats := stats state;
     dailyLimit := dailyLimit state;
     dailyCreated := dailyCreated state |}.

Definition set_isProcessing (b : bool) (state : QueueState) : QueueState :=
  {| jobs := jobs state;
     activeJobId := activeJobId state;
     isProcessing := b;
     stats := stats state;
     dailyLimit := dailyLimit state;
     dailyCreated := dailyCreated state |}.

Definition set_dailyCreated (n : Z) (state : QueueState) : QueueState :=
  {| jobs := jobs state;
     activeJobId := activeJobId state;
     isProcessing := isProcessing state;
     stats := stats state;
     dailyLimit := dailyLimit state;
     dailyCreated := n |}.

(** [addJob(params)]: the post-state and what the call gives back.  The
    [throw] happens before any [set], so the state is the one it found. *)
Definition addJob (params : AddJobParams) (generateId : string) (now : Z)
    (state : QueueState) : QueueState * outcome VideoJob :=
  if (MAX_QUEUE_SIZE <=? length (jobs state))%nat then
    (state, Thrown ("Queue limit reached (" ++ string_of_nat MAX_QUEUE_SIZE ++ ")"))
  else
    let newJob := {|
      id := generateId;
      status := pending;
      progress := 0;
      product := p_product params;
      prompt := p_prompt params;
      customPrompt := p_customPrompt params;
      settings := p_settings params;
      videoUrl := None;
      thumbnailUrl := None;
      localPath := None;
      flowJobId := None;
      platforms := p_platforms params;
      scheduledAt := p_scheduledAt params;
      createdAt := now;
      updatedAt := now;
      completedAt := None;
      error := None;
      retryCount := 0 |} in
    (set_jobs (jobs state ++ [newJob])%list state, Returned newJob).

Definition or_else {A} (o : option A) (d : A) : A :=
  match o with Some a => a | None => d end.

(** [{ ...job, ...updates, updatedAt: Date.now() }] *)
Definition spread (job : VideoJob) (updates : PartialVideoJob) (now : Z) : VideoJob :=
  {| id := or_else (u_id updates) (id job);
     status := or_else (u_status updates) (status job);
     progress := or_else (u_progress updates) (progress job);
     product := or_else (u_product updates) (product job);
     prompt := or_else (u_prompt updates) (prompt job);
     customPrompt := or_else (u_customPrompt updates) (customPrompt job);
     settings := or_else (u_settings updates) (settings job);
     videoUrl := or_else (u_videoUrl updates) (videoUrl job);
     thumbnailUrl := or_else (u_thumbnailUrl updates) (thumbnailUrl job);
     localPath := or_else (u_localPath updates) (localPath job);
     flowJobId := or_else (u_flowJobId updates) (flowJobId job);
     platforms := or_else (u_platforms updates) (platforms job);
     scheduledAt := or_else (u_scheduledAt updates) (scheduledAt job);
     createdAt := or_else (u_createdAt updates) (createdAt job);
     updatedAt := now;
     completedAt := or_else (u_completedAt updates) (completedAt job);
     error := or_else (u_error updates) (error job);
     retryCount := or_else (u_retryCount updates) (retryCount job) |}.

Definition updateJob (i : string) (updates : PartialVideoJob) (now : Z)
    (state : QueueState) : QueueState :=
  set_jobs
    (map (fun job => if id job =? i then spread job updates now else job)
         (jobs state))
    state.

Definition option_string_eqb (a : option string) (b : string) : bool :=
  match a with Some x => x =? b | None => false end.

Definition removeJob (i : string) (state : QueueState) : QueueState :=
  set_activeJobId
    (if option_string_eqb (activeJobId state) i then None else activeJobId state)
    (set_jobs (filter (fun job => negb (id job =? i)) (jobs state)) state).

Definition clearCompletedJobs (state : QueueState) : QueueState :=
  set_jobs
    (filter (fun job => negb (VideoStatus_eqb (status job) completed)) (jobs state))
    state.

Definition clearFailedJobs (state : QueueState) : QueueState :=
  set_jobs
    (filter (fun job => negb (VideoStatus_eqb (status job) failed)
                        && negb (VideoStatus_eqb (status job) cancelled))
            (jobs state))
    state.

Definition clearAllJobs (state : QueueState) : QueueState :=
  set_isProcessing false (set_activeJobId None (set_jobs [] state)).

Definition startJob (i : string) (now : Z) (state : QueueState) : QueueState :=
  set_isProcessing true
    (set_activeJobId (Some i)
       (set_jobs
          (map (fun job =>
                  if id job =? i then
                    {| id := id job;
                       status := processing;
                       progress := 0;
                       product := product job;
                       prompt := prompt job;
                       customPrompt := customPrompt job;
                       settings := settings job;
                       videoUrl := videoUrl job;
                       thumbnailUrl := thumbnailUrl job;
                       localPath := localPath job;
                       flowJobId := flowJobId job;
                       platforms := platforms job;
                       scheduledAt := scheduledAt job;
                       createdAt := createdAt job;
                       updatedAt := now;
                       completedAt := completedAt job;
                       error := error job;
                       retryCount := retryCount job |}
                  else job)
               (jobs state))
          state)).

Definition completeJob (i : string) (videoUrl' : string)
    (thumbnailUrl' : option string) (now : Z) (state : QueueState) : QueueState :=
  set_dailyCreated (dailyCreated state + 1)
    (set_isProcessing false
       (set_activeJobId None
          (set_jobs
             (map (fun job =>
                     if id job =? i then
                       {| id := id job;
                          status := completed;
                          progress := 100;
                          product := product job;
                          prompt := prompt job;
                          customPrompt := customPrompt job;
                          settings := settings job;
                          videoUrl := Some videoUrl';
                          thumbnailUrl := thumbnailUrl';
                          localPath := localPath job;
                          flowJobId := flowJobId job;
                          platforms := platforms job;
                          scheduledAt := scheduledAt job;
                          createdAt := createdAt job;
                          updatedAt := now;
                          completedAt := Some now;
                          error := error job;
                          retryCount := retryCount job |}
                     else job)
                  (jobs state))
             state))).

Definition failJob (i : string) (error' : string) (now : Z)
    (state : QueueState) : QueueState :=
  set_isProcessing false
    (set_activeJobId None
       (set_jobs
          (map (fun job =>
                  if id job =? i then
                    {| id := id job;
                       status := failed;
                       progress := progress job;
                       product := product job;
                       prompt := prompt job;
                       customPrompt := customPrompt job;
                       settings := settings job;
                       videoUrl := videoUrl job;
                       thumbnailUrl := thumbnailUrl job;
                       localPath := localPath job;
                       flowJobId := flowJobId job;
                       platforms := platforms job;
                       scheduledAt := scheduledAt job;
                       createdAt := createdAt job;
                       updatedAt := now;
                       completedAt := completedAt job;
                       error := Some error';
                       retryCount := retryCount job |}
                  else job)
               (jobs state))
          state)).

Definition getJobById (i : string) (state : QueueState) : option VideoJob :=
  find (fun job => id job =? i) (jobs state).

Definition retryJob (i : string) (now : Z) (state : QueueState) : QueueState :=
  match find (fun j => id j =? i) (jobs state) with
  | None => state
  | Some job =>
      if (DEFAULT_RETRY_COUNT <=? retryCount job)%Z then state
      else
        set_jobs
          (map (fun j =>
                  if id j =? i then
                    {| id := id j;
                       status := pending;
                       progress := 0;
                       product := product j;
                       prompt := prompt j;
                       customPrompt := customPrompt j;
                       settings := settings j;
                       videoUrl := videoUrl j;
                       thumbnailUrl := thumbnailUrl j;
                       localPath := localPath j;
                       flowJobId := flowJobId j;
                       platforms := platforms j;
                       scheduledAt := scheduledAt j;
                       createdAt := createdAt j;
                       updatedAt := now;
                       completedAt := completedAt j;
                       error := None;
                       retryCount := retryCount j + 1 |}
                  else j)
               (jobs state))
          state
  end.

Definition cancelJob (i : string) (now : Z) (state : QueueState) : QueueState :=
  set_isProcessing
    (if option_string_eqb (activeJobId state) i then false else isProcessing state)
    (set_activeJobId
       (if option_string_eqb (activeJobId state) i then None else activeJobId state)
       (set_jobs
          (map (fun job =>
                  if id job =? i then
                    {| id := id job;
                       status := cancelled;
                       progress := progress job;
                       product := product job;
                       prompt := prompt job;
                       customPrompt := customPrompt job;
                       settings := settings job;
                       videoUrl := videoUrl job;
                       thumbnailUrl := thumbnailUrl job;
                       localPath := localPath job;
                       flowJobId := flowJobId job;
                       platforms := platforms job;
                       scheduledAt := scheduledAt job;
                       createdAt := createdAt job;
                       updatedAt := now;
                       completedAt := completedAt job;
                       error := error job;
                       retryCount := retryCount job |}
                  else job)
               (jobs state))
          state)).

Definition updateProgress (i : string) (progress' : Z) (now : Z)
    (state : QueueState) : QueueState :=
  set_jobs
    (map (fun job =>
            if id job =? i then
              {| id := id job;
                 status := status job;
                 progress := progress';
                 product := product job;
                 prompt := prompt job;
                 customPrompt := customPrompt job;
                 settings := settings job;
                 videoUrl := videoUrl job;
                 thumbnailUrl := thumbnailUrl job;
                 localPath := localPath job;
                 flowJobId := flowJobId job;
                 platforms := platforms job;
                 scheduledAt := scheduledAt job;
                 createdAt := createdAt job;
                 updatedAt := now;
                 completedAt := completedAt job;
                 error := error job;
                 retryCount := retryCount job |}
            else job)
         (jobs state))
    state.

Definition setFlowJobId (i : string) (flowJobId' : string) (now : Z)
    (state : QueueState) : QueueState :=
  set_jobs
    (map (fun job =>
            if id job =? i then
              {| id := id job;
                 status := status job;
                 progress := progress job;
                 product := product job;
                 prompt := prompt job;
                 customPrompt := customPrompt job;
                 settings := settings job;
                 videoUrl := videoUrl job;
                 thumbnailUrl := thumbnailUrl job;
                 localPath := localPath job;
                 flowJobId := Some flowJobId';
                 platforms := platforms job;
                 scheduledAt := scheduledAt job;
                 createdAt := createdAt job;
                 updatedAt := now;
                 completedAt := completedAt job;
                 error := error job;
                 retryCount := retryCount job |}
            else job)
         (jobs state))
    state.

Definition setActiveJob (i : option string) (state : QueueState) : QueueState :=
  set_activeJobId i state.

Definition setProcessing (b : bool) (state : QueueState) : QueueState :=
  set_isProcessing b state.

Definition getNextPendingJob (state : QueueState) : option VideoJob :=
  find (fun job => VideoStatus_eqb (status job) pending) (jobs state).

Definition count_status (st : VideoStatus) (js : list VideoJob) : nat :=
  length (filter (fun j => VideoStatus_eqb (status j) st) js).

Definition getStats (state : QueueState) : QueueStats :=
  {| total := length (jobs state);
     stat_pending := count_status pending (jobs state);
     stat_processing := count_status processing (jobs state);
     stat_completed := count_status completed (jobs state);
     stat_failed := count_status failed (jobs state) |}.

Definition incrementDailyCreated (state : QueueState) : QueueState :=
  set_dailyCreated (dailyCreated state + 1) state.

Definition resetDailyStats (state : QueueState) : QueueState :=
  set_dailyCreated 0 state.

(** *** Sequences of store operations *)

(** One call of a state-changing action of the store, with the values the
    environment supplies to it. *)
Inductive Action :=
| AddJob (params : AddJobParams) (generateId : string) (now : Z)
| UpdateJob (i : string) (updates : PartialVideoJob) (now : Z)
| RemoveJob (i : string)
| ClearCompletedJobs
| ClearFailedJobs
| ClearAllJobs
| StartJob (i : string) (now : Z)
| CompleteJob (i : string) (videoUrl' : string) (thumbnailUrl' : option string) (now : Z)
| FailJob (i : string) (error' : string) (now : Z)
| RetryJob (i : string) (now : Z)
| CancelJob (i : string) (now : Z)
| UpdateProgress (i : string) (progress' : Z) (now : Z)
| SetFlowJobId (i : string) (flowJobId' : string) (now : Z)
| SetActiveJob (i : option string)
| SetProcessing (b : bool)
| IncrementDailyCreated
| ResetDailyStats.

(** The post-state of a call and the error it threw, if any. *)
Definition call (a : Action) (state : QueueState) : QueueState * option string :=
  match a with
  | AddJob params gid now =>
      match addJob params gid now state with
      | (state', Returned _) => (state', None)
      | (state', Thrown msg) => (state', Some msg)
      end
  | UpdateJob i updates now => (updateJob i updates now state, None)
  | RemoveJob i => (removeJob i state, None)
  | ClearCompletedJobs => (clearCompletedJobs state, None)
  | ClearFailedJobs => (clearFailedJobs state, None)
  | ClearAllJobs => (clearAllJobs state, None)
  | StartJob i now => (startJob i now state, None)
  | CompleteJob i v t now => (completeJob i v t now state, None)
  | FailJob i e now => (failJob i e now state, None)
  | RetryJob i now => (retryJob i now state, None)
  | CancelJob i now => (cancelJob i now state, None)
  | UpdateProgress i p now => (updateProgress i p now state, None)
  | SetFlowJobId i f now => (setFlowJobId i f now state, None)
  | SetActiveJob i => (setActiveJob i state, None)
  | SetProcessing b => (setProcessing b state, None)
  | IncrementDailyCreated => (incrementDailyCreated state, None)
  | ResetDailyStats => (resetDailyStats state, None)
  end.

Definition step (a : Action) (state : QueueState) : QueueState :=
  fst (call a state).

(** The state after a sequence of calls, first call first. *)
Fixpoint run (acts : list Action) (state : QueueState) : QueueState :=
  match acts with
  | [] => state
  | a :: rest => run rest (step a state)
  end.

Definition reachable (state : QueueState) : Prop :=
  exists acts, state = run acts initialState.

(** *** The vocabulary of the life-cycle properties *)

(** The five state-transition operations. *)
Inductive Transition := t_start | t_complete | t_fail | t_retry | t_cancel.

Definition transition_of (a : Action) : option (Transition * string) :=
  match a with
  | StartJob i _ => Some (t_start, i)
  | CompleteJob i _ _ _ => Some (t_complete, i)
  | FailJob i _ _ => Some (t_fail, i)
  | RetryJob i _ => Some (t_retry, i)
  | CancelJob i _ => Some (t_cancel, i)
  | _ => None
  end.

(** The status an operation writes. *)
Definition target (t : Transition) : VideoStatus :=
  match t with
  | t_start => processing
  | t_complete => completed
  | t_fail => failed
  | t_retry => pending
  | t_cancel => cancelled
  end.

(** The arrows of the state machine of the design document (section 4.1):
    pending -> processing, processing -> completed | failed | cancelled,
    pending -> cancelled, failed -> pending. *)
Definition listed (from : VideoStatus) (t : Transition) : bool :=
  match t, from with
  | t_start, pending
  | t_complete, processing
  | t_fail, processing
  | t_cancel, processing
  | t_cancel, pending
  | t_retry, failed => true
  | _, _ => false
  end.

(** A call is rejected when it throws and leaves the state as it was. *)
Definition rejected (a : Action) (state : QueueState) : Prop :=
  exists msg, call a state = (state, Some msg).

Definition is_some {A} (o : option A) : bool :=
  match o with Some _ => true | None => false end.

Definition is_none {A} (o : option A) : bool := negb (is_some o).

(** [videoUrl] is populated exactly on a completed job and [error] exactly
    on a failed one. *)
Definition outcome_consistent (j : VideoJob) : bool :=
  Bool.eqb (is_some (videoUrl j)) (VideoStatus_eqb (status j) completed)
  && Bool.eqb (is_some (error j)) (VideoStatus_eqb (status j) failed).

(** Every job carrying the id [i] satisfies [p]. *)
Definition all_with_id (i : string) (p : VideoJob -> bool) (state : QueueState) : bool :=
  forallb (fun j => if id j =? i then p j else true) (jobs state).

Definition fresh (i : string) (state : QueueState) : bool :=
  negb (existsb (fun j => id j =? i) (jobs state)).

Definition processing_count (state : QueueState) : nat :=
  count_status processing (jobs state).

Definition is_processing (i : string) (state : QueueState) : bool :=
  match getJobById i state with
  | Some j => VideoStatus_eqb (status j) processing
  | None => false
  end.

Definition progress_of (i : string) (state : QueueState) : Z :=
  match getJobById i state with
  | Some j => progress j
  | None => 0
  end.

(** A caller that follows the state machine: each transition is asked for
    only from a listed source status, and [updateJob] is not used to
    overwrite the status or the outcome fields. *)
Definition lifecycle_guard (state : QueueState) (a : Action) : bool :=
  match a with
  | UpdateJob _ u _ =>
      is_none (u_status u) && is_none (u_videoUrl u) && is_none (u_error u)
  | _ =>
      match transition_of a with
      | Some (t, i) => all_with_id i (fun j => listed (status j) t) state
      | None => true
      end
  end.

(** A caller that dispatches only under the concurrency limit: [startJob]
    is asked for only while fewer than [MAX_CONCURRENT_JOBS] jobs are
    processing; ids are unique ([generateId] never repeats one and
    [updateJob] rewrites neither an id nor a status). *)
Definition concurrency_guard (state : QueueState) (a : Action) : bool :=
  match a with
  | AddJob _ gid _ => fresh gid state
  | UpdateJob _ u _ => is_none (u_id u) && is_none (u_status u)
  | StartJob _ _ => (processing_count state <? MAX_CONCURRENT_JOBS)%nat
  | _ => true
  end.

(** A caller that reports progress in order: [updateProgress] on a
    processing job passes a value between the job's progress and 100,
    [startJob] is not repeated on a job that is processing, and ids are
    unique.  [updateJob] rewrites no id, status or progress. *)
Definition progress_guard (state : QueueState) (a : Action) : bool :=
  match a with
  | AddJob _ gid _ => fresh gid state
  | UpdateJob _ u _ =>
      is_none (u_id u) && is_none (u_status u) && is_none (u_progress u)
  | StartJob i _ =>
      all_with_id i (fun j => negb (VideoStatus_eqb (status j) processing)) state
  | UpdateProgress i p _ =>
      all_with_id i
        (fun j => implb (VideoStatus_eqb (status j) processing)
                        ((progress j <=? p)%Z && (p <=? 100)%Z))
        state
  | _ => true
  end.

(** The progress of a job in flight is a percentage. *)
Definition progress_in_range (j : VideoJob) : Prop :=
  status j = processing -> 0 <= progress j <= 100.

(** Every call of the sequence satisfies the guard in the state it finds. *)
Fixpoint guarded_run (g : QueueState -> Action -> bool) (acts : list Action)
    (state : QueueState) : bool :=
  match acts with
  | [] => true
  | a :: rest => g state a && guarded_run g rest (step a state)
  end.

(** The job [i] is present and processing in every state the sequence
    passes through, the first and the last included. *)
Fixpoint stays_processing (i : string) (acts : list Action) (state : QueueState) : bool :=
  is_processing i state &&
  match acts with
  | [] => true
  | a :: rest => stays_processing i rest (step a state)
  end.

(** *** Sample data *)

Definition sampleProduct : ProductInfo :=
  {| name := "Test Product"; url := "https://example.com"; price := 999;
     currency := "THB"; imageUrl := ""; description := None; category := None;
     seller := None; rating := None; reviews := None |}.

Definition sampleSettings : VideoSettings :=
  {| template := product_review; duration := duration_30;
     aspectRatio := ratio_9_16; style := dynamic; includeMusic := true;
     includeVoiceover := false; includePriceSticker := true; includeCTA := true |}.

Definition sampleParams : AddJobParams :=
  {| p_product := sampleProduct; p_prompt := "Test prompt";
     p_customPrompt := None; p_settings := sampleSettings;
     p_platforms := [tiktok]; p_scheduledAt := None |}.

(** One job, completed. *)
Definition completedOnce : list Action :=
  [ AddJob sampleParams "job-1" 1; StartJob "job-1" 2;
    CompleteJob "job-1" "https://example.com/video.mp4" None 3 ].

(** One job, failed once. *)
Definition failedOnce : list Action :=
  [ AddJob sampleParams "job-1" 1; StartJob "job-1" 2;
    FailJob "job-1" "Generation failed" 3 ].

(** A job that completes and is then reported failed. *)
Definition completedThenFailed : list Action :=
  (completedOnce ++ [ FailJob "job-1" "Video generation timed out" 4 ])%list.

(** Four jobs added, each started at once, as the dashboard does. *)
Definition fourStarted : list Action :=
  [ AddJob sampleParams "job-1" 1; StartJob "job-1" 1;
    AddJob sampleParams "job-2" 2; StartJob "job-2" 2;
    AddJob sampleParams "job-3" 3; StartJob "job-3" 3;
    AddJob sampleParams "job-4" 4; StartJob "job-4" 4 ].

(** Three jobs in flight, one finishes, a fourth is started. *)
Definition threeThenOne : list Action :=
  [ AddJob sampleParams "job-1" 1; StartJob "job-1" 1;
    AddJob sampleParams "job-2" 2; StartJob "job-2" 2;
    AddJob sampleParams "job-3" 3; StartJob "job-3" 3;
    AddJob sampleParams "job-4" 4;
    CompleteJob "job-1" "https://example.com/video.mp4" None 5;
    StartJob "job-4" 6 ].

Definition startedOne : list Action :=
  [ AddJob sampleParams "job-1" 1; StartJob "job-1" 2 ].

(** A job in flight that has reported half of its work. *)
Definition reportedFifty : list Action :=
  (startedOne ++ [ UpdateProgress "job-1" 50 3 ])%list.

(** *** The jobs an operation works on *)

(** The id an operation is called with. *)
Definition id_of (a : Action) : option string :=
  match a with
  | UpdateJob i _ _ | RemoveJob i | StartJob i _ | CompleteJob i _ _ _
  | FailJob i _ _ | RetryJob i _ | CancelJob i _ | UpdateProgress i _ _
  | SetFlowJobId i _ _ => Some i
  | _ => None
  end.

Definition is_addJob (a : Action) : bool :=
  match a with
  | AddJob _ _ _ => true
  | _ => false
  end.

(** What the user asked for when the job was added. *)
Definition request_of (j : VideoJob) :=
  (id j, product j, prompt j, customPrompt j, settings j, platforms j,
   scheduledAt j, createdAt j).

(** The operations that work on the jobs that are in the queue: all but
    [addJob], [removeJob], the three [clear...] and the free-form
    [updateJob]. *)
Definition in_place (a : Action) : bool :=
  match a with
  | AddJob _ _ _ | UpdateJob _ _ _ | RemoveJob _
  | ClearCompletedJobs | ClearFailedJobs | ClearAllJobs => false
  | _ => true
  end.

(** A caller that leaves the retry counter to [retryJob]: ids are unique
    and [updateJob] rewrites neither an id nor a [retryCount]. *)
Definition retry_guard (state : QueueState) (a : Action) : bool :=
  match a with
  | AddJob _ gid _ => fresh gid state
  | UpdateJob _ u _ => is_none (u_id u) && is_none (u_retryCount u)
  | _ => true
  end.

(** The retry counter of a job is within its cap. *)
Definition retry_in_range (j : VideoJob) : Prop :=
  0 <= retryCount j <= DEFAULT_RETRY_COUNT.

(** A job that fails and is retried until [retryJob] refuses. *)
Definition retriedToTheCap : list Action :=
  (failedOnce ++
   [ RetryJob "job-1" 4; StartJob "job-1" 5; FailJob "job-1" "Generation failed" 6;
     RetryJob "job-1" 7; StartJob "job-1" 8; FailJob "job-1" "Generation failed" 9;
     RetryJob "job-1" 10; StartJob "job-1" 11; FailJob "job-1" "Generation failed" 12;
     RetryJob "job-1" 13 ])%list.

(** Two jobs waiting and one in flight. *)
Definition twoWaiting : list Action :=
  [ AddJob sampleParams "job-1" 1; StartJob "job-1" 2;
    AddJob sampleParams "job-2" 3; AddJob sampleParams "job-3" 4 ].

End QueueStore.

(** ** hooks/useQueue.ts: what the pages read from the store *)

Module UseQueue.
Import Types.

Record QueueStats := {
  total : nat;
  stat_pending : nat;
  stat_processing : nat;
  stat_completed : nat;
  stat_failed : nat;
  stat_cancelled : nat
}.

Definition with_status (st : VideoStatus) (store : QueueState) : list VideoJob :=
  filter (fun j => VideoStatus_eqb (status j) st) (jobs store).

Definition activeJobs : QueueState -> list VideoJob := with_status processing.
Definition pendingJobs : QueueState -> list VideoJob := with_status pending.
Definition completedJobs : QueueState -> list VideoJob := with_status completed.
Definition failedJobs : QueueState -> list VideoJob := with_status failed.

Definition stats (store : QueueState) : QueueStats :=
  {| total := length (jobs store);
     stat_pending := length (with_status pending store);
     stat_processing := length (with_status processing store);
     stat_completed := length (with_status completed store);
     stat_failed := length (with_status failed store);
     stat_cancelled := length (with_status cancelled store) |}.

Definition isProcessing (store : QueueState) : bool :=
  (0 <? length (activeJobs store))%nat.

Definition canCreateMore (store : QueueState) : bool :=
  (dailyCreated store <? dailyLimit store)%Z.

Definition getJob (i : string) (store : QueueState) : option VideoJob :=
  find (fun j => id j =? i) (jobs store).

End UseQueue.

(** ** JavaScript strings *)

Module JS.

(** A double quote, for the selectors that contain one. *)
Definition dq : string := String (Ascii.Ascii false true false false false true false false) "".

(** [q s] is [s] between double quotes. *)
Definition q (s : string) : string := dq ++ s ++ dq.

(** A value used as a condition: the empty string is falsy. *)
Definition truthy (s : string) : bool := negb (s =? "").

(** [s.includes(sub)] *)
Fixpoint includes (s sub : string) : bool :=
  String.prefix sub s ||
  match s with
  | EmptyString => false
  | String _ rest => includes rest sub
  end.

(** A string holds the UTF-8 encoding of a text.  A byte [10xxxxxx]
    continues the code point that the bytes before it began. *)
Definition is_continuation (c : ascii) : bool :=
  let n := nat_of_ascii c in ((128 <=? n) && (n <? 192))%nat.

Definition continues (cp : string) : bool :=
  match cp with
  | String c _ => is_continuation c
  | EmptyString => false
  end.

(** The code points of [s], each with its bytes: what
    [for (const char of s)] visits. *)
Fixpoint code_points (s : string) : list string :=
  match s with
  | EmptyString => []
  | String c rest =>
      match code_points rest with
      | cp :: cps =>
          if continues cp then String c cp :: cps else String c "" :: cp :: cps
      | [] => [String c ""]
      end
  end.

(** The number of a code point, from its bytes. *)
Definition code_point_of (cp : string) : option N :=
  match map N_of_ascii (list_ascii_of_string cp) with
  | [a] => if (a <? 0x80)%N then Some a else None
  | [a; b] =>
      if ((0xC0 <=? a) && (a <? 0xE0))%N then Some ((a mod 0x20) * 0x40 + b mod 0x40)%N
      else None
  | [a; b; c] =>
      if ((0xE0 <=? a) && (a <? 0xF0))%N
      then Some (((a mod 0x10) * 0x40 + b mod 0x40) * 0x40 + c mod 0x40)%N
      else None
  | [a; b; c; d] =>
      if (0xF0 <=? a)%N
      then Some ((((a mod 0x08) * 0x40 + b mod 0x40) * 0x40 + c mod 0x40) * 0x40
                 + d mod 0x40)%N
      else None
  | _ => None
  end.

(** The code points that [trim] strips: the [WhiteSpace] and the
    [LineTerminator] of ECMAScript. *)
Definition WhiteSpace (n : N) : bool :=
  (((0x9 <=? n) && (n <=? 0xD)) || (n =? 0x20) || (n =? 0xA0) || (n =? 0x1680)
   || ((0x2000 <=? n) && (n <=? 0x200A)) || (n =? 0x2028) || (n =? 0x2029)
   || (n =? 0x202F) || (n =? 0x205F) || (n =? 0x3000) || (n =? 0xFEFF))%N.

Definition is_white_space (cp : string) : bool :=
  match code_point_of cp with
  | Some n => WhiteSpace n
  | None => false
  end.

Fixpoint strip (cps : list string) : list string :=
  match cps with
  | cp :: rest => if is_white_space cp then strip rest else cps
  | [] => []
  end.

Definition trimStart (s : string) : string :=
  String.concat "" (strip (code_points s)).

Definition trimEnd (s : string) : string :=
  String.concat "" (rev (strip (rev (code_points s)))).

(** [s.trim()] *)
Definition trim (s : string) : string := trimEnd (trimStart s).

(** [s.toLowerCase()], on the ASCII letters.  The one text that is
    lowered is searched for ["9:16"], ["16:9"], ["1:1"] and a Thai word,
    none of which holds a letter that has a case or is the lower case of
    another. *)
Definition lower (c : ascii) : ascii :=
  let n := nat_of_ascii c in
  if ((65 <=? n) && (n <=? 90))%nat then ascii_of_nat (n + 32) else c.

Fixpoint toLowerCase (s : string) : string :=
  match s with
  | EmptyString => EmptyString
  | String c rest => String (lower c) (toLowerCase rest)
  end.

(** [String(n)] for an integer. *)
Definition String_of_number (n : Z) : string := NilZero.string_of_int (Z.to_int n).

Definition is_digit (c : ascii) : bool :=
  let n := nat_of_ascii c in ((48 <=? n) && (n <=? 57))%nat.

Fixpoint digits (s : string) : string :=
  match s with
  | EmptyString => EmptyString
  | String c rest => if is_digit c then String c (digits rest) else EmptyString
  end.

Fixpoint drop (n : nat) (s : string) : string :=
  match n, s with
  | O, _ => s
  | S n', String _ rest => drop n' rest
  | S _, EmptyString => EmptyString
  end.

(** The capture of the first match of [/\/video\/(\d+)/] in [s]. *)
Fixpoint match_video_id (s : string) : option string :=
  let here :=
    if String.prefix "/video/" s then digits (drop 7 s) else EmptyString in
  if truthy here then Some here
  else match s with
       | EmptyString => None
       | String _ rest => match_video_id rest
       end.

(** [xs.join(sep)] *)
Fixpoint join (sep : string) (xs : list string) : string :=
  match xs with
  | [] => ""
  | [x] => x
  | x :: rest => x ++ sep ++ join sep rest
  end.

(** [a || b] on values that may be absent. *)
Definition or_string (a : string) (b : string) : string :=
  if truthy a then a else b.

End JS.

(** ** content-scripts: the page, and programs that act on it

    A controller runs inside a page it does not own.  What the page shows,
    how late its timers fire and what the network answers are given by an
    environment; a controller method is a program over the effects below,
    and [run] executes it against an environment.  Reading the DOM takes
    no time; the clock moves while the program sleeps or waits for the
    network, and a timer may fire late but not early.  The page is a
    function of the instant at which it is looked at, so it may change
    between two looks in any way, also in answer to what the controller
    did.  A loop [while (Date.now() - startTime < timeout)] is given
    [poll_fuel] turns, which it never uses up.  A script that sends the
    page to another address is gone with the page: what it was waiting for
    never comes. *)

Module Automation.

(** What the controllers read of a DOM element. *)
Record Element := {
  node : nat;
  innerText : string;
  textContent : option string;
  src : string;
  currentSrc : string;
  href : string;
  disabled : bool;
  classList : list string;
  attributes : list (string * string)
}.

Definition getAttribute (el : Element) (name : string) : option string :=
  match find (fun kv => fst kv =? name) (attributes el) with
  | Some kv => Some (snd kv)
  | None => None
  end.

Definition classList_contains (el : Element) (c : string) : bool :=
  existsb (fun x => x =? c) (classList el).

(** The answer of [querySelectorAll]: the matches in document order, or
    the [SyntaxError] of a selector the page does not parse. *)
Inductive QueryResult :=
| Matches (els : list Element)
| SyntaxError (msg : string).

(** The answer of [fetch]. *)
Inductive FetchResult :=
| Response (ok : bool)
| NetworkError (msg : string).

Record Env := {
  (** the matches of a selector under a root ([None]: the document) at an instant *)
  querySelectorAll : Z -> option nat -> string -> QueryResult;
  (** [window.location.href] at an instant *)
  location_href : Z -> string;
  (** [new URL(url, base)]: host name and path name, [None] when it throws *)
  parseURL : string -> string -> option (string * string);
  (** [new Date(t).toISOString()] *)
  toISOString : Z -> string;
  (** by how much a timer armed at an instant fires late *)
  timerLag : Z -> N;
  (** the value of [Math.random()] drawn at an instant, scaled to [0, n) *)
  random : Z -> N -> N;
  (** the answer to a request sent at an instant, and how long it takes *)
  fetch : Z -> string -> FetchResult * N
}.

(** What a controller does to the page and to the extension runtime. *)
Inductive Effect :=
| scrollIntoView (n : nat)
| dispatchEvent (target : option nat) (type : string)
| click (n : nat)
| focus (n : nat)
| set_value (n : nat) (v : string)
| set_innerHTML (n : nat) (v : string)
| set_files (n : nat) (fileName : string)
| set_location_href (url : string)
| sendMessage (type : string) (payload : list (string * string)).

(** An interaction with the page, as opposed to a message to the runtime. *)
Definition is_interaction (e : Effect) : bool :=
  match e with
  | sendMessage _ _ => false
  | _ => true
  end.

Definition is_click (e : Effect) : bool :=
  match e with
  | click _ => true
  | _ => false
  end.

Section Programs.
Context {S : Type}.

(** A controller method, up to the first effect it needs; [S] is the
    type of [this.state].  [Unload] is the end of a script whose page is
    left for another one while it waits: nothing of it runs any more, not
    a [catch] and not a [finally]. *)
Inductive Prog (A : Type) : Type :=
| Ret (a : A)
| Throw (msg : string)
| OutOfFuel
| Unload
| DateNow (k : Z -> Prog A)
| Sleep (ms : Z) (k : Prog A)
| MathRandom (n : N) (k : Z -> Prog A)
| QuerySelectorAll (root : option nat) (selector : string) (k : QueryResult -> Prog A)
| LocationHref (k : string -> Prog A)
| NewURL (url : string) (k : option (string * string) -> Prog A)
| ToISOString (t : Z) (k : string -> Prog A)
| Fetch (url : string) (k : FetchResult -> Prog A)
| Do (e : Effect) (k : Prog A)
| GetState (k : S -> Prog A)
| SetState (s : S) (k : Prog A).

Arguments Ret {A} a.
Arguments Throw {A} msg.
Arguments OutOfFuel {A}.
Arguments Unload {A}.
Arguments DateNow {A} k.
Arguments Sleep {A} ms k.
Arguments MathRandom {A} n k.
Arguments QuerySelectorAll {A} root selector k.
Arguments LocationHref {A} k.
Arguments NewURL {A} url k.
Arguments ToISOString {A} t k.
Arguments Fetch {A} url k.
Arguments Do {A} e k.
Arguments GetState {A} k.
Arguments SetState {A} s k.

Fixpoint bind {A B} (p : Prog A) (f : A -> Prog B) : Prog B :=
  match p with
  | Ret a => f a
  | Throw msg => Throw msg
  | OutOfFuel => OutOfFuel
  | Unload => Unload
  | DateNow k => DateNow (fun t => bind (k t) f)
  | Sleep ms k => Sleep ms (bind k f)
  | MathRandom n k => MathRandom n (fun r => bind (k r) f)
  | QuerySelectorAll root sel k => QuerySelectorAll root sel (fun r => bind (k r) f)
  | LocationHref k => LocationHref (fun u => bind (k u) f)
  | NewURL url k => NewURL url (fun r => bind (k r) f)
  | ToISOString t k => ToISOString t (fun s => bind (k s) f)
  | Fetch url k => Fetch url (fun r => bind (k r) f)
  | Do e k => Do e (bind k f)
  | GetState k => GetState (fun s => bind (k s) f)
  | SetState s k => SetState s (bind k f)
  end.

(** [try { p } catch (error) { h(error.message) }] *)
Fixpoint try_catch {A} (p : Prog A) (h : string -> Prog A) : Prog A :=
  match p with
  | Ret a => Ret a
  | Throw msg => h msg
  | OutOfFuel => OutOfFuel
  | Unload => Unload
  | DateNow k => DateNow (fun t => try_catch (k t) h)
  | Sleep ms k => Sleep ms (try_catch k h)
  | MathRandom n k => MathRandom n (fun r => try_catch (k r) h)
  | QuerySelectorAll root sel k => QuerySelectorAll root sel (fun r => try_catch (k r) h)
  | LocationHref k => LocationHref (fun u => try_catch (k u) h)
  | NewURL url k => NewURL url (fun r => try_catch (k r) h)
  | ToISOString t k => ToISOString t (fun s => try_catch (k s) h)
  | Fetch url k => Fetch url (fun r => try_catch (k r) h)
  | Do e k => Do e (try_catch k h)
  | GetState k => GetState (fun s => try_catch (k s) h)
  | SetState s k => SetState s (try_catch k h)
  end.

(** [try { p } finally { f }] *)
Fixpoint try_finally {A} (p : Prog A) (f : Prog unit) : Prog A :=
  match p with
  | Ret a => bind f (fun _ => Ret a)
  | Throw msg => bind f (fun _ => Throw msg)
  | OutOfFuel => OutOfFuel
  | Unload => Unload
  | DateNow k => DateNow (fun t => try_finally (k t) f)
  | Sleep ms k => Sleep ms (try_finally k f)
  | MathRandom n k => MathRandom n (fun r => try_finally (k r) f)
  | QuerySelectorAll root sel k => QuerySelectorAll root sel (fun r => try_finally (k r) f)
  | LocationHref k => LocationHref (fun u => try_finally (k u) f)
  | NewURL url k => NewURL url (fun r => try_finally (k r) f)
  | ToISOString t k => ToISOString t (fun s => try_finally (k s) f)
  | Fetch url k => Fetch url (fun r => try_finally (k r) f)
  | Do e k => Do e (try_finally k f)
  | GetState k => GetState (fun s => try_finally (k s) f)
  | SetState s k => SetState s (try_finally k f)
  end.

(** The agent and the clock, and what the agent has done so far, each
    effect with the instant at which it happened. *)
Record World := {
  clock : Z;
  state : S;
  trace : list (Z * Effect)
}.

(** How a program ends: it returns, it throws, it runs out of the turns
    given to a loop, or it is gone with its page. *)
Inductive Result (A : Type) : Type :=
| Value (a : A)
| Error (msg : string)
| Diverged
| Unloaded.
Arguments Value {A} a.
Arguments Error {A} msg.
Arguments Diverged {A}.
Arguments Unloaded {A}.

Definition at_clock (t : Z) (w : World) : World :=
  {| clock := t; state := state w; trace := trace w |}.

Definition with_state (s : S) (w : World) : World :=
  {| clock := clock w; state := s; trace := trace w |}.

Definition with_effect (e : Effect) (w : World) : World :=
  {| clock := clock w; state := state w; trace := (trace w ++ [(clock w, e)])%list |}.

(** The instant at which a timer of [ms] milliseconds armed at [t] fires. *)
Definition wake (env : Env) (t ms : Z) : Z :=
  t + Z.max 0 ms + Z.of_N (timerLag env t).

Fixpoint run (env : Env) {A} (p : Prog A) (w : World) : Result A * World :=
  match p with
  | Ret a => (Value a, w)
  | Throw msg => (Error msg, w)
  | OutOfFuel => (Diverged, w)
  | Unload => (Unloaded, w)
  | DateNow k => run env (k (clock w)) w
  | Sleep ms k => run env k (at_clock (wake env (clock w) ms) w)
  | MathRandom n k =>
      run env (k (Z.of_N (random env (clock w) n) mod Z.max 1 (Z.of_N n))) w
  | QuerySelectorAll root sel k => run env (k (querySelectorAll env (clock w) root sel)) w
  | LocationHref k => run env (k (location_href env (clock w))) w
  | NewURL url k => run env (k (parseURL env url (location_href env (clock w)))) w
  | ToISOString t k => run env (k (toISOString env t)) w
  | Fetch url k =>
      let '(r, d) := fetch env (clock w) url in
      run env (k r) (at_clock (clock w + Z.of_N d) w)
  | Do e k => run env k (with_effect e w)
  | GetState k => run env (k (state w)) w
  | SetState s k => run env k (with_state s w)
  end.

(** *** The statements of a method *)

Definition sleep (ms : Z) : Prog unit := Sleep ms (Ret tt).

Definition Date_now : Prog Z := DateNow Ret.

Definition do (e : Effect) : Prog unit := Do e (Ret tt).

(** [root.querySelectorAll(selector)]; it throws on a selector that does
    not parse. *)
Definition querySelectorAll_of (root : option nat) (selector : string)
    : Prog (list Element) :=
  QuerySelectorAll root selector
    (fun r => match r with
              | Matches els => Ret els
              | SyntaxError msg => Throw msg
              end).

(** [document.querySelector(selector)] *)
Definition document_querySelector (selector : string) : Prog (option Element) :=
  bind (querySelectorAll_of None selector) (fun els => Ret (hd_error els)).

(** The number of turns that a loop
    [while (Date.now() - startTime < timeout) { ...; await sleep(interval) }]
    can take at most. *)
Definition poll_fuel (timeout interval : Z) : nat :=
  Z.to_nat (timeout / interval) + 2.

(** [while (Date.now() - startTime < timeout) { body; await sleep(interval) }]
    followed by [after].  The body gives [Some a] when it returns [a] from
    the method and [None] when it falls through to the [sleep]. *)
Fixpoint poll {A} (fuel : nat) (startTime timeout interval : Z)
    (body : Prog (option A)) (after : Prog A) : Prog A :=
  match fuel with
  | O => OutOfFuel
  | Datatypes.S fuel' =>
      DateNow (fun now =>
        if (now - startTime <? timeout)%Z then
          bind body (fun r =>
            match r with
            | Some a => Ret a
            | None => Sleep interval (poll fuel' startTime timeout interval body after)
            end)
        else after)
  end.

(** [candidates.find(u => p(u))] for a test that reads the page. *)
Fixpoint findM {A} (p : A -> Prog bool) (l : list A) : Prog (option A) :=
  match l with
  | [] => Ret None
  | x :: rest => bind (p x) (fun b => if b then Ret (Some x) else findM p rest)
  end.

(** A loop [for (const x of l) { body }] whose body may return from the
    method: the first [Some]. *)
Fixpoint firstM {A B} (body : A -> Prog (option B)) (l : list A) : Prog (option B) :=
  match l with
  | [] => Ret None
  | x :: rest =>
      bind (body x) (fun r => match r with
                              | Some b => Ret (Some b)
                              | None => firstM body rest
                              end)
  end.

End Programs.

Arguments Prog S A : clear implicits.
Arguments World S : clear implicits.
Arguments Ret {S A} a.
Arguments Throw {S A} msg.
Arguments OutOfFuel {S A}.
Arguments Unload {S A}.
Arguments DateNow {S A} k.
Arguments Sleep {S A} ms k.
Arguments MathRandom {S A} n k.
Arguments QuerySelectorAll {S A} root selector k.
Arguments LocationHref {S A} k.
Arguments NewURL {S A} url k.
Arguments ToISOString {S A} t k.
Arguments Fetch {S A} url k.
Arguments Do {S A} e k.
Arguments GetState {S A} k.
Arguments SetState {S A} s k.
Arguments Value {A} a.
Arguments Error {A} msg.
Arguments Diverged {A}.
Arguments Unloaded {A}.

Declare Scope prog_scope.
Delimit Scope prog_scope with prog.
Notation "x <- c1 ;; c2" := (bind c1 (fun x => c2))
  (at level 61, c1 at next level, right associativity) : prog_scope.
Notation "c1 ;; c2" := (bind c1 (fun _ => c2))
  (at level 61, right associativity) : prog_scope.
Local Open Scope prog_scope.

(** ** config/constants.ts: the selectors the two controllers use *)

Module GOOGLE_FLOW_SELECTORS.
Import JS.
Definition promptInput : string :=
  "textarea[aria-label*=" ++ q "prompt" ++ " i], textarea[placeholder*=" ++ q "prompt"
  ++ " i], textarea[placeholder*=" ++ q "video" ++ " i], textarea[placeholder*="
  ++ q "วิดีโอ" ++ "], textarea".
Definition durationSelector : string :=
  "select[name*=" ++ q "duration" ++ "], [aria-label*=" ++ q "Duration"
  ++ "] select, [data-testid*=" ++ q "duration" ++ "] select".
Definition aspectRatioSelector : string :=
  "select[name*=" ++ q "aspect" ++ "], [aria-label*=" ++ q "Aspect"
  ++ "] select, [data-testid*=" ++ q "aspect" ++ "] select".
Definition musicToggle : string :=
  "input[type=" ++ q "checkbox" ++ "][name*=" ++ q "music" ++ "], [aria-label*="
  ++ q "Music" ++ "] input[type=" ++ q "checkbox" ++ "], button[aria-label*="
  ++ q "Music" ++ "]".
Definition voiceoverToggle : string :=
  "input[type=" ++ q "checkbox" ++ "][name*=" ++ q "voice" ++ "], [aria-label*="
  ++ q "Voice" ++ "] input[type=" ++ q "checkbox" ++ "], button[aria-label*="
  ++ q "Voice" ++ "]".
Definition generateButton : string :=
  "button[aria-label*=" ++ q "generate" ++ " i], button[aria-label*=" ++ q "create"
  ++ " i], button[aria-label*=" ++ q "สร้าง" ++ "], button[type=" ++ q "submit"
  ++ "], button".
Definition progressIndicator : string :=
  ".progress-indicator, [role=" ++ q "progressbar" ++ "], .progress".
Definition downloadButton : string :=
  "a[href*=" ++ q "storage.googleapis.com/ai-sandbox-videofx/video"
  ++ "], a[download], button[aria-label*=" ++ q "download"
  ++ " i], button[aria-label*=" ++ q "ดาวน์โหลด" ++ "], a[href*=" ++ q "download"
  ++ " i], [data-url*=" ++ q "storage.googleapis.com/ai-sandbox-videofx/video" ++ "]".
Definition videoPreview : string :=
  "video[src*=" ++ q "ai-sandbox-videofx/video" ++ "], video source[src*="
  ++ q "ai-sandbox-videofx/video" ++ "], video[src*=" ++ q "googleusercontent"
  ++ "], video[src*=" ++ q "gstatic" ++ "], video".
Definition errorMessage : string :=
  "[role=" ++ q "alert" ++ "], .error, .toast-error".
Definition progressText : string :=
  "[aria-live=" ++ q "polite" ++ "], .progress-text, .status-text".
Definition cancelButton : string :=
  "button[aria-label*=" ++ q "cancel" ++ " i], button[aria-label*=" ++ q "stop"
  ++ " i], button[aria-label*=" ++ q "ยกเลิก" ++ "], button".
End GOOGLE_FLOW_SELECTORS.

Module TIKTOK_SELECTORS.
Import JS.
Definition uploadArea : string :=
  "[data-e2e*=" ++ q "upload" ++ "], .upload-container, main".
Definition fileInput : string :=
  "input[type=" ++ q "file" ++ "][accept*=" ++ q "video" ++ "]".
Definition uploadComplete : string :=
  "[data-e2e*=" ++ q "success" ++ "], .upload-success, .success".
Definition uploadProgress : string :=
  "[role=" ++ q "progressbar" ++ "], .upload-progress, .progress".
Definition captionInput : string :=
  "textarea[placeholder*=" ++ q "caption" ++ "], div[contenteditable=" ++ q "true" ++ "]".
Definition visibilitySelector : string :=
  "select[name*=" ++ q "visibility" ++ "], [aria-label*=" ++ q "Visibility"
  ++ "] select, [data-e2e*=" ++ q "visibility" ++ "]".
Definition visibilityPublic : string :=
  "[data-e2e*=" ++ q "public" ++ "], input[value=" ++ q "public" ++ "], [role="
  ++ q "radio" ++ "][data-e2e*=" ++ q "public" ++ "]".
Definition visibilityPrivate : string :=
  "[data-e2e*=" ++ q "private" ++ "], input[value=" ++ q "private" ++ "], [role="
  ++ q "radio" ++ "][data-e2e*=" ++ q "private" ++ "]".
Definition visibilityFriends : string :=
  "[data-e2e*=" ++ q "friends" ++ "], input[value=" ++ q "friends" ++ "], [role="
  ++ q "radio" ++ "][data-e2e*=" ++ q "friends" ++ "]".
Definition scheduleToggle : string :=
  "[data-e2e*=" ++ q "schedule" ++ "], input[type=" ++ q "checkbox" ++ "][name*="
  ++ q "schedule" ++ "], [role=" ++ q "switch" ++ "][data-e2e*=" ++ q "schedule" ++ "]".
Definition scheduleDateInput : string :=
  "input[type=" ++ q "datetime-local" ++ "], input[placeholder*=" ++ q "Schedule"
  ++ "], input[aria-label*=" ++ q "Schedule" ++ "]".
Definition postButton : string :=
  "button[data-e2e=" ++ q "post-button" ++ "], button[type=" ++ q "submit"
  ++ "], [role=" ++ q "button" ++ "][data-e2e=" ++ q "post-button" ++ "]".
Definition successMessage : string :=
  "[data-e2e*=" ++ q "success" ++ "], .toast-success, .success".
Definition errorMessage : string :=
  "[role=" ++ q "alert" ++ "], .toast-error, .error".
End TIKTOK_SELECTORS.

(** [if (b) { p }] *)
Definition when {S} (b : bool) (p : Prog S unit) : Prog S unit :=
  if b then p else Ret tt.

(** [el.innerText || el.textContent || ''] *)
Definition label_of (el : Element) : string :=
  JS.or_string (innerText el)
    (match textContent el with Some t => t | None => "" end).

(** [el.textContent || fallback] *)
Definition textContent_or (el : Element) (fallback : string) : string :=
  match textContent el with
  | Some t => JS.or_string t fallback
  | None => fallback
  end.

(** ** content-scripts/tiktok-controller.ts: [FlowController] *)

Module FlowController.
Import Constants.

Record VoiceSettings := { language : string; gender : string }.

Record VideoCreationRequest := {
  jobId : string;
  prompt : string;
  duration : Z;
  aspectRatio : Types.AspectRatio;
  includeMusic : bool;
  includeVoiceover : bool;
  voiceSettings : option VoiceSettings
}.

Definition aspect_text (a : Types.AspectRatio) : string :=
  match a with
  | Types.ratio_9_16 => "9:16"
  | Types.ratio_16_9 => "16:9"
  | Types.ratio_1_1 => "1:1"
  end.

Record FlowControllerState := {
  isProcessing : bool;
  currentJobId : option string;
  lastActionTime : Z
}.

Definition initial : FlowControllerState :=
  {| isProcessing := false; currentJobId := None; lastActionTime := 0 |}.

Definition set_isProcessing (b : bool) (st : FlowControllerState) :=
  {| isProcessing := b; currentJobId := currentJobId st;
     lastActionTime := lastActionTime st |}.
Definition set_currentJobId (j : option string) (st : FlowControllerState) :=
  {| isProcessing := isProcessing st; currentJobId := j;
     lastActionTime := lastActionTime st |}.
Definition set_lastActionTime (t : Z) (st : FlowControllerState) :=
  {| isProcessing := isProcessing st; currentJobId := currentJobId st;
     lastActionTime := t |}.

(** What [handleCreateVideo] resolves to. *)
Record CreateVideoResult := {
  success : bool;
  videoUrl : option string;
  error : option string
}.

Definition P := Prog FlowControllerState.

(** [this.state.f = v] *)
Definition assign (f : FlowControllerState -> FlowControllerState) : P unit :=
  GetState (fun st => SetState (f st) (Ret tt)).

Definition FLOW_VIDEO_HOST : string := "storage.googleapis.com".
Definition FLOW_VIDEO_PATH_FRAGMENT : string := "/ai-sandbox-videofx/video/".

Definition querySelectorSafe (selector : string) : P (option Element) :=
  try_catch (document_querySelector selector) (fun _ => Ret None).

Definition waitForElement (selector : string) (timeout : Z) : P (option Element) :=
  startTime <- Date_now ;;
  poll (poll_fuel timeout 100) startTime timeout 100
    (element <- querySelectorSafe selector ;;
     match element with
     | Some e => Ret (Some (Some e))
     | None => Ret None
     end)
    (Ret None).

Definition isFlowSignedVideoUrl (url : string) : P bool :=
  let trimmed := JS.trim url in
  if negb (JS.truthy trimmed) then Ret false
  else
    NewURL trimmed (fun parsed =>
      match parsed with
      | Some (hostname, pathname) =>
          Ret ((hostname =? FLOW_VIDEO_HOST)
               && JS.includes pathname FLOW_VIDEO_PATH_FRAGMENT)
      | None =>
          Ret (JS.includes trimmed (FLOW_VIDEO_HOST ++ FLOW_VIDEO_PATH_FRAGMENT))
      end).

(** [if (url && this.isFlowSignedVideoUrl(url)) return url;] *)
Definition signed_or_none (url : string) : P (option string) :=
  if JS.truthy url then
    b <- isFlowSignedVideoUrl url ;;
    Ret (if b then Some url else None)
  else Ret None.

Definition findGeneratedVideoUrl : P (option string) :=
  videos <- querySelectorAll_of None "video" ;;
  found <- firstM (fun video =>
             let candidates := filter JS.truthy [currentSrc video; src video] in
             m <- findM isFlowSignedVideoUrl candidates ;;
             match m with
             | Some u => Ret (Some u)
             | None =>
                 sources <- querySelectorAll_of (Some (node video)) "source" ;;
                 firstM (fun source => signed_or_none (src source)) sources
             end) videos ;;
  match found with
  | Some u => Ret (Some u)
  | None =>
      linkCandidates <-
        querySelectorAll_of None "a[href], a[download], button[data-url], [data-url]" ;;
      firstM (fun el =>
                h <- signed_or_none (href el) ;;
                match h with
                | Some u => Ret (Some u)
                | None =>
                    match getAttribute el "data-url" with
                    | Some dataUrl => signed_or_none dataUrl
                    | None => Ret None
                    end
                end) linkCandidates
  end.

Definition waitForElements (selector : string) (timeout : Z) : P (list Element) :=
  startTime <- Date_now ;;
  poll (poll_fuel timeout 100) startTime timeout 100
    (QuerySelectorAll None selector (fun r =>
       match r with
       | SyntaxError _ => Ret (Some [])
       | Matches elements =>
           if (0 <? length elements)%nat then Ret (Some elements) else Ret None
       end))
    (Ret []).

Definition enforceRateLimit : P unit :=
  now <- Date_now ;;
  st <- GetState Ret ;;
  let timeSinceLastAction := now - lastActionTime st in
  let minDelay := RATE_LIMITS.MIN_ACTION_DELAY_MS in
  when (timeSinceLastAction <? minDelay)%Z (sleep (minDelay - timeSinceLastAction)) ;;
  now' <- Date_now ;;
  assign (set_lastActionTime now').

(** The loop of [typeText] over the code points of the text: [typed] is
    the value the input holds. *)
Fixpoint typeChars (n : nat) (typed : string) (chars : list string) : P unit :=
  match chars with
  | [] => Ret tt
  | char :: rest =>
      let typed' := typed ++ char in
      do (set_value n typed') ;;
      do (dispatchEvent (Some n) "input") ;;
      r <- MathRandom 50 Ret ;;
      sleep (30 + r) ;;
      typeChars n typed' rest
  end.

Definition typeText (element : Element) (text : string) : P unit :=
  do (focus (node element)) ;;
  do (set_value (node element) "") ;;
  do (dispatchEvent (Some (node element)) "input") ;;
  typeChars (node element) "" (JS.code_points text) ;;
  do (dispatchEvent (Some (node element)) "change").

Definition clickElement (element : Element) : P unit :=
  do (scrollIntoView (node element)) ;;
  sleep 200 ;;
  do (dispatchEvent (Some (node element)) "mouseenter") ;;
  sleep 100 ;;
  do (click (node element)) ;;
  sleep 300.

Definition findButtonByText (texts : list string) : P (option Element) :=
  let normalizedTargets := filter JS.truthy (map JS.trim texts) in
  if (length normalizedTargets =? 0)%nat then Ret None
  else
    buttons <- querySelectorAll_of None "button" ;;
    Ret (find (fun button =>
                 let label := JS.trim (label_of button) in
                 JS.truthy label
                 && existsb (fun t => JS.includes label t) normalizedTargets)
              buttons).

Definition navigateToCreatePage : P unit :=
  promptInput <- waitForElement GOOGLE_FLOW_SELECTORS.promptInput 10000 ;;
  match promptInput with
  | None => Throw "Could not find prompt input field"
  | Some _ => Ret tt
  end.

Definition enterPrompt (prompt : string) : P unit :=
  promptInput <- waitForElement GOOGLE_FLOW_SELECTORS.promptInput 10000 ;;
  match promptInput with
  | None => Throw "Prompt input not found"
  | Some promptInput =>
      typeText promptInput prompt ;;
      sleep 500
  end.

Definition trySetAspectRatio (aspectRatio : Types.AspectRatio) : P unit :=
  settingsButton <- findButtonByText ["การตั้งค่า"; "Settings"] ;;
  match settingsButton with
  | None => Ret tt
  | Some settingsButton =>
      clickElement settingsButton ;;
      sleep 300 ;;
      dialog <- waitForElement ("[role=" ++ JS.q "dialog" ++ "]") 2000 ;;
      match dialog with
      | None => Ret tt
      | Some dialog =>
          comboboxes <-
            querySelectorAll_of (Some (node dialog)) ("[role=" ++ JS.q "combobox" ++ "]") ;;
          let aspectCombobox :=
            find (fun el =>
                    let text := JS.toLowerCase (label_of el) in
                    JS.includes text "9:16" || JS.includes text "16:9"
                    || JS.includes text "1:1" || JS.includes text "สัดส่วน")
                 comboboxes in
          match aspectCombobox with
          | None => Ret tt
          | Some aspectCombobox =>
              clickElement aspectCombobox ;;
              sleep 200 ;;
              listbox <- waitForElement ("[role=" ++ JS.q "listbox" ++ "]") 1500 ;;
              match listbox with
              | None => Ret tt
              | Some listbox =>
                  let targetText := aspect_text aspectRatio in
                  options <-
                    querySelectorAll_of (Some (node listbox))
                      ("[role=" ++ JS.q "option" ++ "]") ;;
                  let option :=
                    find (fun o => JS.includes (label_of o) targetText) options in
                  match option with
                  | Some option => clickElement option ;; sleep 200
                  | None => Ret tt
                  end ;;
                  do (dispatchEvent None "keydown") ;;
                  sleep 200
              end
          end
      end
  end.

Definition configureSettings (request : VideoCreationRequest) : P unit :=
  trySetAspectRatio (aspectRatio request) ;;
  durationSelector <- waitForElement GOOGLE_FLOW_SELECTORS.durationSelector 3000 ;;
  match durationSelector with
  | Some durationSelector =>
      clickElement durationSelector ;;
      sleep 300 ;;
      durationOptions <- waitForElements "[data-duration]" 2000 ;;
      let targetOption :=
        find (fun el =>
                match getAttribute el "data-duration" with
                | Some d => d =? JS.String_of_number (duration request)
                | None => false
                end)
             durationOptions in
      match targetOption with
      | Some targetOption => clickElement targetOption
      | None => Ret tt
      end
  | None => Ret tt
  end ;;
  aspectSelector <- waitForElement GOOGLE_FLOW_SELECTORS.aspectRatioSelector 3000 ;;
  match aspectSelector with
  | Some aspectSelector =>
      clickElement aspectSelector ;;
      sleep 300 ;;
      aspectOptions <- waitForElements "[data-aspect]" 2000 ;;
      let targetAspect :=
        find (fun el =>
                match getAttribute el "data-aspect" with
                | Some a => a =? aspect_text (aspectRatio request)
                | None => false
                end)
             aspectOptions in
      match targetAspect with
      | Some targetAspect => clickElement targetAspect
      | None => Ret tt
      end
  | None => Ret tt
  end ;;
  when (includeMusic request)
    (musicToggle <- waitForElement GOOGLE_FLOW_SELECTORS.musicToggle 3000 ;;
     match musicToggle with
     | Some musicToggle =>
         when (negb (classList_contains musicToggle "active")) (clickElement musicToggle)
     | None => Ret tt
     end) ;;
  when (includeVoiceover request)
    (voiceToggle <- waitForElement GOOGLE_FLOW_SELECTORS.voiceoverToggle 3000 ;;
     match voiceToggle with
     | Some voiceToggle =>
         clickElement voiceToggle ;;
         sleep 500 ;;
         match voiceSettings request with
         | Some _ =>
             languageSelector <- waitForElement "[data-voice-language]" 2000 ;;
             match languageSelector with
             | Some languageSelector => clickElement languageSelector
             | None => Ret tt
             end
         | None => Ret tt
         end
     | None => Ret tt
     end).

Definition startGeneration : P unit :=
  waited <- waitForElement GOOGLE_FLOW_SELECTORS.generateButton 2000 ;;
  generateButton <-
    match waited with
    | Some b => Ret (Some b)
    | None => findButtonByText ["สร้าง"; "Generate"; "Create"]
    end ;;
  match generateButton with
  | None => Throw "Generate button not found"
  | Some generateButton =>
      if disabled generateButton then
        Throw "Generate button is disabled - check credits or input"
      else
        clickElement generateButton ;;
        sleep 1000 ;;
        progressIndicator <-
          waitForElement GOOGLE_FLOW_SELECTORS.progressIndicator 5000 ;;
        match progressIndicator with
        | None => Throw "Generation did not start"
        | Some _ => Ret tt
        end
  end.

(** The video URL that the preview or the download button carries, in the
    loop of [waitForCompletion]. *)
Definition urlFromDownloadButton (downloadButton : Element) : P (option string) :=
  videoElement <- document_querySelector GOOGLE_FLOW_SELECTORS.videoPreview ;;
  a <- match videoElement with
       | Some v => signed_or_none (currentSrc v)
       | None => Ret None
       end ;;
  match a with
  | Some u => Ret (Some u)
  | None =>
      b <- match videoElement with
           | Some v => signed_or_none (src v)
           | None => Ret None
           end ;;
      match b with
      | Some u => Ret (Some u)
      | None =>
          let downloadUrl :=
            match getAttribute downloadButton "href" with
            | Some h => if JS.truthy h then Some h
                        else getAttribute downloadButton "data-url"
            | None => getAttribute downloadButton "data-url"
            end in
          match downloadUrl with
          | Some u => signed_or_none u
          | None => Ret None
          end
      end
  end.

(** One turn of the loop of [waitForCompletion], up to its [sleep]. *)
Definition completionPoll : P (option string) :=
  generatedUrl <- findGeneratedVideoUrl ;;
  match generatedUrl with
  | Some u => Ret (Some u)
  | None =>
      downloadButton <- document_querySelector GOOGLE_FLOW_SELECTORS.downloadButton ;;
      fromButton <-
        match downloadButton with
        | None => Ret None
        | Some downloadButton => urlFromDownloadButton downloadButton
        end ;;
      match fromButton with
      | Some u => Ret (Some u)
      | None =>
          errorElement <- document_querySelector GOOGLE_FLOW_SELECTORS.errorMessage ;;
          match errorElement with
          | Some errorElement =>
              Throw (textContent_or errorElement "Generation failed")
          | None =>
              _ <- document_querySelector GOOGLE_FLOW_SELECTORS.progressText ;;
              Ret None
          end
      end
  end.

Definition maxWaitTime : Z := 5 * 60 * 1000.

Definition waitForCompletion : P string :=
  startTime <- Date_now ;;
  poll (poll_fuel maxWaitTime 2000) startTime maxWaitTime 2000
    completionPoll
    (Throw "Video generation timed out").

(** The [try] block of [handleCreateVideo]. *)
Definition createVideo (request : VideoCreationRequest) : P CreateVideoResult :=
  enforceRateLimit ;;
  navigateToCreatePage ;;
  enterPrompt (prompt request) ;;
  configureSettings request ;;
  startGeneration ;;
  videoUrl <- waitForCompletion ;;
  do (sendMessage "VIDEO_CREATED"
        [("jobId", jobId request); ("videoUrl", videoUrl)]) ;;
  Ret {| success := true; videoUrl := Some videoUrl; error := None |}.

Definition handleCreateVideo (request : VideoCreationRequest) : P CreateVideoResult :=
  st <- GetState Ret ;;
  if isProcessing st then
    Ret {| success := false; videoUrl := None;
           error := Some "Another video is being processed" |}
  else
    assign (set_isProcessing true) ;;
    assign (set_currentJobId (Some (jobId request))) ;;
    try_finally
      (try_catch
         (createVideo request)
         (fun errorMessage =>
            do (sendMessage "VIDEO_FAILED"
                  [("jobId", jobId request); ("error", errorMessage)]) ;;
            Ret {| success := false; videoUrl := None; error := Some errorMessage |}))
      (assign (set_isProcessing false) ;;
       assign (set_currentJobId None)).

(** [getVideoDownloadUrl()]: [Some url] stands for the answer
    [{ success: true, url }] and [None] for [{ success: false }]. *)
Definition getVideoDownloadUrl : P (option string) :=
  generatedUrl <- findGeneratedVideoUrl ;;
  match generatedUrl with
  | Some u => Ret (Some u)
  | None =>
      downloadButton <- document_querySelector GOOGLE_FLOW_SELECTORS.downloadButton ;;
      let url :=
        match downloadButton with
        | Some downloadButton =>
            match getAttribute downloadButton "href" with
            | Some h => if JS.truthy h then Some h
                        else getAttribute downloadButton "data-url"
            | None => getAttribute downloadButton "data-url"
            end
        | None => None
        end in
      fromButton <- match url with
                    | Some u => signed_or_none u
                    | None => Ret None
                    end ;;
      match fromButton with
      | Some u => Ret (Some u)
      | None =>
          videoElement <- document_querySelector GOOGLE_FLOW_SELECTORS.videoPreview ;;
          a <- match videoElement with
               | Some v => signed_or_none (currentSrc v)
               | None => Ret None
               end ;;
          match a with
          | Some u => Ret (Some u)
          | None =>
              match videoElement with
              | Some v => signed_or_none (src v)
              | None => Ret None
              end
          end
      end
  end.

(** [cancelGeneration()]: the [success] of its answer. *)
Definition cancelGeneration : P bool :=
  cancelButton <- document_querySelector GOOGLE_FLOW_SELECTORS.cancelButton ;;
  match cancelButton with
  | Some cancelButton =>
      clickElement cancelButton ;;
      assign (set_isProcessing false) ;;
      assign (set_currentJobId None) ;;
      Ret true
  | None => Ret false
  end.

(** The terminal event of a [CREATE_VIDEO] command with the given answer. *)
Definition terminal_event (request : VideoCreationRequest) (response : CreateVideoResult)
    : Effect :=
  if success response then
    sendMessage "VIDEO_CREATED"
      [("jobId", jobId request);
       ("videoUrl", match videoUrl response with Some u => u | None => "" end)]
  else
    sendMessage "VIDEO_FAILED"
      [("jobId", jobId request);
       ("error", match error response with Some e => e | None => "" end)].

End FlowController.

(** ** content-scripts/tiktok-controller.ts: [TikTokController] *)

Module TikTokController.
Import Constants.

Inductive Visibility := public | private | friends.

Record VideoUploadRequest := {
  jobId : string;
  videoUrl : string;
  caption : string;
  hashtags : list string;
  scheduledTime : option Z;
  visibility : option Visibility
}.

Record TikTokControllerState := {
  isUploading : bool;
  currentJobId : option string;
  lastActionTime : Z
}.

Definition initial : TikTokControllerState :=
  {| isUploading := false; currentJobId := None; lastActionTime := 0 |}.

Definition set_isUploading (b : bool) (st : TikTokControllerState) :=
  {| isUploading := b; currentJobId := currentJobId st;
     lastActionTime := lastActionTime st |}.
Definition set_currentJobId (j : option string) (st : TikTokControllerState) :=
  {| isUploading := isUploading st; currentJobId := j;
     lastActionTime := lastActionTime st |}.
Definition set_lastActionTime (t : Z) (st : TikTokControllerState) :=
  {| isUploading := isUploading st; currentJobId := currentJobId st;
     lastActionTime := t |}.

(** What [handleUploadVideo] resolves to. *)
Record UploadVideoResult := {
  success : bool;
  postId : option string;
  error : option string
}.

Definition P := Prog TikTokControllerState.

Definition assign (f : TikTokControllerState -> TikTokControllerState) : P unit :=
  GetState (fun st => SetState (f st) (Ret tt)).

Definition waitForElement (selector : string) (timeout : Z) : P (option Element) :=
  startTime <- Date_now ;;
  poll (poll_fuel timeout 100) startTime timeout 100
    (try_catch
       (element <- document_querySelector selector ;;
        match element with
        | Some e => Ret (Some (Some e))
        | None => Ret None
        end)
       (fun _ => Ret (Some None)))
    (Ret None).

Definition enforceRateLimit : P unit :=
  now <- Date_now ;;
  st <- GetState Ret ;;
  let timeSinceLastAction := now - lastActionTime st in
  let minDelay := RATE_LIMITS.MIN_ACTION_DELAY_MS in
  when (timeSinceLastAction <? minDelay)%Z (sleep (minDelay - timeSinceLastAction)) ;;
  now' <- Date_now ;;
  assign (set_lastActionTime now').

Fixpoint typeChars (n : nat) (typed : string) (chars : list string) : P unit :=
  match chars with
  | [] => Ret tt
  | char :: rest =>
      let typed' := typed ++ char in
      do (set_value n typed') ;;
      do (dispatchEvent (Some n) "input") ;;
      r <- MathRandom 50 Ret ;;
      sleep (30 + r) ;;
      typeChars n typed' rest
  end.

Definition typeText (element : Element) (text : string) : P unit :=
  do (focus (node element)) ;;
  do (set_value (node element) "") ;;
  typeChars (node element) "" (JS.code_points text) ;;
  do (dispatchEvent (Some (node element)) "change").

Definition clickElement (element : Element) : P unit :=
  do (scrollIntoView (node element)) ;;
  sleep 200 ;;
  do (click (node element)) ;;
  sleep 300.

Definition downloadVideo (url : string) : P unit :=
  Fetch url (fun response =>
    match response with
    | NetworkError msg => Throw msg
    | Response ok => if ok then Ret tt else Throw "Failed to download video"
    end).

(** One turn of the loop of [waitForUploadComplete], up to its [sleep]. *)
Definition uploadPoll : P (option unit) :=
  uploadComplete <- document_querySelector TIKTOK_SELECTORS.uploadComplete ;;
  _ <- document_querySelector TIKTOK_SELECTORS.uploadProgress ;;
  match uploadComplete with
  | Some _ => Ret (Some tt)
  | None => Ret None
  end.

Definition maxWait : Z := 60000.

Definition waitForUploadComplete : P unit :=
  startTime <- Date_now ;;
  poll (poll_fuel maxWait 1000) startTime maxWait 1000
    uploadPoll
    (Throw "Upload timeout").

Definition addCaption (caption : string) : P unit :=
  captionInput <- waitForElement TIKTOK_SELECTORS.captionInput 10000 ;;
  match captionInput with
  | None => Throw "Caption input not found"
  | Some captionInput =>
      do (set_innerHTML (node captionInput) "") ;;
      typeText captionInput caption ;;
      sleep 500
  end.

Definition optionMap (v : Visibility) : string :=
  match v with
  | public => TIKTOK_SELECTORS.visibilityPublic
  | private => TIKTOK_SELECTORS.visibilityPrivate
  | friends => TIKTOK_SELECTORS.visibilityFriends
  end.

Definition setVisibility (v : Visibility) : P unit :=
  visibilitySelector <- waitForElement TIKTOK_SELECTORS.visibilitySelector 3000 ;;
  match visibilitySelector with
  | Some visibilitySelector =>
      clickElement visibilitySelector ;;
      sleep 300 ;;
      option <- waitForElement (optionMap v) 2000 ;;
      match option with
      | Some option => clickElement option
      | None => Ret tt
      end
  | None => Ret tt
  end.

Definition schedulePost (timestamp : Z) : P unit :=
  scheduleToggle <- waitForElement TIKTOK_SELECTORS.scheduleToggle 3000 ;;
  match scheduleToggle with
  | Some scheduleToggle =>
      clickElement scheduleToggle ;;
      sleep 500 ;;
      dateInput <- waitForElement TIKTOK_SELECTORS.scheduleDateInput 2000 ;;
      match dateInput with
      | Some dateInput =>
          iso <- ToISOString timestamp Ret ;;
          do (set_value (node dateInput) (String.substring 0 16 iso)) ;;
          do (dispatchEvent (Some (node dateInput)) "change")
      | None => Ret tt
      end
  | None => Ret tt
  end.

Definition publishPost : P unit :=
  postButton <- waitForElement TIKTOK_SELECTORS.postButton 5000 ;;
  match postButton with
  | None => Throw "Post button not found"
  | Some postButton =>
      clickElement postButton ;;
      sleep 2000 ;;
      successMessage <- waitForElement TIKTOK_SELECTORS.successMessage 30000 ;;
      match successMessage with
      | Some _ => Ret tt
      | None =>
          errorMessage <- document_querySelector TIKTOK_SELECTORS.errorMessage ;;
          match errorMessage with
          | Some errorMessage => Throw (textContent_or errorMessage "Post failed")
          | None => Throw "Post confirmation not received"
          end
      end
  end.

Definition extractPostId : P string :=
  url <- LocationHref Ret ;;
  match JS.match_video_id url with
  | Some m => Ret m
  | None =>
      now <- Date_now ;;
      Ret ("tiktok_" ++ JS.String_of_number now)
  end.

(** [window.location.href = url; await this.sleep(ms);]: the page is left
    for the one at [url] while the script sleeps. *)
Definition navigate (url : string) : P unit :=
  do (set_location_href url) ;;
  Unload.

(** The [try] block of [handleUploadVideo], from the wait for the upload
    interface on. *)
Definition upload (request : VideoUploadRequest) : P UploadVideoResult :=
  uploadArea <- waitForElement TIKTOK_SELECTORS.uploadArea 15000 ;;
  match uploadArea with
  | None => Throw "Upload interface not found"
  | Some _ =>
      downloadVideo (videoUrl request) ;;
      let videoFile := "video_" ++ jobId request ++ ".mp4" in
      fileInput <- waitForElement TIKTOK_SELECTORS.fileInput 10000 ;;
      match fileInput with
      | Some fileInput =>
          do (set_files (node fileInput) videoFile) ;;
          do (dispatchEvent (Some (node fileInput)) "change")
      | None => Throw "File input not found"
      end ;;
      waitForUploadComplete ;;
      let caption :=
        caption request ++ " " ++ JS.join " " (map (fun h => "#" ++ h) (hashtags request)) in
      addCaption caption ;;
      match visibility request with
      | Some v => setVisibility v
      | None => Ret tt
      end ;;
      match scheduledTime request with
      | Some t => if (t =? 0)%Z then publishPost else schedulePost t
      | None => publishPost
      end ;;
      postId <- extractPostId ;;
      do (sendMessage "VIDEO_POSTED"
            [("jobId", jobId request); ("platform", "tiktok"); ("postId", postId)]) ;;
      Ret {| success := true; postId := Some postId; error := None |}
  end.

(** The [try] block of [handleUploadVideo]. *)
Definition uploadVideo (request : VideoUploadRequest) : P UploadVideoResult :=
  enforceRateLimit ;;
  here <- LocationHref Ret ;;
  when (negb (JS.includes here "/upload"))
    (navigate "https://www.tiktok.com/upload") ;;
  upload request.

Definition handleUploadVideo (request : VideoUploadRequest) : P UploadVideoResult :=
  st <- GetState Ret ;;
  if isUploading st then
    Ret {| success := false; postId := None;
           error := Some "Another upload in progress" |}
  else
    assign (set_isUploading true) ;;
    assign (set_currentJobId (Some (jobId request))) ;;
    try_finally
      (try_catch
         (uploadVideo request)
         (fun errorMessage =>
            do (sendMessage "POST_FAILED"
                  [("jobId", jobId request); ("platform", "tiktok");
                   ("error", errorMessage)]) ;;
            Ret {| success := false; postId := None; error := Some errorMessage |}))
      (assign (set_isUploading false) ;;
       assign (set_currentJobId None)).

(** The terminal event of an [UPLOAD_VIDEO] command with the given answer. *)
Definition terminal_event (request : VideoUploadRequest) (response : UploadVideoResult)
    : Effect :=
  if success response then
    sendMessage "VIDEO_POSTED"
      [("jobId", jobId request); ("platform", "tiktok");
       ("postId", match postId response with Some p => p | None => "" end)]
  else
    sendMessage "POST_FAILED"
      [("jobId", jobId request); ("platform", "tiktok");
       ("error", match error response with Some e => e | None => "" end)].

End TikTokController.

(** ** The vocabulary of the properties of the controllers *)

Section Vocabulary.
Context {S : Type}.

(** A program that only looks at the page and at the clock. *)
Inductive Observer {A : Type} : Prog S A -> Prop :=
| Observer_Ret (a : A) : Observer (Ret a)
| Observer_Throw (msg : string) : Observer (Throw msg)
| Observer_DateNow (k : Z -> Prog S A) :
    (forall t, Observer (k t)) -> Observer (DateNow k)
| Observer_QuerySelectorAll (root : option nat) (selector : string)
    (k : QueryResult -> Prog S A) :
    (forall r, Observer (k r)) -> Observer (QuerySelectorAll root selector k)
| Observer_LocationHref (k : string -> Prog S A) :
    (forall u, Observer (k u)) -> Observer (LocationHref k)
| Observer_NewURL (url : string) (k : option (string * string) -> Prog S A) :
    (forall r, Observer (k r)) -> Observer (NewURL url k)
| Observer_ToISOString (t : Z) (k : string -> Prog S A) :
    (forall s, Observer (k s)) -> Observer (ToISOString t k).

(** A program that neither reads nor writes [this.state]. *)
Inductive Stateless {A : Type} : Prog S A -> Prop :=
| Stateless_Ret (a : A) : Stateless (Ret a)
| Stateless_Throw (msg : string) : Stateless (Throw msg)
| Stateless_OutOfFuel : Stateless OutOfFuel
| Stateless_Unload : Stateless Unload
| Stateless_DateNow (k : Z -> Prog S A) :
    (forall t, Stateless (k t)) -> Stateless (DateNow k)
| Stateless_Sleep (ms : Z) (k : Prog S A) :
    Stateless k -> Stateless (Sleep ms k)
| Stateless_MathRandom (n : N) (k : Z -> Prog S A) :
    (forall r, Stateless (k r)) -> Stateless (MathRandom n k)
| Stateless_QuerySelectorAll (root : option nat) (selector : string)
    (k : QueryResult -> Prog S A) :
    (forall r, Stateless (k r)) -> Stateless (QuerySelectorAll root selector k)
| Stateless_LocationHref (k : string -> Prog S A) :
    (forall u, Stateless (k u)) -> Stateless (LocationHref k)
| Stateless_NewURL (url : string) (k : option (string * string) -> Prog S A) :
    (forall r, Stateless (k r)) -> Stateless (NewURL url k)
| Stateless_ToISOString (t : Z) (k : string -> Prog S A) :
    (forall s, Stateless (k s)) -> Stateless (ToISOString t k)
| Stateless_Fetch (url : string) (k : FetchResult -> Prog S A) :
    (forall r, Stateless (k r)) -> Stateless (Fetch url k)
| Stateless_Do (e : Effect) (k : Prog S A) :
    Stateless k -> Stateless (Do e k).

(** A program that leaves a component of [this.state] as it finds it. *)
Definition keeps (env : Env) {A B} (field : S -> B) (p : Prog S A) : Prop :=
  forall w, field (state (snd (run env p w))) = field (state w).

(** What a program that only observes sees at the instant [t]. *)
Definition observe (env : Env) {A} (p : Prog S A) (w : World S) (t : Z) : Result A :=
  fst (run env p (at_clock t w)).

(** An observation that does not throw at the instant [t]. *)
Definition returns (env : Env) {A} (p : Prog S A) (t : Z) : Prop :=
  forall w, exists a, observe env p w t = Value a.

(** An observation at the instant [t] that returns: a value exactly when
    [b], and then one that satisfies [P]. *)
Definition yields (env : Env) {A} (p : Prog S (option A)) (w : World S) (t : Z)
    (b : bool) (P : A -> Prop) : Prop :=
  exists r, observe env p w t = Value r /\
            match r with Some _ => true | None => false end = b /\
            forall a, r = Some a -> P a.

(** A result that is an end of the program: it returned or threw. *)
Definition ended {A} (r : Result A) : Prop :=
  match r with
  | Value _ | Error _ => True
  | Diverged | Unloaded => False
  end.

(** A program that comes to an end: it never runs out of the turns given
    to its loops and never leaves the page. *)
Definition terminates {A} (p : Prog S A) : Prop :=
  forall env w, ended (fst (run env p w)).

(** The world [w'] comes after [w]: the clock has not gone back, and the
    trace has grown by effects stamped with instants from the clock of [w]
    on. *)
Definition extends (w w' : World S) : Prop :=
  clock w <= clock w' /\
  exists tr, trace w' = (trace w ++ tr)%list /\ Forall (fun e => clock w <= fst e) tr.

End Vocabulary.

(** At the instant [t] the page parses every selector it is asked. *)
Definition parses (env : Env) (t : Z) : Prop :=
  forall root selector, exists els, querySelectorAll env t root selector = Matches els.

(** The instant of the [k]-th turn of a polling loop that starts at [t0]
    and sleeps [interval] milliseconds between two turns. *)
Fixpoint tick (env : Env) (interval t0 : Z) (k : nat) : Z :=
  match k with
  | O => t0
  | Datatypes.S k' => wake env (tick env interval t0 k') interval
  end.

(** The instant at which [enforceRateLimit], entered at [now] with the
    last action recorded at [last], lets its caller go on. *)
Definition released (env : Env) (now last : Z) : Z :=
  if (now - last <? Constants.RATE_LIMITS.MIN_ACTION_DELAY_MS)%Z
  then wake env now (Constants.RATE_LIMITS.MIN_ACTION_DELAY_MS - (now - last))
  else now.

(** The instants of the clicks in a trace. *)
Definition click_times (tr : list (Z * Effect)) : list Z :=
  map fst (filter (fun e => is_click (snd e)) tr).

(** Successive instants are at least [d] apart. *)
Fixpoint spaced (d : Z) (ts : list Z) : bool :=
  match ts with
  | a :: rest =>
      match rest with
      | b :: _ => (d <=? b - a)%Z && spaced d rest
      | [] => true
      end
  | [] => true
  end.

(** The first element that matches a selector at the instant [t]; none
    when nothing matches or the page does not parse the selector. *)
Definition first_match (env : Env) (t : Z) (selector : string) : option Element :=
  match querySelectorAll env t None selector with
  | Matches els => hd_error els
  | SyntaxError _ => None
  end.

(** The elements under a selector at the instant [t], in document order;
    none when the page does not parse the selector. *)
Definition matches (env : Env) (t : Z) (root : option nat) (selector : string)
    : list Element :=
  match querySelectorAll env t root selector with
  | Matches els => els
  | SyntaxError _ => []
  end.

(** Whether [isFlowSignedVideoUrl] accepts a URL at the instant [t]. *)
Definition signed (env : Env) (t : Z) (url : string) : bool :=
  match fst (run env (FlowController.isFlowSignedVideoUrl url)
               {| clock := t; state := FlowController.initial; trace := [] |}) with
  | Value b => b
  | _ => false
  end.

(** [downloadButton.getAttribute('href') || downloadButton.getAttribute('data-url')] *)
Definition downloadUrl_of (downloadButton : Element) : option string :=
  match getAttribute downloadButton "href" with
  | Some h => if JS.truthy h then Some h else getAttribute downloadButton "data-url"
  | None => getAttribute downloadButton "data-url"
  end.

(** The page shows a generated video at the instant [t]: a [video] whose
    [currentSrc] or [src], or one of whose [source] children's [src], is a
    signed URL; or a link or an element with a [data-url] whose [href] or
    [data-url] is one; or a download button together with a video preview
    whose [currentSrc] or [src] is one, or whose own [href] or [data-url]
    is one. *)
Definition shows_video (env : Env) (t : Z) : bool :=
  existsb (fun video =>
             signed env t (currentSrc video) || signed env t (src video)
             || existsb (fun source => signed env t (src source))
                  (matches env t (Some (node video)) "source"))
    (matches env t None "video")
  || existsb (fun el =>
                signed env t (href el)
                || match getAttribute el "data-url" with
                   | Some dataUrl => signed env t dataUrl
                   | None => false
                   end)
       (matches env t None "a[href], a[download], button[data-url], [data-url]")
  || match hd_error (matches env t None GOOGLE_FLOW_SELECTORS.downloadButton) with
     | Some downloadButton =>
         match hd_error (matches env t None GOOGLE_FLOW_SELECTORS.videoPreview) with
         | Some videoElement =>
             signed env t (currentSrc videoElement) || signed env t (src videoElement)
         | None => false
         end
         || match downloadUrl_of downloadButton with
            | Some downloadUrl => signed env t downloadUrl
            | None => false
            end
     | None => false
     end.

(** The messages to the extension runtime in a trace. *)
Definition messages (tr : list (Z * Effect)) : list (Z * Effect) :=
  filter (fun e => negb (is_interaction (snd e))) tr.

Section Reporting.
Context {S : Type}.

(** A program that sends no message to the extension runtime. *)
Inductive Quiet {A : Type} : Prog S A -> Prop :=
| Quiet_Ret (a : A) : Quiet (Ret a)
| Quiet_Throw (msg : string) : Quiet (Throw msg)
| Quiet_OutOfFuel : Quiet OutOfFuel
| Quiet_Unload : Quiet Unload
| Quiet_DateNow (k : Z -> Prog S A) :
    (forall t, Quiet (k t)) -> Quiet (DateNow k)
| Quiet_Sleep (ms : Z) (k : Prog S A) :
    Quiet k -> Quiet (Sleep ms k)
| Quiet_MathRandom (n : N) (k : Z -> Prog S A) :
    (forall r, Quiet (k r)) -> Quiet (MathRandom n k)
| Quiet_QuerySelectorAll (root : option nat) (selector : string)
    (k : QueryResult -> Prog S A) :
    (forall r, Quiet (k r)) -> Quiet (QuerySelectorAll root selector k)
| Quiet_LocationHref (k : string -> Prog S A) :
    (forall u, Quiet (k u)) -> Quiet (LocationHref k)
| Quiet_NewURL (url : string) (k : option (string * string) -> Prog S A) :
    (forall r, Quiet (k r)) -> Quiet (NewURL url k)
| Quiet_ToISOString (t : Z) (k : string -> Prog S A) :
    (forall s, Quiet (k s)) -> Quiet (ToISOString t k)
| Quiet_Fetch (url : string) (k : FetchResult -> Prog S A) :
    (forall r, Quiet (k r)) -> Quiet (Fetch url k)
| Quiet_Do (e : Effect) (k : Prog S A) :
    is_interaction e = true -> Quiet k -> Quiet (Do e k)
| Quiet_GetState (k : S -> Prog S A) :
    (forall s, Quiet (k s)) -> Quiet (GetState k)
| Quiet_SetState (s : S) (k : Prog S A) :
    Quiet k -> Quiet (SetState s k).

(** The end [x] of a run that started with the messages [sent]: a run
    that returns [a] has sent one more message, [event a], as the last
    thing it did, and [a] satisfies [post] at that instant; a run that
    throws has sent nothing. *)
Definition reports {A : Type} (sent : list (Z * Effect)) (event : A -> Effect)
    (post : A -> Z -> Prop) (x : Result A * World S) : Prop :=
  match fst x with
  | Value a =>
      messages (trace (snd x)) = (sent ++ [(clock (snd x), event a)])%list /\
      post a (clock (snd x))
  | Error _ => messages (trace (snd x)) = sent
  | Diverged | Unloaded => True
  end.

End Reporting.

(** The values that the input [n] is given in a trace, in order. *)
Definition values_set (n : nat) (tr : list (Z * Effect)) : list string :=
  flat_map (fun e => match snd e with
                     | set_value m v => if (m =? n)%nat then [v] else []
                     | _ => []
                     end) tr.

(** The texts that an input holds while the characters [chars] are typed
    after [typed], one at a time. *)
Fixpoint prefixes_from (typed : string) (chars : list string) : list string :=
  match chars with
  | [] => []
  | c :: rest => (typed ++ c) :: prefixes_from (typed ++ c) rest
  end.

(** The node an effect on the page is aimed at. *)
Definition aimed_at (n : nat) (e : Effect) : bool :=
  match e with
  | scrollIntoView m | click m | focus m | set_value m _ | set_innerHTML m _
  | set_files m _ => (m =? n)%nat
  | dispatchEvent (Some m) _ => (m =? n)%nat
  | dispatchEvent None _ | set_location_href _ | sendMessage _ _ => false
  end.

(** *** Sample pages *)

(** A no-break space, U+00A0. *)
Definition nbsp : string := String (ascii_of_nat 194) (String (ascii_of_nat 160) "").

Definition plain (n : nat) : Element :=
  {| node := n; innerText := ""; textContent := None; src := ""; currentSrc := "";
     href := ""; disabled := false; classList := []; attributes := [] |}.

(** Timers on time, no randomness, a network that answers at once. *)
Definition page (dom : Z -> option nat -> string -> QueryResult) : Env :=
  {| querySelectorAll := dom;
     location_href := fun _ => "https://www.tiktok.com/upload";
     parseURL := fun _ _ => None;
     toISOString := fun _ => "2026-01-01T00:00:00.000Z";
     timerLag := fun _ => 0%N;
     random := fun _ _ => 0%N;
     fetch := fun _ _ => (Response true, 0%N) |}.

Definition emptyPage : Env := page (fun _ _ _ => Matches []).

(** An empty page of TikTok that is not the upload page. *)
Definition profilePage : Env :=
  {| querySelectorAll := fun _ _ _ => Matches [];
     location_href := fun _ => "https://www.tiktok.com/@shop";
     parseURL := fun _ _ => None;
     toISOString := fun _ => "2026-01-01T00:00:00.000Z";
     timerLag := fun _ => 0%N;
     random := fun _ _ => 0%N;
     fetch := fun _ _ => (Response true, 0%N) |}.

(** A page on which the generated video appears after four seconds. *)
Definition generatedVideo : Element :=
  {| node := 7; innerText := ""; textContent := None;
     src := "https://storage.googleapis.com/ai-sandbox-videofx/video/abc.mp4";
     currentSrc := ""; href := ""; disabled := false; classList := [];
     attributes := [] |}.

Definition videoPage : Env :=
  page (fun t root selector =>
          Matches (match root with
                   | None =>
                       if (selector =? "video") && (4000 <=? t)%Z then [generatedVideo]
                       else []
                   | Some _ => []
                   end)).

(** A page that shows an error banner from the start and never the sign
    of a finished upload. *)
Definition errorBanner : Element :=
  {| node := 9; innerText := "Video format not supported";
     textContent := Some "Video format not supported"; src := ""; currentSrc := "";
     href := ""; disabled := false; classList := ["toast-error"]; attributes := [] |}.

Definition uploadErrorPage : Env :=
  page (fun _ root selector =>
          match root with
          | None =>
              if selector =? TIKTOK_SELECTORS.errorMessage then Matches [errorBanner]
              else Matches []
          | Some _ => Matches []
          end).

(** A page with a prompt box, a duration menu with a 30-second entry and
    an aspect-ratio menu, and nothing else. *)
Definition option30 : Element :=
  {| node := 3; innerText := "30s"; textContent := Some "30s"; src := "";
     currentSrc := ""; href := ""; disabled := false; classList := [];
     attributes := [("data-duration", "30")] |}.

Definition settingsPage : Env :=
  page (fun _ root selector =>
          match root with
          | None =>
              if selector =? GOOGLE_FLOW_SELECTORS.promptInput then Matches [plain 1]
              else if selector =? GOOGLE_FLOW_SELECTORS.durationSelector then Matches [plain 2]
              else if selector =? "[data-duration]" then Matches [option30]
              else if selector =? GOOGLE_FLOW_SELECTORS.aspectRatioSelector then Matches [plain 4]
              else Matches []
          | Some _ => Matches []
          end).

(** A page with a prompt box and one button, which cancels, and nothing
    else.  The button is a match of every selector that ends in
    [button]. *)
Definition cancelButton : Element :=
  {| node := 5; innerText := "Cancel"; textContent := Some "Cancel"; src := "";
     currentSrc := ""; href := ""; disabled := false; classList := [];
     attributes := [("aria-label", "Cancel")] |}.

Definition cancelPage : Env :=
  page (fun _ root selector =>
          match root with
          | None =>
              if selector =? GOOGLE_FLOW_SELECTORS.promptInput then Matches [plain 1]
              else if (selector =? GOOGLE_FLOW_SELECTORS.cancelButton)
                      || (selector =? GOOGLE_FLOW_SELECTORS.generateButton)
                      || (selector =? "button")
              then Matches [cancelButton]
              else Matches []
          | Some _ => Matches []
          end).

Definition sampleRequest : FlowController.VideoCreationRequest :=
  {| FlowController.jobId := "job-1";
     FlowController.prompt := "Hi";
     FlowController.duration := 30;
     FlowController.aspectRatio := Types.ratio_9_16;
     FlowController.includeMusic := false;
     FlowController.includeVoiceover := false;
     FlowController.voiceSettings := None |}.

Definition sampleUpload : TikTokController.VideoUploadRequest :=
  {| TikTokController.jobId := "job-1";
     TikTokController.videoUrl := "https://example.com/video.mp4";
     TikTokController.caption := "Test";
     TikTokController.hashtags := ["review"];
     TikTokController.scheduledTime := None;
     TikTokController.visibility := None |}.

(** A fresh controller at the instant [t]. *)
Definition flowWorld (t : Z) : World FlowController.FlowControllerState :=
  {| clock := t; state := FlowController.initial; trace := [] |}.

Definition tiktokWorld (t : Z) : World TikTokController.TikTokControllerState :=
  {| clock := t; state := TikTokController.initial; trace := [] |}.

(** A controller in the middle of a command. *)
Definition busyFlowWorld : World FlowController.FlowControllerState :=
  {| clock := 5000;
     state := {| FlowController.isProcessing := true;
                 FlowController.currentJobId := Some "job-0";
                 FlowController.lastActionTime := 1000 |};
     trace := [(1000, click 1)] |}.

(** A controller that has clicked this very instant. *)
Definition justActed : World FlowController.FlowControllerState :=
  {| clock := 1000;
     state := {| FlowController.isProcessing := true;
                 FlowController.currentJobId := Some "job-0";
                 FlowController.lastActionTime := 1000 |};
     trace := [(1000, click 1)] |}.

Definition busyTikTokWorld : World TikTokController.TikTokControllerState :=
  {| clock := 5000;
     state := {| TikTokController.isUploading := true;
                 TikTokController.currentJobId := Some "job-0";
                 TikTokController.lastActionTime := 1000 |};
     trace := [(1000, click 1)] |}.

End Automation.

(** ** background/queue-processor.ts: [QueueProcessor]

    The processor lives in the service worker of the extension.  A method
    is a program over the calls it makes to the browser: the [jobs] entry
    of [chrome.storage.local], the tabs, the clock.  The browser answers
    each call, or rejects it.  One method runs at a time, up to its end; a
    [processJob] that is started without being awaited runs, like every
    [async] function, up to its first call to the browser, and is parked
    there. *)

Module QueueProcessor.

Record Processor := {
  isProcessing : bool;
  isPaused : bool;
  maxConcurrent : nat;
  activeJobs : list string
}.

Definition initial : Processor :=
  {| isProcessing := false; isPaused := false; maxConcurrent := 2; activeJobs := [] |}.

Definition set_isProcessing (b : bool) (p : Processor) : Processor :=
  {| isProcessing := b; isPaused := isPaused p;
     maxConcurrent := maxConcurrent p; activeJobs := activeJobs p |}.
Definition set_isPaused (b : bool) (p : Processor) : Processor :=
  {| isProcessing := isProcessing p; isPaused := b;
     maxConcurrent := maxConcurrent p; activeJobs := activeJobs p |}.
Definition set_activeJobs (a : list string) (p : Processor) : Processor :=
  {| isProcessing := isProcessing p; isPaused := isPaused p;
     maxConcurrent := maxConcurrent p; activeJobs := a |}.

(** A [Set<string>] in the order of insertion: [has], [add], [delete];
    its [size] is the [length]. *)
Definition has (s : list string) (x : string) : bool :=
  existsb (fun y => y =? x) s.
Definition add (s : list string) (x : string) : list string :=
  if has s x then s else (s ++ [x])%list.
Definition delete (s : list string) (x : string) : list string :=
  filter (fun y => negb (y =? x)) s.

(** What a method resolves to: [{ success, error? }]. *)
Record Reply := { success : bool; error : option string }.

(** A [chrome.tabs.Tab], as far as the processor looks at it. *)
Record Tab := { tab_id : option nat }.

Inductive TabMessage :=
| CREATE_VIDEO (payload : Automation.FlowController.VideoCreationRequest).

(** The answer to a call to the browser. *)
Inductive Answer (A : Type) : Type :=
| Resolved (a : A)
| Rejected (msg : string).
Arguments Resolved {A} a.
Arguments Rejected {A} msg.

(** A method of the processor, up to the first thing it needs. *)
Inductive Task (A : Type) : Type :=
| Done (a : A)
| Fail (msg : string)
| This (k : Processor -> Task A)
| SetThis (p : Processor) (k : Task A)
| Now (k : Z -> Task A)
| StorageGet (k : Answer (list Types.VideoJob) -> Task A)
| StorageSet (jobs : list Types.VideoJob) (k : Answer unit -> Task A)
| TabsQuery (url : string) (k : Answer (list Tab) -> Task A)
| TabsUpdate (tabId : option nat) (k : Answer unit -> Task A)
| TabsCreate (url : string) (k : Answer Tab -> Task A)
| TabsSendMessage (tabId : nat) (message : TabMessage) (k : Answer Reply -> Task A)
| Spawn (jobId : string) (k : Task A).
Arguments Done {A} a.
Arguments Fail {A} msg.
Arguments This {A} k.
Arguments SetThis {A} p k.
Arguments Now {A} k.
Arguments StorageGet {A} k.
Arguments StorageSet {A} jobs k.
Arguments TabsQuery {A} url k.
Arguments TabsUpdate {A} tabId k.
Arguments TabsCreate {A} url k.
Arguments TabsSendMessage {A} tabId message k.
Arguments Spawn {A} jobId k.

Fixpoint bind {A B} (p : Task A) (f : A -> Task B) : Task B :=
  match p with
  | Done a => f a
  | Fail msg => Fail msg
  | This k => This (fun t => bind (k t) f)
  | SetThis t k => SetThis t (bind k f)
  | Now k => Now (fun n => bind (k n) f)
  | StorageGet k => StorageGet (fun r => bind (k r) f)
  | StorageSet js k => StorageSet js (fun r => bind (k r) f)
  | TabsQuery url k => TabsQuery url (fun r => bind (k r) f)
  | TabsUpdate i k => TabsUpdate i (fun r => bind (k r) f)
  | TabsCreate url k => TabsCreate url (fun r => bind (k r) f)
  | TabsSendMessage i m k => TabsSendMessage i m (fun r => bind (k r) f)
  | Spawn j k => Spawn j (bind k f)
  end.

(** [try { p } catch (error) { h(error.message) }] *)
Fixpoint try_catch {A} (p : Task A) (h : string -> Task A) : Task A :=
  match p with
  | Done a => Done a
  | Fail msg => h msg
  | This k => This (fun t => try_catch (k t) h)
  | SetThis t k => SetThis t (try_catch k h)
  | Now k => Now (fun n => try_catch (k n) h)
  | StorageGet k => StorageGet (fun r => try_catch (k r) h)
  | StorageSet js k => StorageSet js (fun r => try_catch (k r) h)
  | TabsQuery url k => TabsQuery url (fun r => try_catch (k r) h)
  | TabsUpdate i k => TabsUpdate i (fun r => try_catch (k r) h)
  | TabsCreate url k => TabsCreate url (fun r => try_catch (k r) h)
  | TabsSendMessage i m k => TabsSendMessage i m (fun r => try_catch (k r) h)
  | Spawn j k => Spawn j (try_catch k h)
  end.

(** [try { p } finally { f }] *)
Fixpoint try_finally {A} (p : Task A) (f : Task unit) : Task A :=
  match p with
  | Done a => bind f (fun _ => Done a)
  | Fail msg => bind f (fun _ => Fail msg)
  | This k => This (fun t => try_finally (k t) f)
  | SetThis t k => SetThis t (try_finally k f)
  | Now k => Now (fun n => try_finally (k n) f)
  | StorageGet k => StorageGet (fun r => try_finally (k r) f)
  | StorageSet js k => StorageSet js (fun r => try_finally (k r) f)
  | TabsQuery url k => TabsQuery url (fun r => try_finally (k r) f)
  | TabsUpdate i k => TabsUpdate i (fun r => try_finally (k r) f)
  | TabsCreate url k => TabsCreate url (fun r => try_finally (k r) f)
  | TabsSendMessage i m k => TabsSendMessage i m (fun r => try_finally (k r) f)
  | Spawn j k => Spawn j (try_finally k f)
  end.

Declare Scope task_scope.
Delimit Scope task_scope with task.
Notation "x <- c1 ;; c2" := (bind c1 (fun x => c2))
  (at level 61, c1 at next level, right associativity) : task_scope.
Notation "c1 ;; c2" := (bind c1 (fun _ => c2))
  (at level 61, right associativity) : task_scope.
Local Open Scope task_scope.

(** [await] of a call: its value, or the error it was rejected with. *)
Definition awaited {A} (r : Answer A) : Task A :=
  match r with
  | Resolved a => Done a
  | Rejected msg => Fail msg
  end.

(** [this.f = v] *)
Definition assign (f : Processor -> Processor) : Task unit :=
  This (fun t => SetThis (f t) (Done tt)).

(** [(await chrome.storage.local.get('jobs')).jobs || []] *)
Definition storedJobs : Task (list Types.VideoJob) := StorageGet awaited.

Definition getJob (jobId : string) : Task (option Types.VideoJob) :=
  jobs <- storedJobs ;;
  Done (find (fun j => Types.id j =? jobId) jobs).

Definition getPendingJobs : Task (list Types.VideoJob) :=
  jobs <- storedJobs ;;
  Done (filter (fun j => Types.VideoStatus_eqb (Types.status j) Types.pending) jobs).

(** [jobs.findIndex(p)], with the element [jobs[jobIndex]] at the index
    found. *)
Fixpoint findIndex {A} (p : A -> bool) (l : list A) : option (nat * A) :=
  match l with
  | [] => None
  | x :: rest =>
      if p x then Some (O, x)
      else match findIndex p rest with
           | Some (n, y) => Some (Datatypes.S n, y)
           | None => None
           end
  end.

(** [jobs[n] = x], for an index inside the array. *)
Fixpoint assign_at {A} (n : nat) (x : A) (l : list A) : list A :=
  match l, n with
  | [], _ => []
  | _ :: rest, O => x :: rest
  | y :: rest, Datatypes.S n' => y :: assign_at n' x rest
  end.

Definition with_status (status' : Types.VideoStatus) (job : Types.VideoJob)
    : Types.VideoJob :=
  {| Types.id := Types.id job;
     Types.status := status';
     Types.progress := Types.progress job;
     Types.product := Types.product job;
     Types.prompt := Types.prompt job;
     Types.customPrompt := Types.customPrompt job;
     Types.settings := Types.settings job;
     Types.videoUrl := Types.videoUrl job;
     Types.thumbnailUrl := Types.thumbnailUrl job;
     Types.localPath := Types.localPath job;
     Types.flowJobId := Types.flowJobId job;
     Types.platforms := Types.platforms job;
     Types.scheduledAt := Types.scheduledAt job;
     Types.createdAt := Types.createdAt job;
     Types.updatedAt := Types.updatedAt job;
     Types.completedAt := Types.completedAt job;
     Types.error := Types.error job;
     Types.retryCount := Types.retryCount job |}.

(** The [data] of a call of [updateJobStatus] that passes none. *)
Definition no_data : Types.PartialVideoJob :=
  {| Types.u_id := None; Types.u_status := None; Types.u_progress := None;
     Types.u_product := None; Types.u_prompt := None; Types.u_customPrompt := None;
     Types.u_settings := None; Types.u_videoUrl := None; Types.u_thumbnailUrl := None;
     Types.u_localPath := None; Types.u_flowJobId := None; Types.u_platforms := None;
     Types.u_scheduledAt := None; Types.u_createdAt := None; Types.u_updatedAt := None;
     Types.u_completedAt := None; Types.u_error := None; Types.u_retryCount := None |}.

(** [{ error: errorMessage }] *)
Definition error_data (errorMessage : string) : Types.PartialVideoJob :=
  {| Types.u_id := None; Types.u_status := None; Types.u_progress := None;
     Types.u_product := None; Types.u_prompt := None; Types.u_customPrompt := None;
     Types.u_settings := None; Types.u_videoUrl := None; Types.u_thumbnailUrl := None;
     Types.u_localPath := None; Types.u_flowJobId := None; Types.u_platforms := None;
     Types.u_scheduledAt := None; Types.u_createdAt := None; Types.u_updatedAt := None;
     Types.u_completedAt := None; Types.u_error := Some (Some errorMessage);
     Types.u_retryCount := None |}.

(** [{ retryCount, error: null }] *)
Definition retry_data (retryCount' : Z) : Types.PartialVideoJob :=
  {| Types.u_id := None; Types.u_status := None; Types.u_progress := None;
     Types.u_product := None; Types.u_prompt := None; Types.u_customPrompt := None;
     Types.u_settings := None; Types.u_videoUrl := None; Types.u_thumbnailUrl := None;
     Types.u_localPath := None; Types.u_flowJobId := None; Types.u_platforms := None;
     Types.u_scheduledAt := None; Types.u_createdAt := None; Types.u_updatedAt := None;
     Types.u_completedAt := None; Types.u_error := Some None;
     Types.u_retryCount := Some retryCount' |}.

(** [updateJobStatus(jobId, status, data)]: the job at the first index
    with the id becomes [{ ...job, status, ...data, updatedAt: Date.now() }]
    and the array is written back; with no such index nothing is
    written. *)
Definition updateJobStatus (jobId : string) (status' : Types.VideoStatus)
    (data : Types.PartialVideoJob) : Task unit :=
  jobs <- storedJobs ;;
  match findIndex (fun j => Types.id j =? jobId) jobs with
  | Some (jobIndex, job) =>
      Now (fun now =>
        StorageSet
          (assign_at jobIndex (QueueStore.spread (with_status status' job) data now) jobs)
          awaited)
  | None => Done tt
  end.

Definition findOrCreateFlowTab : Task Tab :=
  tabs <- TabsQuery "*://flow.google.com/*" awaited ;;
  match tabs with
  | tab :: _ => TabsUpdate (tab_id tab) awaited ;; Done tab
  | [] => TabsCreate "https://flow.google.com/create" awaited
  end.

Definition sendToTab (tabId : nat) (message : TabMessage) : Task Reply :=
  TabsSendMessage tabId message awaited.

Definition duration_number (d : Types.VideoDuration) : Z :=
  match d with
  | Types.duration_15 => 15
  | Types.duration_30 => 30
  | Types.duration_60 => 60
  end.

(** The [payload] of the [CREATE_VIDEO] message for a job. *)
Definition payload_of (jobId : string) (job : Types.VideoJob)
    : Automation.FlowController.VideoCreationRequest :=
  {| Automation.FlowController.jobId := jobId;
     Automation.FlowController.prompt := Types.prompt job;
     Automation.FlowController.duration :=
       duration_number (Types.duration (Types.settings job));
     Automation.FlowController.aspectRatio := Types.aspectRatio (Types.settings job);
     Automation.FlowController.includeMusic := Types.includeMusic (Types.settings job);
     Automation.FlowController.includeVoiceover :=
       Types.includeVoiceover (Types.settings job);
     Automation.FlowController.voiceSettings := None |}.

(** The [try] block of [processJob]. *)
Definition handOver (jobId : string) : Task Reply :=
  assign (fun t => set_activeJobs (add (activeJobs t) jobId) t) ;;
  updateJobStatus jobId Types.processing no_data ;;
  job <- getJob jobId ;;
  match job with
  | None => Fail "Job not found"
  | Some job =>
      flowTab <- findOrCreateFlowTab ;;
      match tab_id flowTab with
      | Some (Datatypes.S n) =>
          sendToTab (Datatypes.S n) (CREATE_VIDEO (payload_of jobId job))
      | _ => Fail "Could not open Google Flow"
      end
  end.

Definition processJob (jobId : string) : Task Reply :=
  This (fun t =>
    if has (activeJobs t) jobId then
      Done {| success := false; error := Some "Job already processing" |}
    else if isPaused t then
      Done {| success := false; error := Some "Queue is paused" |}
    else
      try_finally
        (try_catch
           (handOver jobId)
           (fun errorMessage =>
              updateJobStatus jobId Types.failed (error_data errorMessage) ;;
              Done {| success := false; error := Some errorMessage |}))
        (assign (fun t => set_activeJobs (delete (activeJobs t) jobId) t))).

(** The loop of [processNextInQueue]; its [break] ends it. *)
Fixpoint dispatch (pendingJobs : list Types.VideoJob) : Task unit :=
  match pendingJobs with
  | [] => Done tt
  | job :: rest =>
      This (fun t =>
        if (maxConcurrent t <=? length (activeJobs t))%nat then Done tt
        else if negb (has (activeJobs t) (Types.id job)) then
          Spawn (Types.id job) (dispatch rest)
        else dispatch rest)
  end.

Definition processNextInQueue : Task unit :=
  This (fun t =>
    if isPaused t || (maxConcurrent t <=? length (activeJobs t))%nat then Done tt
    else
      pendingJobs <- getPendingJobs ;;
      dispatch pendingJobs).

Definition startBatchProcessing : Task Reply :=
  assign (set_isPaused false) ;;
  assign (set_isProcessing true) ;;
  processNextInQueue ;;
  Done {| success := true; error := None |}.

Definition pauseProcessing : Task Reply :=
  assign (set_isPaused true) ;;
  Done {| success := true; error := None |}.

Definition resumeProcessing : Task Reply :=
  assign (set_isPaused false) ;;
  processNextInQueue ;;
  Done {| success := true; error := None |}.

Definition cancelJob (jobId : string) : Task Reply :=
  updateJobStatus jobId Types.cancelled no_data ;;
  assign (fun t => set_activeJobs (delete (activeJobs t) jobId) t) ;;
  Done {| success := true; error := None |}.

Definition retryJob (jobId : string) : Task Reply :=
  job <- getJob jobId ;;
  match job with
  | None => Done {| success := false; error := None |}
  | Some job =>
      updateJobStatus jobId Types.pending (retry_data (Types.retryCount job + 1)) ;;
      processJob jobId
  end.

(** *** Running a method *)

(** What the browser answers to the [n]-th call made to it. *)
Record Chrome := {
  (** the error the call is rejected with, if it is *)
  rejects : nat -> option string;
  (** [Date.now()] *)
  now : nat -> Z;
  (** the tabs that match a URL pattern *)
  tabs_query : nat -> string -> list Tab;
  (** the tab that [chrome.tabs.create] opens *)
  tabs_create : nat -> string -> Tab;
  (** what the content script of a tab answers to a message *)
  tabs_reply : nat -> nat -> TabMessage -> Reply
}.

Record World := {
  this : Processor;
  (** the [jobs] entry of [chrome.storage.local] *)
  stored : list Types.VideoJob;
  (** the number of calls made to the browser *)
  calls : nat;
  (** the messages handed to [chrome.tabs.sendMessage], with the tab *)
  sent : list (nat * TabMessage);
  (** the methods that were started and wait for the browser *)
  parked : list (Task Reply)
}.

Definition with_this (t : Processor) (w : World) : World :=
  {| this := t; stored := stored w; calls := calls w; sent := sent w;
     parked := parked w |}.

Definition with_stored (js : list Types.VideoJob) (w : World) : World :=
  {| this := this w; stored := js; calls := calls w; sent := sent w;
     parked := parked w |}.

Definition with_sent (tabId : nat) (m : TabMessage) (w : World) : World :=
  {| this := this w; stored := stored w; calls := calls w;
     sent := (sent w ++ [(tabId, m)])%list; parked := parked w |}.

Definition park (p : Task Reply) (w : World) : World :=
  {| this := this w; stored := stored w; calls := calls w; sent := sent w;
     parked := (parked w ++ [p])%list |}.

Definition called (w : World) : World :=
  {| this := this w; stored := stored w; calls := Datatypes.S (calls w);
     sent := sent w; parked := parked w |}.

Definition answer {A} (c : Chrome) (w : World) (a : A) : Answer A :=
  match rejects c (calls w) with
  | Some msg => Rejected msg
  | None => Resolved a
  end.

(** An [async] method that is called runs up to its first call to the
    browser: [start] gives the processor as it is then, and the rest of
    the method.  ([processJob] starts no method itself.) *)
Fixpoint start {A} (instant : Z) (p : Task A) (t : Processor) : Processor * Task A :=
  match p with
  | This k => start instant (k t) t
  | SetThis t' k => start instant k t'
  | Now k => start instant (k instant) t
  | _ => (t, p)
  end.

(** [exec c started p w]: the method [p] run from [w] against the
    browser [c]; [started] is the method that [Spawn] starts. *)
Fixpoint exec (c : Chrome) (started : string -> Task Reply) {A} (p : Task A) (w : World)
    : outcome A * World :=
  match p with
  | Done a => (Returned a, w)
  | Fail msg => (Thrown msg, w)
  | This k => exec c started (k (this w)) w
  | SetThis t k => exec c started k (with_this t w)
  | Now k => exec c started (k (now c (calls w))) w
  | StorageGet k => exec c started (k (answer c w (stored w))) (called w)
  | StorageSet js k =>
      exec c started (k (answer c w tt))
        (called (match rejects c (calls w) with
                 | Some _ => w
                 | None => with_stored js w
                 end))
  | TabsQuery url k =>
      exec c started (k (answer c w (tabs_query c (calls w) url))) (called w)
  | TabsUpdate i k => exec c started (k (answer c w tt)) (called w)
  | TabsCreate url k =>
      exec c started (k (answer c w (tabs_create c (calls w) url))) (called w)
  | TabsSendMessage i m k =>
      exec c started (k (answer c w (tabs_reply c (calls w) i m)))
        (called (with_sent i m w))
  | Spawn jobId k =>
      let '(t, rest) := start (now c (calls w)) (started jobId) (this w) in
      exec c started k (park rest (with_this t w))
  end.

(** A method run by the processor itself. *)
Definition perform {A} (c : Chrome) (p : Task A) (w : World) : outcome A * World :=
  exec c processJob p w.

(** The parked methods run to their end, one after the other in the
    order in which they were parked. *)
Definition settle (c : Chrome) (w : World) : World :=
  fold_left (fun w1 p => snd (perform c p w1)) (parked w)
    {| this := this w; stored := stored w; calls := calls w; sent := sent w;
       parked := [] |}.

(** *** The vocabulary of the properties of the processor *)

(** What is left of [processJob] once it has taken its slot. *)
Definition handedOver (jobId : string) : Task Reply :=
  try_finally
    (try_catch
       (updateJobStatus jobId Types.processing no_data ;;
        job <- getJob jobId ;;
        match job with
        | None => Fail "Job not found"
        | Some job =>
            flowTab <- findOrCreateFlowTab ;;
            match tab_id flowTab with
            | Some (Datatypes.S n) =>
                sendToTab (Datatypes.S n) (CREATE_VIDEO (payload_of jobId job))
            | _ => Fail "Could not open Google Flow"
            end
        end)
       (fun errorMessage =>
          updateJobStatus jobId Types.failed (error_data errorMessage) ;;
          Done {| success := false; error := Some errorMessage |}))
    (assign (fun t => set_activeJobs (delete (activeJobs t) jobId) t)).

(** A method that neither assigns to a field of the processor nor starts
    another method. *)
Inductive Steady {A : Type} : Task A -> Prop :=
| Steady_Done (a : A) : Steady (Done a)
| Steady_Fail (msg : string) : Steady (Fail msg)
| Steady_This (k : Processor -> Task A) :
    (forall t, Steady (k t)) -> Steady (This k)
| Steady_Now (k : Z -> Task A) :
    (forall n, Steady (k n)) -> Steady (Now k)
| Steady_StorageGet (k : Answer (list Types.VideoJob) -> Task A) :
    (forall r, Steady (k r)) -> Steady (StorageGet k)
| Steady_StorageSet (js : list Types.VideoJob) (k : Answer unit -> Task A) :
    (forall r, Steady (k r)) -> Steady (StorageSet js k)
| Steady_TabsQuery (url : string) (k : Answer (list Tab) -> Task A) :
    (forall r, Steady (k r)) -> Steady (TabsQuery url k)
| Steady_TabsUpdate (i : option nat) (k : Answer unit -> Task A) :
    (forall r, Steady (k r)) -> Steady (TabsUpdate i k)
| Steady_TabsCreate (url : string) (k : Answer Tab -> Task A) :
    (forall r, Steady (k r)) -> Steady (TabsCreate url k)
| Steady_TabsSendMessage (i : nat) (m : TabMessage) (k : Answer Reply -> Task A) :
    (forall r, Steady (k r)) -> Steady (TabsSendMessage i m k).

(** A method that sends no message to a tab. *)
Inductive Mute {A : Type} : Task A -> Prop :=
| Mute_Done (a : A) : Mute (Done a)
| Mute_Fail (msg : string) : Mute (Fail msg)
| Mute_This (k : Processor -> Task A) :
    (forall t, Mute (k t)) -> Mute (This k)
| Mute_SetThis (t : Processor) (k : Task A) : Mute k -> Mute (SetThis t k)
| Mute_Now (k : Z -> Task A) :
    (forall n, Mute (k n)) -> Mute (Now k)
| Mute_StorageGet (k : Answer (list Types.VideoJob) -> Task A) :
    (forall r, Mute (k r)) -> Mute (StorageGet k)
| Mute_StorageSet (js : list Types.VideoJob) (k : Answer unit -> Task A) :
    (forall r, Mute (k r)) -> Mute (StorageSet js k)
| Mute_TabsQuery (url : string) (k : Answer (list Tab) -> Task A) :
    (forall r, Mute (k r)) -> Mute (TabsQuery url k)
| Mute_TabsUpdate (i : option nat) (k : Answer unit -> Task A) :
    (forall r, Mute (k r)) -> Mute (TabsUpdate i k)
| Mute_TabsCreate (url : string) (k : Answer Tab -> Task A) :
    (forall r, Mute (k r)) -> Mute (TabsCreate url k).

(** A browser that rejects no call. *)
Definition reliable (c : Chrome) : Prop := forall n, rejects c n = None.

(** A method that leaves a property of the stored jobs as it finds it. *)
Definition preserves (c : Chrome) (started : string -> Task Reply)
    (P : list Types.VideoJob -> Prop) {A} (p : Task A) : Prop :=
  forall w, P (stored w) -> P (stored (snd (exec c started p w))).

(** A method that writes nothing to the storage. *)
Inductive Reader {A : Type} : Task A -> Prop :=
| Reader_Done (a : A) : Reader (Done a)
| Reader_Fail (msg : string) : Reader (Fail msg)
| Reader_This (k : Processor -> Task A) :
    (forall t, Reader (k t)) -> Reader (This k)
| Reader_SetThis (t : Processor) (k : Task A) : Reader k -> Reader (SetThis t k)
| Reader_Now (k : Z -> Task A) :
    (forall n, Reader (k n)) -> Reader (Now k)
| Reader_StorageGet (k : Answer (list Types.VideoJob) -> Task A) :
    (forall r, Reader (k r)) -> Reader (StorageGet k)
| Reader_TabsQuery (url : string) (k : Answer (list Tab) -> Task A) :
    (forall r, Reader (k r)) -> Reader (TabsQuery url k)
| Reader_TabsUpdate (i : option nat) (k : Answer unit -> Task A) :
    (forall r, Reader (k r)) -> Reader (TabsUpdate i k)
| Reader_TabsCreate (url : string) (k : Answer Tab -> Task A) :
    (forall r, Reader (k r)) -> Reader (TabsCreate url k)
| Reader_TabsSendMessage (i : nat) (m : TabMessage) (k : Answer Reply -> Task A) :
    (forall r, Reader (k r)) -> Reader (TabsSendMessage i m k)
| Reader_Spawn (jobId : string) (k : Task A) : Reader k -> Reader (Spawn jobId k).

(** The ids that a [Set] holding [seen] takes in when the ids [ids] are
    added to it one after the other, in the order in which it takes them:
    each id once, and none that it holds already. *)
Fixpoint fresh_ids (seen ids : list string) : list string :=
  match ids with
  | [] => []
  | i :: rest =>
      if has seen i then fresh_ids seen rest
      else i :: fresh_ids (seen ++ [i])%list rest
  end.

(** The ids of the jobs that the storage holds as pending, in the order
    of the queue. *)
Definition pending_ids (w : World) : list string :=
  map Types.id
    (filter (fun j => Types.VideoStatus_eqb (Types.status j) Types.pending) (stored w)).

(** The job stored under an id: the first one, as [getJob] finds it. *)
Definition stored_job (jobId : string) (w : World) : option Types.VideoJob :=
  find (fun j => Types.id j =? jobId) (stored w).

(** *** Sample data *)

Definition sampleJob (i : string) (status' : Types.VideoStatus) (retries : Z)
    : Types.VideoJob :=
  {| Types.id := i;
     Types.status := status';
     Types.progress := 0;
     Types.product := QueueStore.sampleProduct;
     Types.prompt := "Test prompt";
     Types.customPrompt := None;
     Types.settings := QueueStore.sampleSettings;
     Types.videoUrl := None;
     Types.thumbnailUrl := None;
     Types.localPath := None;
     Types.flowJobId := None;
     Types.platforms := [Types.tiktok];
     Types.scheduledAt := None;
     Types.createdAt := 1;
     Types.updatedAt := 1;
     Types.completedAt := None;
     Types.error := None;
     Types.retryCount := retries |}.

(** A browser with one Flow tab, whose content script answers that the
    video was created; it rejects nothing. *)
Definition flowTabOpen : Chrome :=
  {| rejects := fun _ => None;
     now := fun n => Z.of_nat n;
     tabs_query := fun _ _ => [ {| tab_id := Some 7%nat |} ];
     tabs_create := fun _ _ => {| tab_id := Some 8%nat |};
     tabs_reply := fun _ _ _ => {| success := true; error := None |} |}.

(** Three jobs waiting in the storage, and an idle processor. *)
Definition threeWaiting : World :=
  {| this := initial;
     stored := [ sampleJob "job-1" Types.pending 0; sampleJob "job-2" Types.pending 0;
                 sampleJob "job-3" Types.pending 0 ];
     calls := 0;
     sent := [];
     parked := [] |}.

(** A processor with its two slots taken. *)
Definition twoActive : World :=
  {| this := set_activeJobs ["job-1"; "job-2"] initial;
     stored := [ sampleJob "job-1" Types.processing 0;
                 sampleJob "job-2" Types.processing 0;
                 sampleJob "job-3" Types.pending 0 ];
     calls := 0;
     sent := [];
     parked := [] |}.

(** A job that has failed three times already. *)
Definition failedThrice : World :=
  {| this := initial;
     stored := [ sampleJob "job-1" Types.failed 3 ];
     calls := 0;
     sent := [];
     parked := [] |}.

End QueueProcessor.

(** * Properties of the job store *)

Module QueueStoreFacts.
Import Constants Types QueueStore.

(** ** Lists of jobs under [map], [filter] and [find] *)

Lemma VideoStatus_eqb_eq (a b : VideoStatus) : VideoStatus_eqb a b = true <-> a = b.
Proof. destruct a, b; simpl; split; congruence. Qed.

Lemma VideoStatus_eqb_refl (a : VideoStatus) : VideoStatus_eqb a a = true.
Proof. now destruct a. Qed.

Lemma find_map_same_id (g : VideoJob -> VideoJob) (i : string) (l : list VideoJob) :
  (forall j, id (g j) = id j) ->
  find (fun j => id j =? i) (map g l) = option_map g (find (fun j => id j =? i) l).
Proof.
  intros Hg. induction l as [|j l IH]; simpl; [reflexivity|].
  rewrite Hg. destruct (id j =? i); [reflexivity | exact IH].
Qed.

Lemma nth_error_map_other (f : VideoJob -> VideoJob) (i : string) (l : list VideoJob) n j :
  nth_error l n = Some j -> id j <> i ->
  nth_error (map (fun job => if id job =? i then f job else job) l) n = Some j.
Proof.
  intros Hn Hne. rewrite nth_error_map, Hn. simpl.
  destruct (String.eqb_spec (id j) i); [contradiction | reflexivity].
Qed.

Lemma option_string_eqb_true (a : option string) (i : string) :
  option_string_eqb a i = true <-> a = Some i.
Proof.
  destruct a as [x|]; simpl.
  - rewrite String.eqb_eq. split; congruence.
  - split; discriminate.
Qed.

Lemma run_app (xs ys : list Action) (state : QueueState) :
  run (xs ++ ys) state = run ys (run xs state).
Proof. revert state. induction xs as [|a xs IH]; intros; simpl; auto. Qed.

Lemma guarded_run_app g (xs ys : list Action) (state : QueueState) :
  guarded_run g (xs ++ ys) state = true ->
  guarded_run g xs state = true /\ guarded_run g ys (run xs state) = true.
Proof.
  revert state. induction xs as [|a xs IH]; intros state H; simpl in *.
  - auto.
  - apply andb_prop in H as [Ha H]. rewrite Ha. simpl. auto.
Qed.

(** An invariant of single calls is an invariant of guarded sequences. *)
Lemma guarded_run_invariant (g : QueueState -> Action -> bool) (P : QueueState -> Prop) :
  (forall state a, P state -> g state a = true -> P (step a state)) ->
  forall acts state, P state -> guarded_run g acts state = true -> P (run acts state).
Proof.
  intros Hstep acts. induction acts as [|a acts IH]; intros state HP Hg; simpl in *.
  - exact HP.
  - apply andb_prop in Hg as [Ha Hg]. apply IH; auto.
Qed.

Lemma step_jobs_length (a : Action) (state : QueueState) :
  (length (jobs state) <= MAX_QUEUE_SIZE)%nat ->
  (length (jobs (step a state)) <= MAX_QUEUE_SIZE)%nat.
Proof.
  intros H. destruct a; unfold step; simpl;
    try (rewrite length_map; exact H);
    try (eapply Nat.le_trans; [apply filter_length_le | exact H]);
    try exact H.
  - unfold addJob.
    destruct (Nat.leb_spec MAX_QUEUE_SIZE (length (jobs state))); simpl; [exact H|].
    rewrite length_app. simpl. lia.
  - unfold MAX_QUEUE_SIZE. lia.
  - unfold retryJob. destruct (find _ _); [|exact H].
    destruct (_ <=? _)%Z; [exact H|]. simpl. rewrite length_map. exact H.
Qed.

(** The queue never grows beyond [MAX_QUEUE_SIZE]. *)
Lemma reachable_jobs_length (state : QueueState) :
  reachable state -> (length (jobs state) <= MAX_QUEUE_SIZE)%nat.
Proof.
  intros [acts ->].
  assert (G : forall l s, (length (jobs s) <= MAX_QUEUE_SIZE)%nat ->
                          (length (jobs (run l s)) <= MAX_QUEUE_SIZE)%nat).
  { induction l as [|a l IH]; intros s Hs; simpl; auto using step_jobs_length. }
  apply G. simpl. unfold MAX_QUEUE_SIZE. lia.
Qed.

(** ** The transition operations, one call at a time *)

(** C10.  Whatever the state and the id, [completeJob] and [failJob] clear
    [activeJobId] and [isProcessing], and [completeJob] adds one to
    [dailyCreated]; [cancelJob] clears the two exactly when the id is the
    active one; the three leave every job with another id as it was, at
    its place in the list. *)
Theorem complete_fail_cancel_frame (state : QueueState) (i : string) :
  (forall v t now,
      activeJobId (completeJob i v t now state) = None /\
      isProcessing (completeJob i v t now state) = false /\
      dailyCreated (completeJob i v t now state) = dailyCreated state + 1) /\
  (forall e now,
      activeJobId (failJob i e now state) = None /\
      isProcessing (failJob i e now state) = false) /\
  (forall now,
      (activeJobId state = Some i ->
         activeJobId (cancelJob i now state) = None /\
         isProcessing (cancelJob i now state) = false) /\
      (activeJobId state <> Some i ->
         activeJobId (cancelJob i now state) = activeJobId state /\
         isProcessing (cancelJob i now state) = isProcessing state)) /\
  (forall n j, nth_error (jobs state) n = Some j -> id j <> i ->
      (forall v t now, nth_error (jobs (completeJob i v t now state)) n = Some j) /\
      (forall e now, nth_error (jobs (failJob i e now state)) n = Some j) /\
      (forall now, nth_error (jobs (cancelJob i now state)) n = Some j)).
Proof.
  repeat split; try reflexivity.
  - simpl. apply option_string_eqb_true in H. now rewrite H.
  - simpl. apply option_string_eqb_true in H. now rewrite H.
  - simpl. destruct (option_string_eqb (activeJobId state) i) eqn:E; [|reflexivity].
    apply option_string_eqb_true in E. contradiction.
  - simpl. destruct (option_string_eqb (activeJobId state) i) eqn:E; [|reflexivity].
    apply option_string_eqb_true in E. contradiction.
  - intros. simpl. now apply nth_error_map_other.
  - intros. simpl. now apply nth_error_map_other.
  - intros. simpl. now apply nth_error_map_other.
Qed.

Lemma complete_fail_cancel_frame_witness :
  activeJobId (cancelJob "job-1" 9 (run threeThenOne initialState)) = Some "job-4" /\
  activeJobId (cancelJob "job-4" 9 (run threeThenOne initialState)) = None /\
  nth_error (jobs (failJob "job-4" "Upload timeout" 9 (run threeThenOne initialState))) 1
  = nth_error (jobs (run threeThenOne initialState)) 1.
Proof.
  destruct (complete_fail_cancel_frame (run threeThenOne initialState) "job-1")
    as (_ & _ & Hc1 & _).
  destruct (complete_fail_cancel_frame (run threeThenOne initialState) "job-4")
    as (_ & _ & Hc4 & Hf).
  split; [|split].
  - apply (Hc1 9). discriminate.
  - apply (Hc4 9). reflexivity.
  - destruct (nth_error (jobs (run threeThenOne initialState)) 1) as [j|] eqn:E;
      [|discriminate E].
    apply (Hf 1%nat j E).
    injection E as <-. discriminate.
Defined.

(** C4.  On a failed job that has used up its retries [retryJob] changes
    nothing at all; below the cap it puts the job back to pending with
    progress 0, no error and one more retry counted. *)
Theorem retryJob_capped (state : QueueState) (i : string) (now : Z) (j : VideoJob) :
  getJobById i state = Some j ->
  status j = failed ->
  (DEFAULT_RETRY_COUNT <= retryCount j -> retryJob i now state = state) /\
  (retryCount j < DEFAULT_RETRY_COUNT ->
     exists j',
       getJobById i (retryJob i now state) = Some j' /\
       status j' = pending /\ progress j' = 0 /\ error j' = None /\
       retryCount j' = retryCount j + 1 /\ id j' = id j).
Proof.
  unfold getJobById, retryJob. intros Hfind _. rewrite Hfind. split; intros Hc.
  - destruct (Z.leb_spec DEFAULT_RETRY_COUNT (retryCount j)); [reflexivity | lia].
  - destruct (Z.leb_spec DEFAULT_RETRY_COUNT (retryCount j)); [lia|].
    simpl jobs.
    rewrite (find_map_same_id _ i (jobs state))
      by (intros x; destruct (id x =? i); reflexivity).
    rewrite Hfind. simpl.
    apply find_some in Hfind as [_ Hid]. rewrite Hid.
    eexists. split; [reflexivity|]. simpl. auto.
Qed.

Lemma retryJob_capped_witness :
  retryJob "job-1" 9 (updateJob "job-1"
     {| u_id := None; u_status := None; u_progress := None; u_product := None;
        u_prompt := None; u_customPrompt := None; u_settings := None;
        u_videoUrl := None; u_thumbnailUrl := None; u_localPath := None;
        u_flowJobId := None; u_platforms := None; u_scheduledAt := None;
        u_createdAt := None; u_updatedAt := None; u_completedAt := None;
        u_error := None; u_retryCount := Some 3 |} 4 (run failedOnce initialState))
  = updateJob "job-1"
     {| u_id := None; u_status := None; u_progress := None; u_product := None;
        u_prompt := None; u_customPrompt := None; u_settings := None;
        u_videoUrl := None; u_thumbnailUrl := None; u_localPath := None;
        u_flowJobId := None; u_platforms := None; u_scheduledAt := None;
        u_createdAt := None; u_updatedAt := None; u_completedAt := None;
        u_error := None; u_retryCount := Some 3 |} 4 (run failedOnce initialState).
Proof.
  eapply retryJob_capped.
  - reflexivity.
  - reflexivity.
  - simpl. unfold DEFAULT_RETRY_COUNT. lia.
Defined.





(** C1, as the specification states it, fails: the store cancels a job
    that is already completed, without any error. *)
Lemma cancel_of_completed_job_not_rejected :
  (exists j, getJobById "job-1" (run completedOnce initialState) = Some j /\
             status j = completed) /\
  listed completed t_cancel = false /\
  ~ rejected (CancelJob "job-1" 9) (run completedOnce initialState) /\
  (exists j', getJobById "job-1" (step (CancelJob "job-1" 9) (run completedOnce initialState))
              = Some j' /\ status j' = cancelled).
Proof.
  split; [|split; [|split]].
  - eexists. split; reflexivity.
  - reflexivity.
  - intros [msg H]. discriminate H.
  - eexists. split; reflexivity.
Qed.

(** C1, amended.  No transition operation looks at the status of the job
    or throws.  [startJob], [completeJob], [failJob] and [cancelJob] write
    their status on the job with the given id whatever its status was;
    [retryJob] does so too unless the job has used up its retries, and
    then it leaves the whole state as it was. *)
Theorem transitions_are_unguarded (a : Action) (t : Transition) (i : string)
    (state : QueueState) (j : VideoJob) :
  transition_of a = Some (t, i) ->
  getJobById i state = Some j ->
  snd (call a state) = None /\
  (t <> t_retry \/ retryCount j < DEFAULT_RETRY_COUNT ->
     exists j', getJobById i (step a state) = Some j' /\ status j' = target t) /\
  (t = t_retry -> DEFAULT_RETRY_COUNT <= retryCount j -> step a state = state).
Proof.
  intros Ht Hfind. unfold getJobById in *.
  assert (Hid : (id j =? i) = true) by (apply find_some in Hfind; tauto).
  destruct a; simpl in Ht; try discriminate; injection Ht as <- <-;
    (split; [reflexivity|]); (split; [intros Hc | intros Hr Hc; try discriminate Hr]);
    unfold step; simpl.
  - rewrite (find_map_same_id _ i0 (jobs state))
      by (intros x; destruct (id x =? i0); reflexivity).
    rewrite Hfind. simpl. rewrite Hid. eexists. split; reflexivity.
  - rewrite (find_map_same_id _ i0 (jobs state))
      by (intros x; destruct (id x =? i0); reflexivity).
    rewrite Hfind. simpl. rewrite Hid. eexists. split; reflexivity.
  - rewrite (find_map_same_id _ i0 (jobs state))
      by (intros x; destruct (id x =? i0); reflexivity).
    rewrite Hfind. simpl. rewrite Hid. eexists. split; reflexivity.
  - destruct Hc as [Hc | Hc]; [congruence|].
    unfold retryJob. rewrite Hfind.
    destruct (Z.leb_spec DEFAULT_RETRY_COUNT (retryCount j)); [lia|].
    simpl jobs.
    rewrite (find_map_same_id _ i0 (jobs state))
      by (intros x; destruct (id x =? i0); reflexivity).
    rewrite Hfind. simpl. rewrite Hid. eexists. split; reflexivity.
  - unfold retryJob. rewrite Hfind.
    destruct (Z.leb_spec DEFAULT_RETRY_COUNT (retryCount j)); [reflexivity | lia].
  - rewrite (find_map_same_id _ i0 (jobs state))
      by (intros x; destruct (id x =? i0); reflexivity).
    rewrite Hfind. simpl. rewrite Hid. eexists. split; reflexivity.
Qed.

Lemma transitions_are_unguarded_witness :
  exists j', getJobById "job-1" (step (StartJob "job-1" 9) (run completedOnce initialState))
             = Some j' /\ status j' = processing.
Proof.
  destruct (getJobById "job-1" (run completedOnce initialState)) as [j|] eqn:E;
    [|discriminate E].
  apply (transitions_are_unguarded (StartJob "job-1" 9) t_start "job-1"
           (run completedOnce initialState) j eq_refl E).
  left. discriminate.
Defined.

(** ** Sequences of calls *)

Lemma all_with_id_spec (i : string) (p : VideoJob -> bool) (state : QueueState) :
  all_with_id i p state = true ->
  forall j, In j (jobs state) -> id j = i -> p j = true.
Proof.
  unfold all_with_id. intros H j Hj Hid.
  apply (proj1 (forallb_forall _ _) H) in Hj. rewrite Hid, String.eqb_refl in Hj.
  exact Hj.
Qed.

Lemma is_none_true {A} (o : option A) : is_none o = true -> o = None.
Proof. destruct o; [discriminate | reflexivity]. Qed.

Lemma Forall_filter_keep {A} (P : A -> Prop) (f : A -> bool) (l : list A) :
  Forall P l -> Forall P (filter f l).
Proof.
  rewrite !Forall_forall. intros H x Hx. apply filter_In in Hx. apply H, Hx.
Qed.

(** A conditional update keeps a per-job property when the update keeps it
    on the jobs it rewrites. *)
Lemma Forall_map_update (P Q : VideoJob -> Prop) (f : VideoJob -> VideoJob)
    (i : string) (l : list VideoJob) :
  Forall P l ->
  (forall j, In j l -> id j = i -> Q j) ->
  (forall j, P j -> Q j -> P (f j)) ->
  Forall P (map (fun job => if id job =? i then f job else job) l).
Proof.
  intros HP HQ Hf. apply Forall_forall. intros x Hx.
  apply in_map_iff in Hx as (j & <- & Hj).
  pose proof (proj1 (Forall_forall _ _) HP j Hj) as Hpj.
  destruct (String.eqb_spec (id j) i); [|exact Hpj].
  apply Hf; auto.
Qed.

Lemma is_some_true {A} (o : option A) : is_some o = true <-> o <> None.
Proof. destruct o; simpl; split; congruence. Qed.

Lemma bool_eq_iff (a b : bool) (P Q : Prop) :
  (a = true <-> P) -> (b = true <-> Q) -> (Bool.eqb a b = true <-> (P <-> Q)).
Proof. destruct a, b; simpl; intuition congruence. Qed.

Lemma outcome_consistent_spec (j : VideoJob) :
  outcome_consistent j = true <->
  (videoUrl j <> None <-> status j = completed) /\
  (error j <> None <-> status j = failed).
Proof.
  unfold outcome_consistent. rewrite andb_true_iff.
  rewrite (bool_eq_iff _ _ _ _ (is_some_true (videoUrl j))
             (VideoStatus_eqb_eq (status j) completed)).
  rewrite (bool_eq_iff _ _ _ _ (is_some_true (error j))
             (VideoStatus_eqb_eq (status j) failed)).
  reflexivity.
Qed.

(** One guarded call keeps the outcome fields in step with the status. *)
Lemma lifecycle_step (state : QueueState) (a : Action) :
  Forall (fun j => outcome_consistent j = true) (jobs state) ->
  lifecycle_guard state a = true ->
  Forall (fun j => outcome_consistent j = true) (jobs (step a state)).
Proof.
  intros Hinv Hg.
  destruct a; unfold step; simpl in *;
    try exact Hinv;
    try (apply Forall_filter_keep; exact Hinv);
    try (eapply Forall_map_update;
         [ exact Hinv
         | apply (all_with_id_spec _ _ _ Hg)
         | cbv beta; unfold outcome_consistent; simpl; intros j H1 H2;
           destruct (status j), (videoUrl j), (error j);
           simpl in *; try discriminate; reflexivity ]).
  - unfold addJob. destruct (_ <=? _)%nat; simpl; [exact Hinv|].
    apply Forall_app. split; [exact Hinv|]. repeat constructor.
  - apply andb_prop in Hg as [Hg He]. apply andb_prop in Hg as [Hs Hv].
    apply is_none_true in Hs, Hv, He.
    eapply Forall_map_update with (Q := fun _ => True); [exact Hinv | auto |].
    intros j Hj _. unfold outcome_consistent, spread in *. simpl.
    rewrite Hs, Hv, He. exact Hj.
  - constructor.
  - unfold retryJob. destruct (find _ _); [|exact Hinv].
    destruct (_ <=? _)%Z; [exact Hinv|]. simpl.
    eapply Forall_map_update;
      [ exact Hinv
      | apply (all_with_id_spec _ _ _ Hg)
      | cbv beta; unfold outcome_consistent; simpl; intros j H1 H2;
        destruct (status j), (videoUrl j), (error j);
        simpl in *; try discriminate; reflexivity ].
  - eapply Forall_map_update with (Q := fun _ => True); [exact Hinv | auto |].
    intros j Hj _. exact Hj.
  - eapply Forall_map_update with (Q := fun _ => True); [exact Hinv | auto |].
    intros j Hj _. exact Hj.
Qed.

(** C2, as the specification states it, fails: a job that completes and is
    then reported failed carries both a video URL and an error. *)
Lemma completed_then_failed_has_both :
  exists j,
    getJobById "job-1" (run completedThenFailed initialState) = Some j /\
    status j = failed /\
    videoUrl j = Some "https://example.com/video.mp4" /\
    error j = Some "Video generation timed out" /\
    outcome_consistent j = false.
Proof. eexists. repeat split. Qed.

(** C2, amended.  Along every sequence of calls that follows the state
    machine, a job carries a video URL exactly when it is completed and an
    error exactly when it is failed, so never both; a pending, processing
    or cancelled job carries neither. *)
Theorem outcome_matches_status (acts : list Action) (j : VideoJob) :
  guarded_run lifecycle_guard acts initialState = true ->
  In j (jobs (run acts initialState)) ->
  (videoUrl j <> None <-> status j = completed) /\
  (error j <> None <-> status j = failed) /\
  ~ (videoUrl j <> None /\ error j <> None).
Proof.
  intros Hg Hj.
  assert (H : Forall (fun j => outcome_consistent j = true)
                     (jobs (run acts initialState))).
  { apply (guarded_run_invariant lifecycle_guard
             (fun s => Forall (fun j => outcome_consistent j = true) (jobs s)));
      [apply lifecycle_step | constructor | exact Hg]. }
  apply (proj1 (Forall_forall _ _) H) in Hj.
  apply outcome_consistent_spec in Hj as [[H1 H2] [H3 H4]].
  repeat split; auto.
  intros [Hv He]. apply H1 in Hv. apply H3 in He. congruence.
Qed.

Lemma outcome_matches_status_witness :
  exists j, In j (jobs (run completedOnce initialState)) /\
  (videoUrl j <> None <-> status j = completed) /\
  (error j <> None <-> status j = failed) /\
  ~ (videoUrl j <> None /\ error j <> None).
Proof.
  eexists. split; [left; reflexivity|].
  apply (outcome_matches_status completedOnce); [reflexivity | left; reflexivity].
Defined.

(** ** Unique ids *)

Lemma map_id_update (g : VideoJob -> VideoJob) (l : list VideoJob) :
  (forall j, id (g j) = id j) -> map id (map g l) = map id l.
Proof.
  intros Hg. rewrite map_map. apply map_ext. exact Hg.
Qed.

Lemma NoDup_ids_filter (f : VideoJob -> bool) (l : list VideoJob) :
  NoDup (map id l) -> NoDup (map id (filter f l)).
Proof.
  induction l as [|j l IH]; simpl; intros H; [constructor|].
  inversion H as [|? ? Hn Hd]; subst.
  destruct (f j); simpl; auto.
  constructor; auto.
  intros Hin. apply Hn. apply in_map_iff in Hin as (x & Hx & Hin).
  apply filter_In in Hin. apply in_map_iff. exists x. tauto.
Qed.

Lemma fresh_spec (i : string) (state : QueueState) :
  fresh i state = true -> ~ In i (map id (jobs state)).
Proof.
  unfold fresh. intros H Hin. apply negb_true_iff in H.
  apply in_map_iff in Hin as (j & Hid & Hj).
  assert (E : existsb (fun j => id j =? i) (jobs state) = true).
  { apply existsb_exists. exists j. split; [exact Hj|]. now apply String.eqb_eq. }
  congruence.
Qed.

Lemma NoDup_ids_inj (l : list VideoJob) (a b : VideoJob) :
  NoDup (map id l) -> In a l -> In b l -> id a = id b -> a = b.
Proof.
  induction l as [|j l IH]; simpl; intros H Ha Hb E; [contradiction|].
  inversion H as [|? ? Hn Hd]; subst.
  destruct Ha as [<-|Ha], Hb as [<-|Hb]; auto.
  - exfalso. apply Hn. rewrite E. now apply in_map.
  - exfalso. apply Hn. rewrite <- E. now apply in_map.
Qed.

(** The ids stay unique as long as [generateId] draws fresh ones and
    [updateJob] rewrites none. *)
Lemma unique_ids_step (state : QueueState) (a : Action) :
  NoDup (map id (jobs state)) ->
  (forall p gid now, a = AddJob p gid now -> fresh gid state = true) ->
  (forall i u now, a = UpdateJob i u now -> u_id u = None) ->
  NoDup (map id (jobs (step a state))).
Proof.
  intros H Hadd Hupd.
  destruct a; unfold step; simpl;
    try exact H;
    try (apply NoDup_ids_filter; exact H);
    try (rewrite map_id_update;
         [exact H | intros x; destruct (id x =? i); reflexivity]).
  - unfold addJob. destruct (_ <=? _)%nat; simpl; [exact H|].
    rewrite map_app. simpl.
    apply NoDup_app; [exact H | repeat constructor; auto | ].
    intros x Hx [<-|[]]. revert Hx. apply fresh_spec. eapply Hadd. reflexivity.
  - rewrite map_id_update; [exact H|].
    intros x. destruct (id x =? i); [|reflexivity].
    unfold spread. simpl. rewrite (Hupd _ _ _ eq_refl). reflexivity.
  - constructor.
  - unfold retryJob. destruct (find _ _); [|exact H].
    destruct (_ <=? _)%Z; [exact H|]. simpl.
    rewrite map_id_update; [exact H | intros x; destruct (id x =? i); reflexivity].
Qed.

(** ** Counting the jobs in flight *)

Lemma map_update_absent (f : VideoJob -> VideoJob) (i : string) (l : list VideoJob) :
  ~ In i (map id l) ->
  map (fun job => if id job =? i then f job else job) l = l.
Proof.
  induction l as [|j l IH]; simpl; intros H; [reflexivity|].
  destruct (String.eqb_spec (id j) i); [exfalso; auto|].
  f_equal. apply IH. tauto.
Qed.

Lemma count_status_cons (st : VideoStatus) (j : VideoJob) (l : list VideoJob) :
  count_status st (j :: l)
  = ((if VideoStatus_eqb (status j) st then 1 else 0) + count_status st l)%nat.
Proof. unfold count_status. simpl. now destruct (VideoStatus_eqb _ _). Qed.

Lemma count_update_unique (st : VideoStatus) (f : VideoJob -> VideoJob) (i : string)
    (l : list VideoJob) :
  NoDup (map id l) ->
  (count_status st (map (fun job => if (id job =? i)%string then f job else job) l)
   <= S (count_status st l))%nat.
Proof.
  induction l as [|j l IH]; simpl map; intros H; [unfold count_status; simpl; lia|].
  inversion H as [|? ? Hn Hd]; subst.
  rewrite !count_status_cons.
  destruct (String.eqb_spec (id j) i) as [E|E].
  - rewrite map_update_absent by (rewrite <- E; exact Hn).
    destruct (VideoStatus_eqb _ _), (VideoStatus_eqb _ _); lia.
  - specialize (IH Hd). lia.
Qed.

Lemma count_update_leaves (st : VideoStatus) (f : VideoJob -> VideoJob) (i : string)
    (l : list VideoJob) :
  (forall j, VideoStatus_eqb (status (f j)) st = false) ->
  (count_status st (map (fun job => if (id job =? i)%string then f job else job) l)
   <= count_status st l)%nat.
Proof.
  intros Hf. induction l as [|j l IH]; simpl map; [lia|].
  rewrite !count_status_cons.
  destruct (id j =? i); [rewrite Hf|]; destruct (VideoStatus_eqb _ _); lia.
Qed.

Lemma count_map_same_status (st : VideoStatus) (g : VideoJob -> VideoJob)
    (l : list VideoJob) :
  (forall j, status (g j) = status j) ->
  count_status st (map g l) = count_status st l.
Proof.
  intros Hg. induction l as [|j l IH]; simpl map; [reflexivity|].
  rewrite !count_status_cons, Hg, IH. reflexivity.
Qed.

Lemma count_filter_le (st : VideoStatus) (f : VideoJob -> bool) (l : list VideoJob) :
  (count_status st (filter f l) <= count_status st l)%nat.
Proof.
  induction l as [|j l IH]; simpl filter; [lia|].
  destruct (f j); rewrite ?count_status_cons; lia.
Qed.

Lemma count_app (st : VideoStatus) (l1 l2 : list VideoJob) :
  count_status st (l1 ++ l2) = (count_status st l1 + count_status st l2)%nat.
Proof.
  unfold count_status. now rewrite filter_app, length_app.
Qed.

(** One call under the concurrency guard: at most one job more in flight,
    and only through [startJob]. *)
Lemma concurrency_step (state : QueueState) (a : Action) :
  NoDup (map id (jobs state)) /\ (processing_count state <= MAX_CONCURRENT_JOBS)%nat ->
  concurrency_guard state a = true ->
  NoDup (map id (jobs (step a state))) /\
  (processing_count (step a state) <= MAX_CONCURRENT_JOBS)%nat.
Proof.
  intros [Hd Hc] Hg. split.
  - apply unique_ids_step; [exact Hd | |].
    + intros p gid now ->. exact Hg.
    + intros i u now ->. simpl in Hg. apply andb_prop in Hg as [Hg _].
      now apply is_none_true.
  - unfold processing_count in *.
    destruct a; unfold step; simpl in *;
      try exact Hc;
      try (eapply Nat.le_trans; [apply count_filter_le | exact Hc]);
      try (eapply Nat.le_trans; [apply count_update_leaves; reflexivity | exact Hc]);
      try (rewrite count_map_same_status;
           [exact Hc | intros x; destruct (id x =? i); reflexivity]).
    + unfold addJob. destruct (_ <=? _)%nat; simpl; [exact Hc|].
      rewrite count_app. unfold count_status at 2. simpl. lia.
    + apply andb_prop in Hg as [_ Hs]. apply is_none_true in Hs.
      rewrite count_map_same_status; [exact Hc|].
      intros x. destruct (id x =? i); [|reflexivity].
      unfold spread. simpl. now rewrite Hs.
    + unfold count_status. simpl. lia.
    + apply Nat.ltb_lt in Hg. unfold processing_count in Hg.
      eapply Nat.le_trans; [apply count_update_unique; exact Hd | lia].
    + unfold retryJob. destruct (find _ _); [|exact Hc].
      destruct (_ <=? _)%Z; [exact Hc|]. simpl.
      eapply Nat.le_trans; [apply count_update_leaves; reflexivity | exact Hc].
Qed.

(** C3, as the specification states it, fails: the store starts a fourth
    job while three are processing. *)
Lemma four_jobs_in_flight :
  processing_count (run fourStarted initialState) = 4%nat /\
  (MAX_CONCURRENT_JOBS < processing_count (run fourStarted initialState))%nat.
Proof. split; [reflexivity | vm_compute; lia]. Qed.

(** C3, amended.  The store sets no limit of its own.  Along every
    sequence of calls in which [startJob] is asked for only while fewer
    than [MAX_CONCURRENT_JOBS] jobs are processing (ids being unique), the
    number of processing jobs never exceeds [MAX_CONCURRENT_JOBS]. *)
Theorem in_flight_bounded (acts : list Action) :
  guarded_run concurrency_guard acts initialState = true ->
  (processing_count (run acts initialState) <= MAX_CONCURRENT_JOBS)%nat.
Proof.
  intros Hg.
  apply (guarded_run_invariant concurrency_guard
           (fun s => NoDup (map id (jobs s)) /\
                     (processing_count s <= MAX_CONCURRENT_JOBS)%nat)
           concurrency_step acts initialState); [|exact Hg].
  split; [constructor | vm_compute; lia].
Qed.

Lemma in_flight_bounded_witness :
  (processing_count (run threeThenOne initialState) <= MAX_CONCURRENT_JOBS)%nat.
Proof. apply (in_flight_bounded threeThenOne). reflexivity. Defined.

(** ** Progress of a job in flight *)

Lemma updated_job (f : VideoJob -> VideoJob) (i0 : string) (l : list VideoJob)
    (j j' : VideoJob) :
  In j' (map (fun job => if id job =? i0 then f job else job) l) ->
  NoDup (map id l) ->
  In j l ->
  id j' = id j ->
  (forall x, id (f x) = id x) ->
  j' = if id j =? i0 then f j else j.
Proof.
  intros Hj' Hd Hj E Hf. apply in_map_iff in Hj' as (x & <- & Hx).
  assert (x = j); [|subst; reflexivity].
  apply (NoDup_ids_inj l); auto. rewrite <- E.
  destruct (id x =? i0); [rewrite Hf|]; reflexivity.
Qed.

Ltac same_job Hd :=
  match goal with
  | Hj : In ?j (jobs ?s), Hj' : In ?j' (jobs ?s), E : id ?j' = id ?j |- _ =>
      let X := fresh in
      assert (X : j' = j) by (apply (NoDup_ids_inj (jobs s)); auto);
      rewrite X; apply Z.le_refl
  end.

Ltac updated_job_cases Hd Hj Hj' E :=
  match type of Hj' with
  | In ?j' (map (fun job => if id job =? ?i0 then @?f job else job) ?l) =>
      let H := fresh in
      let Hn := fresh in
      enough (H : forall x, id (f x) = id x);
      [ pose proof (updated_job f i0 l _ j' Hj' Hd Hj E H) as Hn;
        clear Hj' H; rename Hn into Hj'
      | try (intros; reflexivity) ]
  end.

Lemma progress_step_range (state : QueueState) (a : Action) :
  Forall progress_in_range (jobs state) ->
  progress_guard state a = true ->
  Forall progress_in_range (jobs (step a state)).
Proof.
  intros Hinv Hg. unfold progress_in_range in *.
  destruct a; unfold step; simpl in *;
    try exact Hinv;
    try (apply Forall_filter_keep; exact Hinv);
    try solve [ eapply Forall_map_update with (Q := fun _ => True);
                [ exact Hinv | auto
                | cbv beta; simpl; intros j H1 _ H2;
                  first [discriminate H2 | lia | exact (H1 H2)] ] ].
  - unfold addJob. destruct (_ <=? _)%nat; simpl; [exact Hinv|].
    apply Forall_app. split; [exact Hinv|]. repeat constructor; simpl in *; discriminate.
  - apply andb_prop in Hg as [Hg Hp]. apply andb_prop in Hg as [_ Hs].
    apply is_none_true in Hs, Hp.
    eapply Forall_map_update with (Q := fun _ => True); [exact Hinv | auto |].
    intros j Hj _. unfold spread. simpl. rewrite Hs, Hp. exact Hj.
  - constructor.
  - unfold retryJob. destruct (find _ _); [|exact Hinv].
    destruct (_ <=? _)%Z; [exact Hinv|]. simpl.
    eapply Forall_map_update with (Q := fun _ => True);
      [ exact Hinv | auto | cbv beta; simpl; intros j H1 _ H2; discriminate H2 ].
  - eapply Forall_map_update; [exact Hinv | apply (all_with_id_spec _ _ _ Hg) |].
    cbv beta. simpl. intros j H1 H2 H3.
    apply VideoStatus_eqb_eq in H3 as H4. rewrite H4 in H2. simpl in H2.
    apply andb_prop in H2 as [Ha Hb].
    apply Z.leb_le in Ha, Hb. specialize (H1 H3). lia.
Qed.

Lemma progress_step_monotone (state : QueueState) (a : Action) (i : string) :
  NoDup (map id (jobs state)) ->
  progress_guard state a = true ->
  is_processing i state = true ->
  is_processing i (step a state) = true ->
  progress_of i state <= progress_of i (step a state).
Proof.
  intros Hd Hg Hp Hp'.
  unfold is_processing, progress_of, getJobById in *.
  destruct (find _ (jobs state)) as [j|] eqn:Ej; [|discriminate].
  destruct (find _ (jobs (step a state))) as [j'|] eqn:Ej'; [|discriminate].
  apply find_some in Ej as [Hj Hij]. apply find_some in Ej' as [Hj' Hij'].
  apply String.eqb_eq in Hij, Hij'. apply VideoStatus_eqb_eq in Hp, Hp'.
  assert (E : id j' = id j) by congruence.
  destruct a; unfold step in *; simpl in *;
    try same_job Hd;
    try (apply filter_In in Hj' as [Hj' _]; same_job Hd).
  - unfold addJob in Hj'. destruct (_ <=? _)%nat; simpl in Hj'; [same_job Hd|].
    apply in_app_or in Hj' as [Hj'|[<-|[]]]; [same_job Hd | discriminate Hp'].
  - apply andb_prop in Hg as [Hg Hu]. apply andb_prop in Hg as [Hi _].
    apply is_none_true in Hu, Hi.
    updated_job_cases Hd Hj Hj' E.
    + destruct (id j =? i0); subst j'; [|apply Z.le_refl].
      unfold spread. simpl. rewrite Hu. apply Z.le_refl.
    + intros x. unfold spread. simpl. now rewrite Hi.
  - destruct Hj'.
  - updated_job_cases Hd Hj Hj' E.
    destruct (String.eqb_spec (id j) i0) as [Ei|Ei]; subst j'; [|apply Z.le_refl].
    apply (all_with_id_spec _ _ _ Hg) in Hj; [|exact Ei].
    rewrite Hp in Hj. discriminate Hj.
  - updated_job_cases Hd Hj Hj' E.
    destruct (id j =? i0); subst j'; [discriminate Hp' | apply Z.le_refl].
  - updated_job_cases Hd Hj Hj' E.
    destruct (id j =? i0); subst j'; [discriminate Hp' | apply Z.le_refl].
  - unfold retryJob in Hj'. destruct (find _ _); [|same_job Hd].
    destruct (_ <=? _)%Z; [same_job Hd|]. simpl in Hj'.
    updated_job_cases Hd Hj Hj' E.
    destruct (id j =? i0); subst j'; [discriminate Hp' | apply Z.le_refl].
  - updated_job_cases Hd Hj Hj' E.
    destruct (id j =? i0); subst j'; [discriminate Hp' | apply Z.le_refl].
  - updated_job_cases Hd Hj Hj' E.
    destruct (String.eqb_spec (id j) i0) as [Ei|Ei]; subst j'; [|apply Z.le_refl].
    apply (all_with_id_spec _ _ _ Hg) in Hj; [|exact Ei].
    rewrite Hp in Hj. simpl in *. apply andb_prop in Hj as [Ha _].
    now apply Z.leb_le.
  - updated_job_cases Hd Hj Hj' E.
    destruct (id j =? i0); subst j'; apply Z.le_refl.
Qed.

(** One call under the progress guard. *)
Lemma progress_step (state : QueueState) (a : Action) :
  NoDup (map id (jobs state)) /\ Forall progress_in_range (jobs state) ->
  progress_guard state a = true ->
  NoDup (map id (jobs (step a state))) /\
  Forall progress_in_range (jobs (step a state)).
Proof.
  intros [Hd Hr] Hg. split; [|now apply progress_step_range].
  apply unique_ids_step; [exact Hd | |].
  - intros p gid now ->. exact Hg.
  - intros i u now ->. simpl in Hg. apply andb_prop in Hg as [Hg _].
    apply andb_prop in Hg as [Hg _]. now apply is_none_true.
Qed.

Lemma is_processing_range (i : string) (state : QueueState) :
  Forall progress_in_range (jobs state) ->
  is_processing i state = true ->
  0 <= progress_of i state <= 100.
Proof.
  unfold is_processing, progress_of, getJobById. intros Hr Hp.
  destruct (find _ _) as [j|] eqn:Ej; [|discriminate].
  apply find_some in Ej as [Hj _]. apply VideoStatus_eqb_eq in Hp.
  exact (proj1 (Forall_forall _ _) Hr j Hj Hp).
Qed.

Lemma progress_monotone_from (acts : list Action) (i : string) :
  forall state,
    NoDup (map id (jobs state)) /\ Forall progress_in_range (jobs state) ->
    guarded_run progress_guard acts state = true ->
    stays_processing i acts state = true ->
    progress_of i state <= progress_of i (run acts state) <= 100.
Proof.
  induction acts as [|a acts IH]; intros state Hinv Hg Hs; simpl in *.
  - rewrite andb_true_r in Hs.
    pose proof (is_processing_range i state (proj2 Hinv) Hs). lia.
  - apply andb_prop in Hg as [Ha Hg]. apply andb_prop in Hs as [Hp Hs].
    assert (Hp' : is_processing i (step a state) = true).
    { destruct acts; simpl in Hs; apply andb_prop in Hs; tauto. }
    pose proof (progress_step_monotone state a i (proj1 Hinv) Ha Hp Hp').
    specialize (IH (step a state) (progress_step state a Hinv Ha) Hg Hs).
    lia.
Qed.

(** C5, as the specification states it, fails: [updateProgress] lowers the
    progress of a job in flight, and pushes it past 100. *)
Lemma progress_lowered_and_out_of_range :
  stays_processing "job-1"
    [ UpdateProgress "job-1" 20 4; UpdateProgress "job-1" 150 5 ]
    (run reportedFifty initialState) = true /\
  progress_of "job-1" (run reportedFifty initialState) = 50 /\
  progress_of "job-1"
    (run [ UpdateProgress "job-1" 20 4 ] (run reportedFifty initialState)) = 20 /\
  progress_of "job-1"
    (run [ UpdateProgress "job-1" 20 4; UpdateProgress "job-1" 150 5 ]
         (run reportedFifty initialState)) = 150.
Proof. repeat split. Qed.

(** C5, amended.  [updateProgress] stores the value it is given.  Along
    every sequence of calls in which the progress reported for a job in
    flight lies between the job's progress and 100, and which does not
    start a job again while it is processing (ids being unique), the
    progress of a job lies between 0 and 100 and does not decrease for as
    long as the job stays processing. *)
Theorem progress_monotone_in_range (before acts : list Action) (i : string) :
  guarded_run progress_guard (before ++ acts) initialState = true ->
  stays_processing i acts (run before initialState) = true ->
  0 <= progress_of i (run before initialState) /\
  progress_of i (run before initialState)
  <= progress_of i (run acts (run before initialState)) /\
  progress_of i (run acts (run before initialState)) <= 100.
Proof.
  intros Hg Hs. apply guarded_run_app in Hg as [Hb Ha].
  assert (Hinv : NoDup (map id (jobs (run before initialState))) /\
                 Forall progress_in_range (jobs (run before initialState))).
  { apply (guarded_run_invariant progress_guard
             (fun s => NoDup (map id (jobs s)) /\ Forall progress_in_range (jobs s))
             progress_step before initialState); [|exact Hb].
    split; constructor. }
  pose proof (progress_monotone_from acts i _ Hinv Ha Hs) as H.
  assert (Hp : is_processing i (run before initialState) = true).
  { destruct acts; simpl in Hs; apply andb_prop in Hs; tauto. }
  pose proof (is_processing_range i _ (proj2 Hinv) Hp). lia.
Qed.

Lemma progress_monotone_in_range_witness :
  0 <= progress_of "job-1" (run reportedFifty initialState) /\
  progress_of "job-1" (run reportedFifty initialState)
  <= progress_of "job-1"
       (run [ UpdateProgress "job-1" 80 4; SetFlowJobId "job-1" "flow-7" 5 ]
            (run reportedFifty initialState)) /\
  progress_of "job-1"
    (run [ UpdateProgress "job-1" 80 4; SetFlowJobId "job-1" "flow-7" 5 ]
         (run reportedFifty initialState)) <= 100.
Proof.
  apply (progress_monotone_in_range reportedFifty
           [ UpdateProgress "job-1" 80 4; SetFlowJobId "job-1" "flow-7" 5 ] "job-1");
    reflexivity.
Defined.

(** ** The queue as a list *)

Lemma set_jobs_same (state : QueueState) : set_jobs (jobs state) state = state.
Proof. destruct state; reflexivity. Qed.

Lemma find_not_in (i : string) (l : list VideoJob) :
  find (fun j => id j =? i) l = None <-> ~ In i (map id l).
Proof.
  induction l as [|a l IH]; simpl; [tauto|].
  destruct (String.eqb_spec (id a) i) as [E|E].
  - split; [discriminate | intros H; destruct H; auto].
  - rewrite IH. tauto.
Qed.

Lemma find_filter_other (i i' : string) (l : list VideoJob) :
  i' <> i ->
  find (fun j => id j =? i') (filter (fun j => negb (id j =? i)) l)
  = find (fun j => id j =? i') l.
Proof.
  intros Hne. induction l as [|a l IH]; simpl; [reflexivity|].
  destruct (String.eqb_spec (id a) i) as [E|E]; simpl.
  - destruct (String.eqb_spec (id a) i'); [congruence | exact IH].
  - destruct (id a =? i'); [reflexivity | exact IH].
Qed.

Lemma find_filter_same (i : string) (l : list VideoJob) :
  find (fun j => id j =? i) (filter (fun j => negb (id j =? i)) l) = None.
Proof.
  induction l as [|a l IH]; simpl; [reflexivity|].
  destruct (id a =? i) eqn:E; simpl; [exact IH|]. rewrite E. exact IH.
Qed.

Lemma filter_twice {A} (f : A -> bool) (l : list A) :
  filter f (filter f l) = filter f l.
Proof.
  induction l as [|a l IH]; simpl; [reflexivity|].
  destruct (f a) eqn:E; simpl; [rewrite E, IH; reflexivity | exact IH].
Qed.

Lemma find_over_app {A} (p : A -> bool) (l1 l2 : list A) :
  find p (l1 ++ l2) = match find p l1 with Some x => Some x | None => find p l2 end.
Proof.
  induction l1 as [|a l1 IH]; simpl; [reflexivity|]. destruct (p a); auto.
Qed.

Lemma find_first {A} (p : A -> bool) (l : list A) :
  match find p l with
  | Some x =>
      exists l1 l2, l = (l1 ++ x :: l2)%list /\ p x = true /\
                    Forall (fun y => p y = false) l1
  | None => Forall (fun y => p y = false) l
  end.
Proof.
  induction l as [|a l IH]; simpl; [constructor|].
  destruct (p a) eqn:E.
  - exists [], l. repeat split; [exact E | constructor].
  - destruct (find p l) as [x|].
    + destruct IH as (l1 & l2 & -> & Hx & Hl1).
      exists (a :: l1), l2. repeat split; [exact Hx | constructor; assumption].
    + constructor; assumption.
Qed.

Lemma count_all_statuses (l : list VideoJob) :
  length l
  = (count_status pending l + count_status processing l + count_status completed l
     + count_status failed l + count_status cancelled l)%nat.
Proof.
  induction l as [|a l IH]; [reflexivity|].
  rewrite !count_status_cons. simpl length. rewrite IH.
  destruct (status a); simpl; lia.
Qed.

Lemma count_filter_none (st : VideoStatus) (f : VideoJob -> bool) (l : list VideoJob) :
  (forall j, status j = st -> f j = false) -> count_status st (filter f l) = 0%nat.
Proof.
  intros H. induction l as [|a l IH]; simpl; [reflexivity|].
  destruct (f a) eqn:E; [|exact IH].
  rewrite count_status_cons, IH.
  destruct (VideoStatus_eqb (status a) st) eqn:Es; [|reflexivity].
  apply VideoStatus_eqb_eq in Es. rewrite (H a Es) in E. discriminate.
Qed.

Lemma count_filter_all (st : VideoStatus) (f : VideoJob -> bool) (l : list VideoJob) :
  (forall j, status j = st -> f j = true) ->
  count_status st (filter f l) = count_status st l.
Proof.
  intros H. induction l as [|a l IH]; simpl; [reflexivity|].
  rewrite count_status_cons.
  destruct (f a) eqn:E; [rewrite count_status_cons, IH; reflexivity|].
  destruct (VideoStatus_eqb (status a) st) eqn:Es; [|exact IH].
  apply VideoStatus_eqb_eq in Es. rewrite (H a Es) in E. discriminate.
Qed.

Lemma count_none_pending (st : VideoStatus) (l : list VideoJob) :
  Forall (fun y => VideoStatus_eqb (status y) st = false) l -> count_status st l = 0%nat.
Proof.
  induction 1 as [|a l Ha _ IH]; [reflexivity|].
  rewrite count_status_cons, Ha, IH. reflexivity.
Qed.

(** X1.  Whatever is called on the store, in whatever order, the queue
    never holds more than [MAX_QUEUE_SIZE] jobs. *)
Theorem queue_never_exceeds_limit (acts : list Action) :
  (length (jobs (run acts initialState)) <= MAX_QUEUE_SIZE)%nat.
Proof. apply reachable_jobs_length. exists acts. reflexivity. Qed.

(** X2.  [getStats] counts every job in [total] and the pending,
    processing, completed and failed ones in a bucket each; a cancelled job
    is in [total] and in no bucket.  The [stats] of the [useQueue] hook
    have the fifth bucket, and there the buckets add up to the total. *)
Theorem getStats_leaves_out_cancelled (state : QueueState) :
  total (getStats state)
  = (stat_pending (getStats state) + stat_processing (getStats state)
     + stat_completed (getStats state) + stat_failed (getStats state)
     + count_status cancelled (jobs state))%nat /\
  UseQueue.total (UseQueue.stats state)
  = (UseQueue.stat_pending (UseQueue.stats state)
     + UseQueue.stat_processing (UseQueue.stats state)
     + UseQueue.stat_completed (UseQueue.stats state)
     + UseQueue.stat_failed (UseQueue.stats state)
     + UseQueue.stat_cancelled (UseQueue.stats state))%nat /\
  UseQueue.total (UseQueue.stats state) = total (getStats state) /\
  UseQueue.stat_cancelled (UseQueue.stats state)
  = (total (getStats state)
     - (stat_pending (getStats state) + stat_processing (getStats state)
        + stat_completed (getStats state) + stat_failed (getStats state)))%nat.
Proof.
  pose proof (count_all_statuses (jobs state)) as H.
  unfold getStats, UseQueue.stats, UseQueue.with_status. simpl.
  unfold count_status in *. repeat split; lia.
Qed.

(** X3.  [removeJob] takes every job with the given id out of the queue
    and leaves the others to be found as before; doing it again changes
    nothing.  When the job removed was the active one, [activeJobId] is
    cleared, and [isProcessing] stays as it was. *)
Theorem removeJob_removes (state : QueueState) (i : string) :
  getJobById i (removeJob i state) = None /\
  (forall i', i' <> i -> getJobById i' (removeJob i state) = getJobById i' state) /\
  removeJob i (removeJob i state) = removeJob i state /\
  isProcessing (removeJob i state) = isProcessing state /\
  (activeJobId state = Some i -> activeJobId (removeJob i state) = None) /\
  (activeJobId state <> Some i -> activeJobId (removeJob i state) = activeJobId state).
Proof.
  unfold getJobById, removeJob. simpl.
  split; [apply find_filter_same|].
  split; [intros i' Hne; now apply find_filter_other|].
  split; [|split; [reflexivity|split]].
  - unfold set_activeJobId, set_jobs. simpl. rewrite filter_twice.
    destruct (option_string_eqb (activeJobId state) i) eqn:E; simpl; [reflexivity|].
    rewrite E. reflexivity.
  - intros H. rewrite (proj2 (option_string_eqb_true _ _) H). reflexivity.
  - intros H. destruct (option_string_eqb (activeJobId state) i) eqn:E; [|reflexivity].
    apply option_string_eqb_true in E. contradiction.
Qed.

(** X4.  [clearCompletedJobs] leaves no completed job and
    [clearFailedJobs] no failed and no cancelled one; the jobs in the
    other statuses all stay, and neither call touches [activeJobId],
    [isProcessing] or [dailyCreated]. *)
Theorem clear_by_status (state : QueueState) :
  (count_status completed (jobs (clearCompletedJobs state)) = 0%nat /\
   (forall st, st <> completed ->
      count_status st (jobs (clearCompletedJobs state)) = count_status st (jobs state)) /\
   (forall i j, getJobById i state = Some j -> status j <> completed ->
      getJobById i (clearCompletedJobs state) = Some j)) /\
  (count_status failed (jobs (clearFailedJobs state)) = 0%nat /\
   count_status cancelled (jobs (clearFailedJobs state)) = 0%nat /\
   (forall st, st <> failed -> st <> cancelled ->
      count_status st (jobs (clearFailedJobs state)) = count_status st (jobs state)) /\
   (forall i j, getJobById i state = Some j -> status j <> failed -> status j <> cancelled ->
      getJobById i (clearFailedJobs state) = Some j)) /\
  activeJobId (clearCompletedJobs state) = activeJobId state /\
  activeJobId (clearFailedJobs state) = activeJobId state /\
  isProcessing (clearCompletedJobs state) = isProcessing state /\
  isProcessing (clearFailedJobs state) = isProcessing state /\
  dailyCreated (clearCompletedJobs state) = dailyCreated state /\
  dailyCreated (clearFailedJobs state) = dailyCreated state.
Proof.
  assert (Hfind : forall (f : VideoJob -> bool) i j l,
             find (fun x => id x =? i) l = Some j -> f j = true ->
             find (fun x => id x =? i) (filter f l) = Some j).
  { intros f i j l. induction l as [|a l IH]; simpl; [discriminate|].
    destruct (id a =? i) eqn:E.
    - intros [= ->] Hf. rewrite Hf. simpl. rewrite E. reflexivity.
    - intros H Hf. destruct (f a); simpl; [rewrite E|]; auto. }
  unfold clearCompletedJobs, clearFailedJobs, getJobById. simpl.
  repeat split.
  - apply count_filter_none. intros j ->. reflexivity.
  - intros st Hst. apply count_filter_all. intros j <-.
    destruct (status j); try reflexivity. contradiction.
  - intros i j Hj Hs. apply Hfind; [exact Hj|].
    destruct (status j); try reflexivity. contradiction.
  - apply count_filter_none. intros j ->. reflexivity.
  - apply count_filter_none. intros j ->. reflexivity.
  - intros st Hf Hc. apply count_filter_all. intros j <-.
    destruct (status j); try reflexivity; contradiction.
  - intros i j Hj Hf Hc. apply Hfind; [exact Hj|].
    destruct (status j); try reflexivity; contradiction.
Qed.

Lemma adds_fill_the_queue (adds : list Action) :
  forall state,
    forallb is_addJob adds = true ->
    (length (jobs state) + length adds <= MAX_QUEUE_SIZE)%nat ->
    length (jobs (run adds state)) = (length (jobs state) + length adds)%nat /\
    (Forall (fun j => status j = pending) (jobs state) ->
     Forall (fun j => status j = pending) (jobs (run adds state))) /\
    activeJobId (run adds state) = activeJobId state /\
    isProcessing (run adds state) = isProcessing state /\
    dailyCreated (run adds state) = dailyCreated state.
Proof.
  induction adds as [|a adds IH]; intros state Ha Hlen; simpl in *.
  - repeat split; auto.
  - apply andb_prop in Ha as [Ha Has].
    destruct a; try discriminate Ha. unfold step at 1 2 3 4 5. simpl.
    unfold addJob.
    destruct (Nat.leb_spec MAX_QUEUE_SIZE (length (jobs state))) as [Hfull|Hroom];
      [lia|]. simpl.
    match goal with |- context [run adds ?s] =>
      destruct (IH s Has) as (H1 & H2 & H3 & H4 & H5)
    end.
    { simpl. rewrite length_app. simpl. lia. }
    simpl in *. rewrite length_app in H1. simpl in H1.
    split; [lia|]. split; [|auto].
    intros Hp. apply H2. apply Forall_app. split; [exact Hp|]. repeat constructor.
Qed.

(** X5.  [clearAllJobs] empties the queue and clears the active job and
    the processing flag, and keeps the count of the videos created today.
    After it the queue has room for [MAX_QUEUE_SIZE] jobs: up to that many
    calls of [addJob] in a row all add their job, pending. *)
Theorem clearAllJobs_makes_room (state : QueueState) (adds : list Action) :
  forallb is_addJob adds = true ->
  (length adds <= MAX_QUEUE_SIZE)%nat ->
  length (jobs (run adds (clearAllJobs state))) = length adds /\
  Forall (fun j => status j = pending) (jobs (run adds (clearAllJobs state))) /\
  activeJobId (run adds (clearAllJobs state)) = None /\
  isProcessing (run adds (clearAllJobs state)) = false /\
  dailyCreated (run adds (clearAllJobs state)) = dailyCreated state.
Proof.
  intros Ha Hlen.
  destruct (adds_fill_the_queue adds (clearAllJobs state) Ha) as (H1 & H2 & H3 & H4 & H5);
    [simpl; lia|].
  split; [exact H1|]. split; [apply H2; constructor|].
  split; [exact H3|]. split; [exact H4 | exact H5].
Qed.

Lemma clearAllJobs_makes_room_witness :
  length (jobs (run [ AddJob sampleParams "job-5" 9; AddJob sampleParams "job-6" 10 ]
                    (clearAllJobs (run fourStarted initialState)))) = 2%nat /\
  Forall (fun j => status j = pending)
    (jobs (run [ AddJob sampleParams "job-5" 9; AddJob sampleParams "job-6" 10 ]
               (clearAllJobs (run fourStarted initialState)))) /\
  activeJobId (run [ AddJob sampleParams "job-5" 9; AddJob sampleParams "job-6" 10 ]
                   (clearAllJobs (run fourStarted initialState))) = None /\
  isProcessing (run [ AddJob sampleParams "job-5" 9; AddJob sampleParams "job-6" 10 ]
                    (clearAllJobs (run fourStarted initialState))) = false /\
  dailyCreated (run [ AddJob sampleParams "job-5" 9; AddJob sampleParams "job-6" 10 ]
                    (clearAllJobs (run fourStarted initialState)))
  = dailyCreated (run fourStarted initialState).
Proof.
  apply (clearAllJobs_makes_room (run fourStarted initialState)
           [ AddJob sampleParams "job-5" 9; AddJob sampleParams "job-6" 10 ]).
  - reflexivity.
  - unfold MAX_QUEUE_SIZE. simpl. lia.
Defined.

(** X6.  [getNextPendingJob] gives the pending job that is first in the
    queue: no job before it is pending.  It gives nothing exactly when
    [getStats] counts no pending job. *)
Theorem getNextPendingJob_is_first (state : QueueState) :
  match getNextPendingJob state with
  | Some j =>
      exists before after,
        jobs state = (before ++ j :: after)%list /\
        status j = pending /\
        Forall (fun x => status x <> pending) before /\
        (0 < stat_pending (getStats state))%nat
  | None => stat_pending (getStats state) = 0%nat
  end.
Proof.
  unfold getNextPendingJob, getStats. simpl.
  pose proof (find_first (fun job => VideoStatus_eqb (status job) pending) (jobs state)) as H.
  destruct (find _ (jobs state)) as [j|].
  - destruct H as (l1 & l2 & E & Hj & Hl1). exists l1, l2.
    split; [exact E|]. split; [now apply VideoStatus_eqb_eq|]. split.
    + eapply Forall_impl; [|exact Hl1]. cbv beta. intros a Ha Hs.
      rewrite Hs in Ha. discriminate.
    + rewrite E, count_app, count_status_cons, Hj. lia.
  - now apply count_none_pending.
Qed.

(** X7.  The queue is first in, first out: adding a job does not change
    which job is the next pending one, unless there was none, in which
    case it is the job just added. *)
Theorem addJob_goes_to_the_back (state : QueueState) (params : AddJobParams)
    (generateId : string) (now : Z) :
  getNextPendingJob (fst (addJob params generateId now state))
  = match getNextPendingJob state with
    | Some j => Some j
    | None =>
        match snd (addJob params generateId now state) with
        | Returned newJob => Some newJob
        | Thrown _ => None
        end
    end.
Proof.
  unfold getNextPendingJob, addJob.
  destruct (_ <=? _)%nat; simpl.
  - destruct (find _ (jobs state)); reflexivity.
  - rewrite find_over_app. destruct (find _ (jobs state)); reflexivity.
Qed.

(** X8.  The job that [addJob] returns is the one [getJobById] finds under
    its id, provided no older job has that id: [getJobById] gives the
    oldest job with the id.  The other ids are found as before. *)
Theorem addJob_then_getJobById (state : QueueState) (params : AddJobParams)
    (generateId : string) (now : Z) :
  getJobById generateId (fst (addJob params generateId now state))
  = match getJobById generateId state with
    | Some older => Some older
    | None =>
        match snd (addJob params generateId now state) with
        | Returned newJob => Some newJob
        | Thrown _ => None
        end
    end /\
  (forall i, i <> generateId ->
     getJobById i (fst (addJob params generateId now state)) = getJobById i state).
Proof.
  unfold getJobById, addJob.
  destruct (_ <=? _)%nat; simpl.
  - split; [destruct (find _ (jobs state)); reflexivity | reflexivity].
  - split.
    + rewrite find_over_app. destruct (find _ (jobs state)); [reflexivity|].
      simpl. rewrite String.eqb_refl. reflexivity.
    + intros i Hi. rewrite find_over_app. destruct (find _ (jobs state)); [reflexivity|].
      simpl. destruct (String.eqb_spec generateId i); [congruence | reflexivity].
Qed.

(** X9.  An operation called with an id that no job has changes no job,
    and none says so: [retryJob], [updateJob], [updateProgress],
    [setFlowJobId], [removeJob] and [cancelJob] leave the queue as it is,
    while [startJob] still records the id as the active job and raises the
    processing flag, and [completeJob] still counts a video created. *)
Theorem unknown_id_changes_no_job (state : QueueState) (i : string) (a : Action) :
  getJobById i state = None ->
  id_of a = Some i ->
  jobs (step a state) = jobs state /\
  snd (call a state) = None /\
  (forall now, a = StartJob i now ->
     activeJobId (step a state) = Some i /\ isProcessing (step a state) = true) /\
  (forall v t now, a = CompleteJob i v t now ->
     dailyCreated (step a state) = dailyCreated state + 1) /\
  (forall now, a = RetryJob i now -> step a state = state).
Proof.
  intros Hnone Ha.
  assert (Hi : ~ In i (map id (jobs state))) by now apply find_not_in.
  destruct a; try discriminate Ha; injection Ha as ->;
    unfold step; simpl;
    (split; [|split; [reflexivity|repeat split; intros; try discriminate]]);
    try (apply map_update_absent; exact Hi).
  - unfold getJobById in Hnone. clear Hi.
    induction (jobs state) as [|x l IH]; simpl in *; [reflexivity|].
    destruct (id x =? i); [discriminate|]. simpl. f_equal. apply IH, Hnone.
  - unfold retryJob. unfold getJobById in Hnone. rewrite Hnone. reflexivity.
  - unfold retryJob. unfold getJobById in Hnone. rewrite Hnone. reflexivity.
Qed.

Lemma unknown_id_changes_no_job_witness :
  jobs (step (StartJob "job-9" 7) (run completedOnce initialState))
  = jobs (run completedOnce initialState) /\
  activeJobId (step (StartJob "job-9" 7) (run completedOnce initialState)) = Some "job-9" /\
  isProcessing (step (StartJob "job-9" 7) (run completedOnce initialState)) = true.
Proof.
  destruct (unknown_id_changes_no_job (run completedOnce initialState) "job-9"
              (StartJob "job-9" 7) eq_refl eq_refl) as (H1 & _ & H2 & _).
  split; [exact H1 | exact (H2 7 eq_refl)].
Defined.

(** ** The retry counter *)

Lemma retry_step (state : QueueState) (a : Action) :
  NoDup (map id (jobs state)) /\ Forall retry_in_range (jobs state) ->
  retry_guard state a = true ->
  NoDup (map id (jobs (step a state))) /\ Forall retry_in_range (jobs (step a state)).
Proof.
  intros [Hd Hinv] Hg. split.
  - apply unique_ids_step; [exact Hd | |].
    + intros p gid now ->. exact Hg.
    + intros i u now ->. simpl in Hg. apply andb_prop in Hg as [Hg _].
      now apply is_none_true.
  - unfold retry_in_range in *.
    destruct a; unfold step; simpl in *;
      try exact Hinv;
      try (apply Forall_filter_keep; exact Hinv);
      try solve [ eapply Forall_map_update with (Q := fun _ => True);
                  [ exact Hinv | auto | cbv beta; simpl; intros j H1 _; exact H1 ] ].
    + unfold addJob. destruct (_ <=? _)%nat; simpl; [exact Hinv|].
      apply Forall_app. split; [exact Hinv|]. repeat constructor; simpl;
        unfold DEFAULT_RETRY_COUNT; lia.
    + apply andb_prop in Hg as [_ Hr]. apply is_none_true in Hr.
      eapply Forall_map_update with (Q := fun _ => True); [exact Hinv | auto |].
      intros j Hj _. unfold spread. simpl. rewrite Hr. exact Hj.
    + constructor.
    + unfold retryJob. destruct (find _ _) as [job|] eqn:Ef; [|exact Hinv].
      destruct (Z.leb_spec DEFAULT_RETRY_COUNT (retryCount job)) as [Hle|Hlt];
        [exact Hinv|]. simpl.
      apply find_some in Ef as [Hin Hid]. apply String.eqb_eq in Hid.
      eapply Forall_map_update with (Q := fun j => j = job); [exact Hinv | |].
      * intros j Hj Hji. apply (NoDup_ids_inj (jobs state)); auto. congruence.
      * cbv beta. simpl. intros j Hj ->. lia.
Qed.

(** X10.  The retry counter stays within its cap: along every sequence of
    store operations in which job ids are unique and [updateJob] rewrites
    neither an id nor a [retryCount], every job has a [retryCount] between
    0 and [DEFAULT_RETRY_COUNT]. *)
Theorem retryCount_never_exceeds_cap (acts : list Action) (j : VideoJob) :
  guarded_run retry_guard acts initialState = true ->
  In j (jobs (run acts initialState)) ->
  0 <= retryCount j <= DEFAULT_RETRY_COUNT.
Proof.
  intros Hg Hj.
  assert (H : NoDup (map id (jobs (run acts initialState))) /\
              Forall retry_in_range (jobs (run acts initialState))).
  { apply (guarded_run_invariant retry_guard
             (fun s => NoDup (map id (jobs s)) /\ Forall retry_in_range (jobs s)));
      [intros s a; apply retry_step | split; constructor | exact Hg]. }
  destruct H as [_ H]. exact (proj1 (Forall_forall _ _) H j Hj).
Qed.

Lemma retryCount_never_exceeds_cap_witness :
  exists j, getJobById "job-1" (run retriedToTheCap initialState) = Some j /\
            retryCount j = 3 /\ status j = failed /\
            0 <= retryCount j <= DEFAULT_RETRY_COUNT.
Proof.
  assert (Hg : guarded_run retry_guard retriedToTheCap initialState = true)
    by (vm_compute; reflexivity).
  eexists. split; [vm_compute; reflexivity|].
  split; [reflexivity|]. split; [reflexivity|].
  apply (retryCount_never_exceeds_cap retriedToTheCap _ Hg).
  vm_compute. left. reflexivity.
Defined.

(** ** What the store never writes *)

Lemma step_keeps_limit (a : Action) (state : QueueState) :
  dailyLimit (step a state) = dailyLimit state /\
  stats (step a state) = stats state /\
  (0 <= dailyCreated state -> 0 <= dailyCreated (step a state)).
Proof.
  destruct a; unfold step; simpl; try (repeat split; auto; lia).
  - unfold addJob. destruct (_ <=? _)%nat; simpl; auto.
  - unfold retryJob. destruct (find _ _); [|auto].
    destruct (_ <=? _)%Z; simpl; auto.
Qed.

(** X11.  No operation of the store writes [dailyLimit] or the [stats]
    field of the state: after any sequence of calls the limit is 50 and
    [stats] holds the zeros it started with, so the counts have to be
    asked of [getStats].  [dailyCreated] is never negative, and nothing
    in the store compares it with the limit. *)
Theorem limit_and_stats_never_written (acts : list Action) :
  dailyLimit (run acts initialState) = 50 /\
  stats (run acts initialState) = stats initialState /\
  0 <= dailyCreated (run acts initialState).
Proof.
  assert (H : forall state,
             dailyLimit (run acts state) = dailyLimit state /\
             stats (run acts state) = stats state /\
             (0 <= dailyCreated state -> 0 <= dailyCreated (run acts state))).
  { induction acts as [|a acts IH]; intros state; simpl; [auto|].
    destruct (IH (step a state)) as (H1 & H2 & H3).
    destruct (step_keeps_limit a state) as (K1 & K2 & K3).
    repeat split; [congruence | congruence | auto]. }
  destruct (H initialState) as (H1 & H2 & H3).
  repeat split; [exact H1 | exact H2 | apply H3; simpl; lia].
Qed.

(** X12.  The state transitions and the progress reports work in place:
    they add no job, drop none and change no order, and they leave what
    the user asked for (id, product, prompt, settings, platforms, schedule
    and creation time) on every job as it was. *)
Theorem in_place_operations_keep_requests (a : Action) (state : QueueState) :
  in_place a = true ->
  map request_of (jobs (step a state)) = map request_of (jobs state).
Proof.
  assert (Hm : forall (f : VideoJob -> VideoJob) i l,
             (forall x, request_of (f x) = request_of x) ->
             map request_of (map (fun job => if id job =? i then f job else job) l)
             = map request_of l).
  { intros f i l Hf. rewrite map_map. apply map_ext. intros x.
    destruct (id x =? i); [apply Hf | reflexivity]. }
  intros Ha. destruct a; try discriminate Ha; unfold step; simpl;
    try reflexivity; try (apply Hm; intros x; reflexivity).
  unfold retryJob. destruct (find _ _); [|reflexivity].
  destruct (_ <=? _)%Z; [reflexivity|]. simpl. apply Hm. intros x. reflexivity.
Qed.

Lemma in_place_operations_keep_requests_witness :
  map request_of (jobs (step (CompleteJob "job-1" "https://example.com/video.mp4" None 9)
                             (run twoWaiting initialState)))
  = map request_of (jobs (run twoWaiting initialState)).
Proof.
  apply (in_place_operations_keep_requests
           (CompleteJob "job-1" "https://example.com/video.mp4" None 9)).
  reflexivity.
Defined.

(** X13.  The processing flag of the store and the jobs in flight can
    disagree: [completeJob] and [failJob] lower the flag whichever job
    they are called for, so with another job still processing the store
    says it is idle while [useQueue], which counts the processing jobs,
    says it is busy. *)
Theorem flag_lowered_with_jobs_in_flight (state : QueueState) (i : string)
    (other : VideoJob) :
  In other (jobs state) ->
  id other <> i ->
  status other = processing ->
  (forall v t now,
     isProcessing (completeJob i v t now state) = false /\
     UseQueue.isProcessing (completeJob i v t now state) = true) /\
  (forall e now,
     isProcessing (failJob i e now state) = false /\
     UseQueue.isProcessing (failJob i e now state) = true).
Proof.
  intros Hin Hid Hs.
  assert (H : forall f : VideoJob -> VideoJob,
             Nat.ltb 0 (length (filter (fun j => VideoStatus_eqb (status j) processing)
                                  (map (fun job => if id job =? i then f job else job)
                                       (jobs state)))) = true).
  { intros f. apply Nat.ltb_lt.
    assert (Hin' : In other (filter (fun j => VideoStatus_eqb (status j) processing)
                               (map (fun job => if id job =? i then f job else job)
                                    (jobs state)))).
    { apply filter_In. split; [|rewrite Hs; reflexivity].
      apply in_map_iff. exists other. split; [|exact Hin].
      destruct (String.eqb_spec (id other) i); [contradiction | reflexivity]. }
    destruct (filter _ _); [destruct Hin' | simpl; lia]. }
  split; intros; (split; [reflexivity|]);
    unfold UseQueue.isProcessing, UseQueue.activeJobs, UseQueue.with_status; apply H.
Qed.

Lemma flag_lowered_with_jobs_in_flight_witness :
  isProcessing (completeJob "job-1" "https://example.com/video.mp4" None 9
                  (run fourStarted initialState)) = false /\
  UseQueue.isProcessing (completeJob "job-1" "https://example.com/video.mp4" None 9
                           (run fourStarted initialState)) = true.
Proof.
  destruct (nth_error (jobs (run fourStarted initialState)) 1) as [other|] eqn:E;
    [|discriminate E].
  apply (proj1 (flag_lowered_with_jobs_in_flight (run fourStarted initialState)
                  "job-1" other (nth_error_In _ _ E)
                  ltac:(injection E as <-; discriminate)
                  ltac:(injection E as <-; reflexivity))).
Defined.

End QueueStoreFacts.

(** * Properties of the controllers *)

Module AutomationFacts.
Import Constants Automation.
Local Open Scope prog_scope.

(** ** The string helpers on small inputs *)

Example trim_both_ends : JS.trim "  a b  " = "a b".
Proof. reflexivity. Qed.

(** A no-break space (U+00A0, the bytes 194 and 160) is white space. *)
Example trim_no_break_space :
  JS.trim (String (ascii_of_nat 194) (String (ascii_of_nat 160) " Generate ")) = "Generate".
Proof. reflexivity. Qed.

(** A Thai word of five letters, of three bytes each. *)
Example code_points_thai :
  map JS.code_point_of (JS.code_points "สร้าง")
  = [Some 0xE2A; Some 0xE23; Some 0xE49; Some 0xE32; Some 0xE07]%N /\
  String.length "สร้าง" = 15%nat.
Proof. split; reflexivity. Qed.

Example includes_inside : JS.includes "button label" "label" = true.
Proof. reflexivity. Qed.

Example includes_absent : JS.includes "button" "label" = false.
Proof. reflexivity. Qed.

Example video_id_of_url :
  JS.match_video_id "https://www.tiktok.com/@shop/video/7301234?lang=th" = Some "7301234".
Proof. reflexivity. Qed.

Example video_id_absent : JS.match_video_id "https://www.tiktok.com/upload" = None.
Proof. reflexivity. Qed.

Example number_as_string : JS.String_of_number 30 = "30".
Proof. reflexivity. Qed.

(** ** Running composed programs *)

Section Running.
Context {S : Type} (env : Env).

Lemma run_bind {A B} (p : Prog S A) (f : A -> Prog S B) (w : World S) :
  run env (bind p f) w =
  match run env p w with
  | (Value a, w1) => run env (f a) w1
  | (Error msg, w1) => (Error msg, w1)
  | (Diverged, w1) => (Diverged, w1)
  | (Unloaded, w1) => (Unloaded, w1)
  end.
Proof.
  revert w. induction p; intros w; simpl; auto.
  destruct (fetch env (clock w) url) as [r d]. auto.
Qed.

Lemma run_try_catch {A} (p : Prog S A) (h : string -> Prog S A) (w : World S) :
  run env (try_catch p h) w =
  match run env p w with
  | (Error msg, w1) => run env (h msg) w1
  | other => other
  end.
Proof.
  revert w. induction p; intros w; simpl; auto.
  destruct (fetch env (clock w) url) as [r d]. auto.
Qed.

Lemma run_try_finally {A} (p : Prog S A) (f : Prog S unit) (w : World S) :
  run env (try_finally p f) w =
  match run env p w with
  | (Value a, w1) => run env (bind f (fun _ => Ret a)) w1
  | (Error msg, w1) => run env (bind f (fun _ => Throw msg)) w1
  | (Diverged, w1) => (Diverged, w1)
  | (Unloaded, w1) => (Unloaded, w1)
  end.
Proof.
  revert w. induction p; intros w; simpl; auto.
  destruct (fetch env (clock w) url) as [r d]. auto.
Qed.

Lemma extends_refl (w : World S) : extends w w.
Proof. split; [lia|]. exists []. rewrite app_nil_r. auto. Qed.

Lemma extends_trans (w1 w2 w3 : World S) :
  extends w1 w2 -> extends w2 w3 -> extends w1 w3.
Proof.
  intros [H1 (t1 & E1 & F1)] [H2 (t2 & E2 & F2)]. split; [lia|].
  exists (t1 ++ t2)%list. rewrite E2, E1, app_assoc. split; [reflexivity|].
  apply Forall_app. split; [exact F1|].
  eapply Forall_impl; [|exact F2]. simpl. intros. lia.
Qed.

Lemma wake_ge (t ms : Z) : t <= wake env t ms.
Proof. unfold wake. lia. Qed.

Lemma wake_interval (t ms : Z) : t + ms <= wake env t ms.
Proof. unfold wake. lia. Qed.

(** The clock never goes back, and what a program does is appended to the
    trace. *)
Lemma run_extends {A} (p : Prog S A) (w : World S) :
  extends w (snd (run env p w)).
Proof.
  revert w. induction p; intros w; simpl; auto using extends_refl.
  - eapply extends_trans; [|apply IHp].
    split; simpl; [apply wake_ge|]. exists []. rewrite app_nil_r. auto.
  - destruct (fetch env (clock w) url) as [r d].
    eapply extends_trans; [|apply H].
    split; simpl; [lia|]. exists []. rewrite app_nil_r. auto.
  - eapply extends_trans; [|apply IHp].
    split; simpl; [lia|]. exists [(clock w, e)]. split; [reflexivity|].
    constructor; [simpl; lia | constructor].
  - eapply extends_trans; [|apply IHp].
    split; simpl; [lia|]. exists []. rewrite app_nil_r. auto.
Qed.

(** *** Programs that only observe *)

Lemma Observer_bind {A B} (p : Prog S A) (f : A -> Prog S B) :
  Observer p -> (forall a, Observer (f a)) -> Observer (bind p f).
Proof. intros Hp Hf. induction Hp; simpl; auto; constructor; auto. Qed.

Lemma Observer_try_catch {A} (p : Prog S A) (h : string -> Prog S A) :
  Observer p -> (forall m, Observer (h m)) -> Observer (try_catch p h).
Proof. intros Hp Hf. induction Hp; simpl; auto; constructor; auto. Qed.

Lemma Observer_findM {A} (p : A -> Prog S bool) (l : list A) :
  (forall a, Observer (p a)) -> Observer (findM p l).
Proof.
  intros Hp. induction l as [|x l IH]; simpl; [constructor|].
  apply Observer_bind; [apply Hp|]. intros []; [constructor | exact IH].
Qed.

Lemma Observer_firstM {A B} (body : A -> Prog S (option B)) (l : list A) :
  (forall a, Observer (body a)) -> Observer (firstM body l).
Proof.
  intros Hp. induction l as [|x l IH]; simpl; [constructor|].
  apply Observer_bind; [apply Hp|]. intros [b|]; [constructor | exact IH].
Qed.

(** An observation leaves the world as it is, and depends on nothing of
    the world but the instant. *)
Lemma Observer_world {A} (p : Prog S A) (w : World S) :
  Observer p -> snd (run env p w) = w.
Proof. intros Hp. revert w. induction Hp; intros w; simpl; auto. Qed.

Lemma Observer_result {A} (p : Prog S A) (w w' : World S) :
  Observer p -> clock w = clock w' -> fst (run env p w) = fst (run env p w').
Proof.
  intros Hp. revert w w'. induction Hp; intros w w' E; simpl; auto;
    rewrite <- ?E; auto.
Qed.

Lemma Observer_run {A} (p : Prog S A) (w : World S) (t : Z) :
  Observer p -> run env p (at_clock t w) = (observe env p w t, at_clock t w).
Proof.
  intros Hp. unfold observe.
  rewrite <- (Observer_world p (at_clock t w) Hp) at 3.
  apply surjective_pairing.
Qed.

(** *** Programs that leave [this.state] alone *)

Lemma Stateless_bind {A B} (p : Prog S A) (f : A -> Prog S B) :
  Stateless p -> (forall a, Stateless (f a)) -> Stateless (bind p f).
Proof. intros Hp Hf. induction Hp; simpl; auto; constructor; auto. Qed.

Lemma Stateless_try_catch {A} (p : Prog S A) (h : string -> Prog S A) :
  Stateless p -> (forall m, Stateless (h m)) -> Stateless (try_catch p h).
Proof. intros Hp Hf. induction Hp; simpl; auto; constructor; auto. Qed.

Lemma Observer_Stateless {A} (p : Prog S A) : Observer p -> Stateless p.
Proof. induction 1; constructor; auto. Qed.

Lemma Stateless_poll {A} (fuel : nat) (startTime timeout interval : Z)
    (body : Prog S (option A)) (after : Prog S A) :
  Stateless body -> Stateless after ->
  Stateless (poll fuel startTime timeout interval body after).
Proof.
  intros Hb Ha. induction fuel as [|fuel IH]; simpl; constructor.
  intros t. destruct (_ <? _)%Z; [|exact Ha].
  apply Stateless_bind; [exact Hb|]. intros [a|]; constructor. exact IH.
Qed.

Lemma Stateless_run {A} (p : Prog S A) (w : World S) :
  Stateless p -> state (snd (run env p w)) = state w.
Proof.
  intros Hp. revert w. induction Hp; intros w; simpl; auto.
  - rewrite IHHp. reflexivity.
  - destruct (fetch env (clock w) url) as [r d]. rewrite H0. reflexivity.
  - rewrite IHHp. reflexivity.
Qed.

(** *** Polling loops *)

Lemma at_clock_self (w : World S) : at_clock (clock w) w = w.
Proof. destruct w. reflexivity. Qed.

Lemma Observer_ended {A} (p : Prog S A) (w : World S) :
  Observer p -> ended (fst (run env p w)).
Proof.
  intros Hp. revert w. induction Hp; intros w; simpl; auto.
Qed.

Lemma tick_shift (interval t0 : Z) (k : nat) :
  tick env interval (wake env t0 interval) k = tick env interval t0 (Datatypes.S k).
Proof. induction k as [|k IH]; simpl; [reflexivity|]. now rewrite IH. Qed.

Lemma tick_ge (interval t0 : Z) (k : nat) :
  0 <= interval -> t0 + Z.of_nat k * interval <= tick env interval t0 k.
Proof.
  intros Hi. induction k as [|k IH]; simpl tick; [lia|].
  pose proof (wake_interval (tick env interval t0 k) interval). lia.
Qed.

(** The outcome of a polling loop is decided at the first turn that does
    not fall through: by what the body observes there if that turn starts
    before the bound, by the code after the loop otherwise.  The condition
    on the fuel says that the loop is given its turns. *)
Lemma poll_first_observed {A} (body : Prog S (option A)) (after : Prog S A)
    (start timeout interval : Z) (w : World S) :
  Observer body -> 0 < interval ->
  forall (fuel : nat) (c : Z),
    (1 <= fuel)%nat ->
    timeout - (c - start) <= (Z.of_nat fuel - 1) * interval ->
    exists n : nat,
      (n < fuel)%nat /\
      (forall k, (k < n)%nat ->
         tick env interval c k - start < timeout /\
         observe env body w (tick env interval c k) = Value None) /\
      ((tick env interval c n - start < timeout /\
        exists a, observe env body w (tick env interval c n) = Value (Some a) /\
                  run env (poll fuel start timeout interval body after) (at_clock c w)
                  = (Value a, at_clock (tick env interval c n) w))
       \/
       (tick env interval c n - start < timeout /\
        exists msg, observe env body w (tick env interval c n) = Error msg /\
                    run env (poll fuel start timeout interval body after) (at_clock c w)
                    = (Error msg, at_clock (tick env interval c n) w))
       \/
       (timeout <= tick env interval c n - start /\
        run env (poll fuel start timeout interval body after) (at_clock c w)
        = run env after (at_clock (tick env interval c n) w))).
Proof.
  intros Hb Hi fuel. induction fuel as [|fuel IH]; intros c Hf Hc; [lia|].
  simpl run. change (clock (at_clock c w)) with c.
  destruct (Z.ltb_spec (c - start) timeout) as [Hlt|Hge].
  - rewrite run_bind, (Observer_run body w c Hb).
    destruct (observe env body w c) as [[a|]|msg| |] eqn:Eo.
    + exists 0%nat. split; [lia|]. split; [intros k Hk; lia|].
      left. simpl tick. split; [exact Hlt|]. exists a. split; [exact Eo | reflexivity].
    + assert (Hf' : (1 <= fuel)%nat).
      { destruct fuel; [simpl in Hc; lia | lia]. }
      pose proof (wake_interval c interval) as Hw.
      destruct (IH (wake env c interval) Hf') as (n & Hn & Hbefore & Hat).
      { rewrite Nat2Z.inj_succ in Hc. nia. }
      exists (Datatypes.S n). split; [lia|]. split.
      * intros [|k] Hk; [simpl tick; auto|].
        rewrite <- tick_shift. apply Hbefore. lia.
      * rewrite <- tick_shift. simpl run.
        change (at_clock (wake env (clock (at_clock c w)) interval) (at_clock c w))
          with (at_clock (wake env c interval) w).
        exact Hat.
    + exists 0%nat. split; [lia|]. split; [intros k Hk; lia|].
      right. left. simpl tick. split; [exact Hlt|]. exists msg.
      split; [exact Eo | reflexivity].
    + exfalso. pose proof (Observer_ended body (at_clock c w) Hb) as He.
      unfold observe in Eo. rewrite Eo in He. exact He.
    + exfalso. pose proof (Observer_ended body (at_clock c w) Hb) as He.
      unfold observe in Eo. rewrite Eo in He. exact He.
  - exists 0%nat. split; [lia|]. split; [intros k Hk; lia|].
    right. right. simpl tick. split; [lia | reflexivity].
Qed.

Lemma poll_fuel_enough (timeout interval : Z) :
  0 < interval ->
  (1 <= poll_fuel timeout interval)%nat /\
  timeout <= (Z.of_nat (poll_fuel timeout interval) - 1) * interval.
Proof.
  intros Hi. unfold poll_fuel. split; [lia|].
  rewrite Nat2Z.inj_add. simpl Z.of_nat.
  destruct (Z.le_gt_cases 0 timeout) as [Ht|Ht].
  - rewrite Z2Nat.id by (apply Z.div_pos; lia).
    pose proof (Z.mod_pos_bound timeout interval Hi).
    pose proof (Z.div_mod timeout interval ltac:(lia)). nia.
  - assert (timeout / interval < 0) by (apply Z.div_lt_upper_bound; lia).
    assert (E : Z.of_nat (Z.to_nat (timeout / interval)) = 0) by lia.
    rewrite E. lia.
Qed.

Lemma tick_on_time (interval t0 : Z) (k : nat) :
  (forall t, timerLag env t = 0%N) -> 0 <= interval ->
  tick env interval t0 k = t0 + Z.of_nat k * interval.
Proof.
  intros Hl Hi. induction k as [|k IH]; simpl tick; [lia|].
  unfold wake. rewrite Hl, IH. lia.
Qed.

(** A whole loop, from the reading of [startTime] on. *)
Lemma poll_loop_outcome {A} (body : Prog S (option A)) (after : Prog S A)
    (timeout interval : Z) (w : World S) :
  Observer body -> 0 < interval ->
  exists n : nat,
    (n = 0%nat \/ (Z.of_nat n - 1) * interval < timeout) /\
    (forall k, (k < n)%nat ->
       observe env body w (tick env interval (clock w) k) = Value None) /\
    ((tick env interval (clock w) n - clock w < timeout /\
      exists a,
        observe env body w (tick env interval (clock w) n) = Value (Some a) /\
        run env (startTime <- Date_now ;;
                 poll (poll_fuel timeout interval) startTime timeout interval body after) w
        = (Value a, at_clock (tick env interval (clock w) n) w))
     \/
     (tick env interval (clock w) n - clock w < timeout /\
      exists msg,
        observe env body w (tick env interval (clock w) n) = Error msg /\
        run env (startTime <- Date_now ;;
                 poll (poll_fuel timeout interval) startTime timeout interval body after) w
        = (Error msg, at_clock (tick env interval (clock w) n) w))
     \/
     (timeout <= tick env interval (clock w) n - clock w /\
      run env (startTime <- Date_now ;;
               poll (poll_fuel timeout interval) startTime timeout interval body after) w
      = run env after (at_clock (tick env interval (clock w) n) w))).
Proof.
  intros Hb Hi.
  destruct (poll_fuel_enough timeout interval Hi) as [Hf1 Hf2].
  destruct (poll_first_observed body after (clock w) timeout interval w Hb Hi
              (poll_fuel timeout interval) (clock w) Hf1)
    as (n & _ & Hbefore & Hat); [lia|].
  rewrite at_clock_self in Hat.
  exists n. split; [|split].
  - destruct n as [|n]; [left; reflexivity | right].
    destruct (Hbefore n) as [Hlt _]; [lia|].
    pose proof (tick_ge interval (clock w) n). rewrite Nat2Z.inj_succ. nia.
  - intros k Hk. apply Hbefore, Hk.
  - simpl run. exact Hat.
Qed.

End Running.

(** ** What the two controllers observe *)

Create HintDb observer discriminated.

Ltac observer_step :=
  match goal with
  | |- Observer (bind _ _) => apply Observer_bind; [|intros]
  | |- Observer (try_catch _ _) => apply Observer_try_catch; [|intros]
  | |- Observer (firstM _ _) => apply Observer_firstM; intros
  | |- Observer (findM _ _) => apply Observer_findM; intros
  | |- Observer (match ?x with _ => _ end) => destruct x
  | |- Observer (Ret _) => constructor
  | |- Observer (Throw _) => constructor
  | |- Observer (DateNow _) => constructor; intros
  | |- Observer (QuerySelectorAll _ _ _) => constructor; intros
  | |- Observer (LocationHref _) => constructor; intros
  | |- Observer (NewURL _ _) => constructor; intros
  | |- Observer (ToISOString _ _) => constructor; intros
  | |- Observer _ => solve [auto with observer]
  end.

Ltac observer := repeat observer_step.

Lemma Observer_querySelectorAll_of {S} (root : option nat) (selector : string) :
  Observer (S := S) (querySelectorAll_of root selector).
Proof. unfold querySelectorAll_of. observer. Qed.
#[local] Hint Resolve Observer_querySelectorAll_of : observer.

Lemma Observer_document_querySelector {S} (selector : string) :
  Observer (S := S) (document_querySelector selector).
Proof. unfold document_querySelector. observer. Qed.
#[local] Hint Resolve Observer_document_querySelector : observer.

Lemma Observer_isFlowSignedVideoUrl (url : string) :
  Observer (FlowController.isFlowSignedVideoUrl url).
Proof. unfold FlowController.isFlowSignedVideoUrl. observer. Qed.
#[local] Hint Resolve Observer_isFlowSignedVideoUrl : observer.

Lemma Observer_signed_or_none (url : string) :
  Observer (FlowController.signed_or_none url).
Proof. unfold FlowController.signed_or_none. observer. Qed.
#[local] Hint Resolve Observer_signed_or_none : observer.

Lemma Observer_findGeneratedVideoUrl : Observer FlowController.findGeneratedVideoUrl.
Proof. unfold FlowController.findGeneratedVideoUrl. observer. Qed.
#[local] Hint Resolve Observer_findGeneratedVideoUrl : observer.

Lemma Observer_urlFromDownloadButton (downloadButton : Element) :
  Observer (FlowController.urlFromDownloadButton downloadButton).
Proof. unfold FlowController.urlFromDownloadButton. observer. Qed.
#[local] Hint Resolve Observer_urlFromDownloadButton : observer.

Lemma Observer_completionPoll : Observer FlowController.completionPoll.
Proof. unfold FlowController.completionPoll. observer. Qed.

Lemma Observer_uploadPoll : Observer TikTokController.uploadPoll.
Proof. unfold TikTokController.uploadPoll. observer. Qed.

(** ** Observations that do not throw *)

Section Returns.
Context {S : Type} (env : Env) (t : Z).

Lemma observe_bind {A B} (p : Prog S A) (f : A -> Prog S B) (w : World S) :
  Observer p ->
  observe env (bind p f) w t =
  match observe env p w t with
  | Value a => observe env (f a) w t
  | Error msg => Error msg
  | Diverged => Diverged
  | Unloaded => Unloaded
  end.
Proof.
  intros Hp. unfold observe at 1. rewrite run_bind, (Observer_run env p w t Hp).
  destruct (observe env p w t); reflexivity.
Qed.

Lemma returns_Ret {A} (a : A) : returns (S := S) env (Ret a) t.
Proof. intros w. exists a. reflexivity. Qed.

Lemma returns_bind {A B} (p : Prog S A) (f : A -> Prog S B) :
  Observer p -> returns env p t -> (forall a, returns env (f a) t) ->
  returns env (bind p f) t.
Proof.
  intros Ho Hp Hf w. rewrite observe_bind by exact Ho.
  destruct (Hp w) as [a ->]. apply Hf.
Qed.

Lemma returns_querySelectorAll_of (root : option nat) (selector : string) :
  parses env t -> returns (S := S) env (querySelectorAll_of root selector) t.
Proof.
  intros Hp w. destruct (Hp root selector) as [els E]. exists els.
  unfold observe, querySelectorAll_of. simpl. now rewrite E.
Qed.

Lemma returns_document_querySelector (selector : string) :
  parses env t -> returns (S := S) env (document_querySelector selector) t.
Proof.
  intros Hp. unfold document_querySelector.
  apply returns_bind;
    [apply Observer_querySelectorAll_of | now apply returns_querySelectorAll_of |].
  intros els. apply returns_Ret.
Qed.

(** What [document.querySelector] observes is the first match. *)
Lemma observe_document_querySelector (selector : string) (w : World S)
    (e : option Element) :
  observe env (document_querySelector selector) w t = Value e ->
  exists els, querySelectorAll env t None selector = Matches els /\ e = hd_error els.
Proof.
  unfold observe, document_querySelector, querySelectorAll_of. simpl.
  destruct (querySelectorAll env t None selector) as [els|msg]; simpl; [|discriminate].
  intros H. exists els. split; [reflexivity | congruence].
Qed.

Lemma returns_findM {A} (p : A -> Prog S bool) (l : list A) :
  (forall a, Observer (p a)) -> (forall a, returns env (p a) t) ->
  returns env (findM p l) t.
Proof.
  intros Ho Hp. induction l as [|x l IH]; simpl; [apply returns_Ret|].
  apply returns_bind; auto. intros []; [apply returns_Ret | exact IH].
Qed.

Lemma returns_firstM {A B} (body : A -> Prog S (option B)) (l : list A) :
  (forall a, Observer (body a)) -> (forall a, returns env (body a) t) ->
  returns env (firstM body l) t.
Proof.
  intros Ho Hp. induction l as [|x l IH]; simpl; [apply returns_Ret|].
  apply returns_bind; auto. intros [b|]; [apply returns_Ret | exact IH].
Qed.

End Returns.

Section FlowReturns.
Context (env : Env) (t : Z).
Import FlowController.

Lemma returns_isFlowSignedVideoUrl (url : string) :
  returns env (isFlowSignedVideoUrl url) t.
Proof.
  intros w. unfold observe, isFlowSignedVideoUrl.
  destruct (negb _); simpl; [eauto|].
  destruct (parseURL env _ _) as [[h p]|]; simpl; eauto.
Qed.

Lemma returns_signed_or_none (url : string) : returns env (signed_or_none url) t.
Proof.
  unfold signed_or_none. destruct (JS.truthy url); [|apply returns_Ret].
  apply returns_bind;
    [apply Observer_isFlowSignedVideoUrl | apply returns_isFlowSignedVideoUrl |].
  intros b. apply returns_Ret.
Qed.

Lemma returns_findGeneratedVideoUrl :
  parses env t -> returns env findGeneratedVideoUrl t.
Proof.
  intros Hp. unfold findGeneratedVideoUrl.
  apply returns_bind; [observer | now apply returns_querySelectorAll_of |].
  intros videos. apply returns_bind; [observer | |].
  - apply returns_firstM; [intros; observer|].
    intros video. apply returns_bind; [observer | |].
    + apply returns_findM;
        [apply Observer_isFlowSignedVideoUrl | apply returns_isFlowSignedVideoUrl].
    + intros [u|]; [apply returns_Ret|].
      apply returns_bind; [observer | now apply returns_querySelectorAll_of |].
      intros sources. apply returns_firstM;
        [intros; apply Observer_signed_or_none | intros; apply returns_signed_or_none].
  - intros [u|]; [apply returns_Ret|].
    apply returns_bind; [observer | now apply returns_querySelectorAll_of |].
    intros links. apply returns_firstM; [intros; observer|].
    intros el. apply returns_bind;
      [apply Observer_signed_or_none | apply returns_signed_or_none |].
    intros [u|]; [apply returns_Ret|].
    destruct (getAttribute el "data-url");
      [apply returns_signed_or_none | apply returns_Ret].
Qed.

Lemma returns_urlFromDownloadButton (downloadButton : Element) :
  parses env t -> returns env (urlFromDownloadButton downloadButton) t.
Proof.
  intros Hp. unfold urlFromDownloadButton.
  apply returns_bind; [observer | now apply returns_document_querySelector |].
  intros videoElement. apply returns_bind; [observer | |].
  - destruct videoElement; [apply returns_signed_or_none | apply returns_Ret].
  - intros [u|]; [apply returns_Ret|].
    apply returns_bind; [observer | |].
    + destruct videoElement; [apply returns_signed_or_none | apply returns_Ret].
    + intros [u|]; [apply returns_Ret|].
      destruct (match getAttribute downloadButton "href" with
                | Some h => if JS.truthy h then Some h
                            else getAttribute downloadButton "data-url"
                | None => getAttribute downloadButton "data-url"
                end); [apply returns_signed_or_none | apply returns_Ret].
Qed.

End FlowReturns.

(** ** What a turn of the completion loop recognises *)

Section Yields.
Context {S : Type} (env : Env) (t : Z) (w : World S).

Lemma yields_eq {A} (p : Prog S (option A)) (b b' : bool) (P : A -> Prop) :
  b = b' -> yields env p w t b P -> yields env p w t b' P.
Proof. intros <-. auto. Qed.

Lemma yields_Ret_None {A} (P : A -> Prop) : yields env (Ret None) w t false P.
Proof. exists None. repeat split. discriminate. Qed.

(** A step that is observed to return, in front of an observation. *)
Lemma yields_after {A B} (p : Prog S A) (f : A -> Prog S (option B)) (a : A)
    (b : bool) (P : B -> Prop) :
  Observer p -> observe env p w t = Value a ->
  yields env (f a) w t b P -> yields env (bind p f) w t b P.
Proof.
  intros Ho Ha (r & Hr & Hb & HP). exists r.
  rewrite observe_bind, Ha by exact Ho. auto.
Qed.

(** [const x = p; if (x) return x; q] *)
Lemma yields_or {A} (p q : Prog S (option A)) (b1 b2 : bool) (P : A -> Prop) :
  Observer p ->
  yields env p w t b1 P -> yields env q w t b2 P ->
  yields env (bind p (fun r => match r with
                               | Some a => Ret (Some a)
                               | None => q
                               end)) w t (b1 || b2) P.
Proof.
  intros Ho (r1 & H1 & Hb1 & HP1) (r2 & H2 & Hb2 & HP2).
  rewrite <- Hb1. destruct r1 as [a|].
  - exists (Some a). rewrite observe_bind, H1 by exact Ho. auto.
  - exists r2. rewrite observe_bind, H1 by exact Ho. auto.
Qed.

Lemma yields_firstM {A B} (body : A -> Prog S (option B)) (g : A -> bool)
    (P : B -> Prop) (l : list A) :
  (forall x, Observer (body x)) ->
  (forall x, yields env (body x) w t (g x) P) ->
  yields env (firstM body l) w t (existsb g l) P.
Proof.
  intros Ho Hy. induction l as [|x l IH]; [apply yields_Ret_None|].
  cbn [firstM existsb]. apply yields_or; auto.
Qed.

Lemma yields_findM {A} (p : A -> Prog S bool) (f : A -> bool) (l : list A) :
  (forall x, Observer (p x)) ->
  (forall x, observe env (p x) w t = Value (f x)) ->
  yields env (findM p l) w t (existsb f l) (fun x => f x = true).
Proof.
  intros Ho Hf. induction l as [|x l IH]; [apply yields_Ret_None|].
  cbn [findM existsb]. destruct IH as (r & Hr & Hb & HP).
  rewrite <- Hb. destruct (f x) eqn:Ex.
  - exists (Some x). rewrite observe_bind, Hf, Ex by apply Ho.
    repeat split. intros a [= <-]. exact Ex.
  - exists r. rewrite observe_bind, Hf, Ex by apply Ho. auto.
Qed.

(** On a page that parses the selectors a query returns the matches. *)
Lemma observe_querySelectorAll_of (root : option nat) (selector : string) :
  parses env t ->
  observe env (querySelectorAll_of root selector) w t
  = Value (matches env t root selector).
Proof.
  intros Hp. destruct (Hp root selector) as [els E].
  unfold observe, querySelectorAll_of, matches. simpl. now rewrite E.
Qed.

Lemma observe_querySelector (selector : string) :
  parses env t ->
  observe env (document_querySelector selector) w t
  = Value (hd_error (matches env t None selector)).
Proof.
  intros Hp. unfold document_querySelector.
  rewrite observe_bind, observe_querySelectorAll_of
    by (exact Hp || apply Observer_querySelectorAll_of).
  reflexivity.
Qed.

End Yields.

Section Recognised.
Context (env : Env) (t : Z) (w : World FlowController.FlowControllerState).
Import FlowController.

Lemma observe_isFlowSignedVideoUrl (url : string) :
  observe env (isFlowSignedVideoUrl url) w t = Value (signed env t url).
Proof.
  unfold signed, observe.
  rewrite (Observer_result env (isFlowSignedVideoUrl url) (at_clock t w)
             {| clock := t; state := initial; trace := [] |})
    by (apply Observer_isFlowSignedVideoUrl || reflexivity).
  destruct (returns_isFlowSignedVideoUrl env t url
              {| clock := t; state := initial; trace := [] |}) as [b Hb].
  unfold observe in Hb. simpl at_clock in Hb.
  change (at_clock t {| clock := t; state := initial; trace := [] |})
    with ({| clock := t; state := initial; trace := [] |} : World FlowControllerState) in Hb.
  rewrite Hb. reflexivity.
Qed.

Lemma signed_empty : signed env t "" = false.
Proof. reflexivity. Qed.

Lemma signed_truthy (url : string) : signed env t url = true -> JS.truthy url = true.
Proof.
  unfold JS.truthy. destruct (String.eqb_spec url "") as [->|]; [|reflexivity].
  rewrite signed_empty. discriminate.
Qed.

Lemma yields_signed_or_none (url : string) :
  yields env (signed_or_none url) w t (signed env t url) (fun u => signed env t u = true).
Proof.
  unfold signed_or_none. destruct (JS.truthy url) eqn:Et.
  - exists (if signed env t url then Some url else None).
    rewrite observe_bind, observe_isFlowSignedVideoUrl
      by apply Observer_isFlowSignedVideoUrl.
    split; [reflexivity|]. destruct (signed env t url) eqn:Es.
    + split; [reflexivity|]. intros a [= <-]. exact Es.
    + split; [reflexivity|]. discriminate.
  - assert (Es : signed env t url = false).
    { destruct (signed env t url) eqn:Es; [|reflexivity].
      apply signed_truthy in Es. congruence. }
    rewrite Es. apply yields_Ret_None.
Qed.

Lemma existsb_candidates (a b : string) :
  existsb (signed env t) (filter JS.truthy [a; b]) = signed env t a || signed env t b.
Proof.
  pose proof (signed_truthy a) as Ha. pose proof (signed_truthy b) as Hb.
  cbn [filter]. destruct (JS.truthy a), (JS.truthy b); cbn [existsb];
    destruct (signed env t a), (signed env t b);
    try reflexivity; try discriminate (Ha eq_refl); try discriminate (Hb eq_refl).
Qed.

Lemma findGeneratedVideoUrl_yields :
  parses env t ->
  yields env findGeneratedVideoUrl w t
    (existsb (fun video =>
                signed env t (currentSrc video) || signed env t (src video)
                || existsb (fun source => signed env t (src source))
                     (matches env t (Some (node video)) "source"))
       (matches env t None "video")
     || existsb (fun el =>
                   signed env t (href el)
                   || match getAttribute el "data-url" with
                      | Some dataUrl => signed env t dataUrl
                      | None => false
                      end)
          (matches env t None "a[href], a[download], button[data-url], [data-url]"))
    (fun u => signed env t u = true).
Proof.
  intros Hp. unfold findGeneratedVideoUrl.
  eapply yields_after;
    [apply Observer_querySelectorAll_of | now apply observe_querySelectorAll_of |].
  apply yields_or.
  - observer.
  - apply yields_firstM; [intros; observer|]. intros video.
    eapply yields_eq; cycle 1.
    + apply yields_or.
      * observer.
      * apply yields_findM; [apply Observer_isFlowSignedVideoUrl|].
        apply observe_isFlowSignedVideoUrl.
      * eapply yields_after;
          [apply Observer_querySelectorAll_of | now apply observe_querySelectorAll_of |].
        apply yields_firstM; [intros; apply Observer_signed_or_none|].
        intros source. apply yields_signed_or_none.
    + now rewrite existsb_candidates.
  - eapply yields_after;
      [apply Observer_querySelectorAll_of | now apply observe_querySelectorAll_of |].
    apply yields_firstM; [intros; observer|]. intros el.
    apply yields_or; [apply Observer_signed_or_none | apply yields_signed_or_none |].
    destruct (getAttribute el "data-url") as [d|];
      [apply yields_signed_or_none | apply yields_Ret_None].
Qed.

Lemma urlFromDownloadButton_yields (downloadButton : Element) :
  parses env t ->
  yields env (urlFromDownloadButton downloadButton) w t
    (match hd_error (matches env t None GOOGLE_FLOW_SELECTORS.videoPreview) with
     | Some videoElement =>
         signed env t (currentSrc videoElement) || signed env t (src videoElement)
     | None => false
     end
     || match downloadUrl_of downloadButton with
        | Some downloadUrl => signed env t downloadUrl
        | None => false
        end)
    (fun u => signed env t u = true).
Proof.
  intros Hp. unfold urlFromDownloadButton.
  eapply yields_after;
    [apply Observer_document_querySelector | now apply observe_querySelector |].
  destruct (hd_error (matches env t None GOOGLE_FLOW_SELECTORS.videoPreview)) as [v|].
  - rewrite <- orb_assoc. apply yields_or; [apply Observer_signed_or_none
                                            | apply yields_signed_or_none |].
    apply yields_or; [apply Observer_signed_or_none | apply yields_signed_or_none |].
    fold (downloadUrl_of downloadButton).
    destruct (downloadUrl_of downloadButton);
      [apply yields_signed_or_none | apply yields_Ret_None].
  - change (false || ?b) with (false || (false || b)).
    apply yields_or; [constructor | apply yields_Ret_None |].
    apply yields_or; [constructor | apply yields_Ret_None |].
    fold (downloadUrl_of downloadButton).
    destruct (downloadUrl_of downloadButton);
      [apply yields_signed_or_none | apply yields_Ret_None].
Qed.

(** A turn of the loop of [waitForCompletion], on a page that parses the
    selectors: it returns a signed URL exactly when the page shows a
    generated video; when it shows none, the turn throws the text of the
    first element under the error selector, or falls through when there
    is none. *)
Lemma completionPoll_decides :
  parses env t ->
  if shows_video env t then
    exists videoUrl,
      observe env completionPoll w t = Value (Some videoUrl) /\
      signed env t videoUrl = true
  else
    match first_match env t GOOGLE_FLOW_SELECTORS.errorMessage with
    | Some errorElement =>
        observe env completionPoll w t
        = Error (textContent_or errorElement "Generation failed")
    | None => observe env completionPoll w t = Value None
    end.
Proof.
  intros Hp. unfold completionPoll, shows_video.
  destruct (findGeneratedVideoUrl_yields Hp) as (g & Hg & Hbg & HPg).
  rewrite observe_bind, Hg by apply Observer_findGeneratedVideoUrl.
  rewrite <- Hbg. destruct g as [u|]; cbn [orb].
  { exists u. split; [reflexivity | now apply HPg]. }
  rewrite observe_bind, observe_querySelector
    by (exact Hp || apply Observer_document_querySelector).
  destruct (hd_error (matches env t None GOOGLE_FLOW_SELECTORS.downloadButton))
    as [downloadButton|].
  - destruct (urlFromDownloadButton_yields downloadButton Hp) as (r & Hr & Hb & HP).
    rewrite observe_bind, Hr by apply Observer_urlFromDownloadButton.
    rewrite <- Hb. destruct r as [u|].
    { exists u. split; [reflexivity | now apply HP]. }
    rewrite observe_bind, observe_querySelector
      by (exact Hp || apply Observer_document_querySelector).
    replace (first_match env t GOOGLE_FLOW_SELECTORS.errorMessage)
      with (hd_error (matches env t None GOOGLE_FLOW_SELECTORS.errorMessage))
      by (unfold first_match, matches; now destruct (querySelectorAll _ _ _ _)).
    destruct (hd_error (matches env t None GOOGLE_FLOW_SELECTORS.errorMessage));
      [reflexivity|].
    rewrite observe_bind, observe_querySelector
      by (exact Hp || apply Observer_document_querySelector).
    reflexivity.
  - rewrite observe_bind by constructor.
    change (observe env (Ret None) w t) with (@Value (option string) None).
    cbv beta iota.
    rewrite observe_bind, observe_querySelector
      by (exact Hp || apply Observer_document_querySelector).
    replace (first_match env t GOOGLE_FLOW_SELECTORS.errorMessage)
      with (hd_error (matches env t None GOOGLE_FLOW_SELECTORS.errorMessage))
      by (unfold first_match, matches; now destruct (querySelectorAll _ _ _ _)).
    destruct (hd_error (matches env t None GOOGLE_FLOW_SELECTORS.errorMessage));
      [reflexivity|].
    rewrite observe_bind, observe_querySelector
      by (exact Hp || apply Observer_document_querySelector).
    reflexivity.
Qed.

End Recognised.


(** On a page that parses the selectors, a turn of the loop of
    [waitForUploadComplete] returns when an element matches the
    upload-complete selector and falls through otherwise; it never throws. *)
Lemma uploadPoll_observes (env : Env) (t : Z)
    (w : World TikTokController.TikTokControllerState) :
  parses env t ->
  (exists el els,
     querySelectorAll env t None TIKTOK_SELECTORS.uploadComplete = Matches (el :: els) /\
     observe env TikTokController.uploadPoll w t = Value (Some tt)) \/
  (querySelectorAll env t None TIKTOK_SELECTORS.uploadComplete = Matches [] /\
   observe env TikTokController.uploadPoll w t = Value None).
Proof.
  intros Hp.
  destruct (Hp None TIKTOK_SELECTORS.uploadComplete) as [els E1].
  destruct (Hp None TIKTOK_SELECTORS.uploadProgress) as [els' E2].
  unfold observe, TikTokController.uploadPoll, document_querySelector,
    querySelectorAll_of. simpl.
  rewrite E1. simpl. rewrite E2. simpl.
  destruct els as [|el els]; simpl; [right; auto | left; eauto].
Qed.


(** ** The completion loops *)

(** The loop of [waitForUploadComplete] looks at the sign of a finished
    upload and at the progress bar, and at nothing else on the page. *)
Lemma uploadPoll_reads (env env' : Env) (w : World TikTokController.TikTokControllerState)
    (t : Z) :
  querySelectorAll env t None TIKTOK_SELECTORS.uploadComplete
  = querySelectorAll env' t None TIKTOK_SELECTORS.uploadComplete ->
  querySelectorAll env t None TIKTOK_SELECTORS.uploadProgress
  = querySelectorAll env' t None TIKTOK_SELECTORS.uploadProgress ->
  observe env TikTokController.uploadPoll w t
  = observe env' TikTokController.uploadPoll w t.
Proof.
  intros H1 H2. unfold observe, TikTokController.uploadPoll, document_querySelector,
    querySelectorAll_of. simpl. rewrite H1.
  destruct (querySelectorAll env' t None TIKTOK_SELECTORS.uploadComplete);
    simpl; [rewrite H2|reflexivity].
  destruct (querySelectorAll env' t None TIKTOK_SELECTORS.uploadProgress);
    simpl; [|reflexivity].
  destruct (hd_error els); reflexivity.
Qed.

(** C8, as the specification states it, fails for the upload agent: with
    an error banner on the page from the first turn on and no sign of a
    finished upload, [waitForUploadComplete] polls for the whole minute
    and throws its own timeout error, not the error of the page. *)
Lemma upload_error_banner_ignored :
  querySelectorAll uploadErrorPage 0 None TIKTOK_SELECTORS.errorMessage
  = Matches [errorBanner] /\
  textContent errorBanner = Some "Video format not supported" /\
  observe uploadErrorPage TikTokController.uploadPoll (tiktokWorld 0) 0 = Value None /\
  run uploadErrorPage TikTokController.waitForUploadComplete (tiktokWorld 0)
  = (Error "Upload timeout", at_clock 60000 (tiktokWorld 0)).
Proof. repeat split; vm_compute; reflexivity. Qed.

(** On a page with no video at first, the video that appears after four
    seconds is returned at the third turn. *)
Example video_found_at_the_third_turn :
  run videoPage FlowController.waitForCompletion (flowWorld 0)
  = (Value "https://storage.googleapis.com/ai-sandbox-videofx/video/abc.mp4",
     at_clock 4000 (flowWorld 0)).
Proof. vm_compute. reflexivity. Qed.

Lemma videoPage_parses (t : Z) : parses videoPage t.
Proof. intros root selector. eexists. reflexivity. Qed.

(** C8, amended.  Either loop polls at the instants [tick 0], [tick 1],
    ... and is decided by the first turn that does not fall through.
    On a page that parses the selectors,
    [FlowController.waitForCompletion] (bound: 5 minutes, a turn every 2
    seconds) returns a signed video URL at the first turn before the bound
    at which the page shows a generated video, unless an earlier turn
    found an element under the error selector; it throws the text of the
    first such element at the first turn before the bound that finds one
    and no video; with neither it throws its timeout error at the first
    turn at or past the bound, which is the bound itself when the timers
    fire on time.  [TikTokController.waitForUploadComplete] (bound: 1
    minute, a turn every second) returns at the first turn before the
    bound at which an element matches the upload-complete selector and
    throws its timeout error otherwise; what it observes depends on the
    upload-complete and progress selectors alone, not on error
    indicators.  On any page, each loop ends with what its first turn that
    does not fall through observes. *)
Theorem completion_loops_outcome (env : Env) :
  (forall w : World FlowController.FlowControllerState,
     (forall t, parses env t) ->
     exists n : nat,
       (n <= 150)%nat /\
       (forall k, (k < n)%nat ->
          shows_video env (tick env 2000 (clock w) k) = false /\
          first_match env (tick env 2000 (clock w) k) GOOGLE_FLOW_SELECTORS.errorMessage
          = None) /\
       ((tick env 2000 (clock w) n - clock w < FlowController.maxWaitTime /\
         shows_video env (tick env 2000 (clock w) n) = true /\
         exists videoUrl,
           signed env (tick env 2000 (clock w) n) videoUrl = true /\
           run env FlowController.waitForCompletion w
           = (Value videoUrl, at_clock (tick env 2000 (clock w) n) w))
        \/
        (tick env 2000 (clock w) n - clock w < FlowController.maxWaitTime /\
         shows_video env (tick env 2000 (clock w) n) = false /\
         exists errorElement,
           first_match env (tick env 2000 (clock w) n) GOOGLE_FLOW_SELECTORS.errorMessage
           = Some errorElement /\
           run env FlowController.waitForCompletion w
           = (Error (textContent_or errorElement "Generation failed"),
              at_clock (tick env 2000 (clock w) n) w))
        \/
        (FlowController.maxWaitTime <= tick env 2000 (clock w) n - clock w /\
         run env FlowController.waitForCompletion w
         = (Error "Video generation timed out", at_clock (tick env 2000 (clock w) n) w) /\
         ((forall t, timerLag env t = 0%N) ->
          tick env 2000 (clock w) n = clock w + FlowController.maxWaitTime)))) /\
  (forall w : World TikTokController.TikTokControllerState,
     (forall t, parses env t) ->
     exists n : nat,
       (n <= 60)%nat /\
       (forall k, (k < n)%nat ->
          first_match env (tick env 1000 (clock w) k) TIKTOK_SELECTORS.uploadComplete
          = None) /\
       ((tick env 1000 (clock w) n - clock w < TikTokController.maxWait /\
         first_match env (tick env 1000 (clock w) n) TIKTOK_SELECTORS.uploadComplete
         <> None /\
         run env TikTokController.waitForUploadComplete w
         = (Value tt, at_clock (tick env 1000 (clock w) n) w))
        \/
        (TikTokController.maxWait <= tick env 1000 (clock w) n - clock w /\
         run env TikTokController.waitForUploadComplete w
         = (Error "Upload timeout", at_clock (tick env 1000 (clock w) n) w) /\
         ((forall t, timerLag env t = 0%N) ->
          tick env 1000 (clock w) n = clock w + TikTokController.maxWait)))) /\
  (forall w : World FlowController.FlowControllerState,
     exists n : nat,
       (n <= 150)%nat /\
       (forall k, (k < n)%nat ->
          observe env FlowController.completionPoll w (tick env 2000 (clock w) k)
          = Value None) /\
       ((tick env 2000 (clock w) n - clock w < FlowController.maxWaitTime /\
         exists videoUrl,
           observe env FlowController.completionPoll w (tick env 2000 (clock w) n)
           = Value (Some videoUrl) /\
           run env FlowController.waitForCompletion w
           = (Value videoUrl, at_clock (tick env 2000 (clock w) n) w))
        \/
        (tick env 2000 (clock w) n - clock w < FlowController.maxWaitTime /\
         exists msg,
           observe env FlowController.completionPoll w (tick env 2000 (clock w) n)
           = Error msg /\
           run env FlowController.waitForCompletion w
           = (Error msg, at_clock (tick env 2000 (clock w) n) w))
        \/
        (FlowController.maxWaitTime <= tick env 2000 (clock w) n - clock w /\
         run env FlowController.waitForCompletion w
         = (Error "Video generation timed out", at_clock (tick env 2000 (clock w) n) w) /\
         ((forall t, timerLag env t = 0%N) ->
          tick env 2000 (clock w) n = clock w + FlowController.maxWaitTime)))) /\
  (forall w : World TikTokController.TikTokControllerState,
     exists n : nat,
       (n <= 60)%nat /\
       (forall k, (k < n)%nat ->
          observe env TikTokController.uploadPoll w (tick env 1000 (clock w) k)
          = Value None) /\
       ((tick env 1000 (clock w) n - clock w < TikTokController.maxWait /\
         observe env TikTokController.uploadPoll w (tick env 1000 (clock w) n)
         = Value (Some tt) /\
         run env TikTokController.waitForUploadComplete w
         = (Value tt, at_clock (tick env 1000 (clock w) n) w))
        \/
        (tick env 1000 (clock w) n - clock w < TikTokController.maxWait /\
         exists msg,
           observe env TikTokController.uploadPoll w (tick env 1000 (clock w) n)
           = Error msg /\
           run env TikTokController.waitForUploadComplete w
           = (Error msg, at_clock (tick env 1000 (clock w) n) w))
        \/
        (TikTokController.maxWait <= tick env 1000 (clock w) n - clock w /\
         run env TikTokController.waitForUploadComplete w
         = (Error "Upload timeout", at_clock (tick env 1000 (clock w) n) w) /\
         ((forall t, timerLag env t = 0%N) ->
          tick env 1000 (clock w) n = clock w + TikTokController.maxWait)))) /\
  (forall (env' : Env) (w : World TikTokController.TikTokControllerState) (t : Z),
     querySelectorAll env t None TIKTOK_SELECTORS.uploadComplete
     = querySelectorAll env' t None TIKTOK_SELECTORS.uploadComplete ->
     querySelectorAll env t None TIKTOK_SELECTORS.uploadProgress
     = querySelectorAll env' t None TIKTOK_SELECTORS.uploadProgress ->
     observe env TikTokController.uploadPoll w t
     = observe env' TikTokController.uploadPoll w t) /\
  (forall (w : World FlowController.FlowControllerState) (t : Z),
     parses env t ->
     if shows_video env t then
       exists videoUrl,
         observe env FlowController.completionPoll w t = Value (Some videoUrl) /\
         signed env t videoUrl = true
     else
       match first_match env t GOOGLE_FLOW_SELECTORS.errorMessage with
       | Some errorElement =>
           observe env FlowController.completionPoll w t
           = Error (textContent_or errorElement "Generation failed")
       | None => observe env FlowController.completionPoll w t = Value None
       end).
Proof.
  assert (Hflow : forall w : World FlowController.FlowControllerState,
     exists n : nat,
       (n <= 150)%nat /\
       (forall k, (k < n)%nat ->
          observe env FlowController.completionPoll w (tick env 2000 (clock w) k)
          = Value None) /\
       ((tick env 2000 (clock w) n - clock w < FlowController.maxWaitTime /\
         exists videoUrl,
           observe env FlowController.completionPoll w (tick env 2000 (clock w) n)
           = Value (Some videoUrl) /\
           run env FlowController.waitForCompletion w
           = (Value videoUrl, at_clock (tick env 2000 (clock w) n) w))
        \/
        (tick env 2000 (clock w) n - clock w < FlowController.maxWaitTime /\
         exists msg,
           observe env FlowController.completionPoll w (tick env 2000 (clock w) n)
           = Error msg /\
           run env FlowController.waitForCompletion w
           = (Error msg, at_clock (tick env 2000 (clock w) n) w))
        \/
        (FlowController.maxWaitTime <= tick env 2000 (clock w) n - clock w /\
         run env FlowController.waitForCompletion w
         = (Error "Video generation timed out", at_clock (tick env 2000 (clock w) n) w) /\
         ((forall t, timerLag env t = 0%N) ->
          tick env 2000 (clock w) n = clock w + FlowController.maxWaitTime)))).
  { intros w.
    destruct (poll_loop_outcome env FlowController.completionPoll
                (Throw "Video generation timed out")
                FlowController.maxWaitTime 2000 w Observer_completionPoll)
      as (n & Hn & Hbefore & Hat); [lia|].
    assert (Hn' : (n <= 150)%nat).
    { unfold FlowController.maxWaitTime in Hn. lia. }
    exists n. split; [exact Hn'|]. split; [exact Hbefore|].
    destruct Hat as [Ha | [Ha | [Hge Hrun]]]; [left; exact Ha | right; left; exact Ha |].
    right. right. split; [exact Hge|]. split; [exact Hrun|].
    intros Hl. rewrite (tick_on_time env 2000 (clock w) n Hl) in * by lia.
    unfold FlowController.maxWaitTime in *. lia. }
  assert (Htiktok : forall w : World TikTokController.TikTokControllerState,
     exists n : nat,
       (n <= 60)%nat /\
       (forall k, (k < n)%nat ->
          observe env TikTokController.uploadPoll w (tick env 1000 (clock w) k)
          = Value None) /\
       ((tick env 1000 (clock w) n - clock w < TikTokController.maxWait /\
         observe env TikTokController.uploadPoll w (tick env 1000 (clock w) n)
         = Value (Some tt) /\
         run env TikTokController.waitForUploadComplete w
         = (Value tt, at_clock (tick env 1000 (clock w) n) w))
        \/
        (tick env 1000 (clock w) n - clock w < TikTokController.maxWait /\
         exists msg,
           observe env TikTokController.uploadPoll w (tick env 1000 (clock w) n)
           = Error msg /\
           run env TikTokController.waitForUploadComplete w
           = (Error msg, at_clock (tick env 1000 (clock w) n) w))
        \/
        (TikTokController.maxWait <= tick env 1000 (clock w) n - clock w /\
         run env TikTokController.waitForUploadComplete w
         = (Error "Upload timeout", at_clock (tick env 1000 (clock w) n) w) /\
         ((forall t, timerLag env t = 0%N) ->
          tick env 1000 (clock w) n = clock w + TikTokController.maxWait)))).
  { intros w.
    destruct (poll_loop_outcome env TikTokController.uploadPoll
                (Throw "Upload timeout")
                TikTokController.maxWait 1000 w Observer_uploadPoll)
      as (n & Hn & Hbefore & Hat); [lia|].
    assert (Hn' : (n <= 60)%nat).
    { unfold TikTokController.maxWait in Hn. lia. }
    exists n. split; [exact Hn'|]. split; [exact Hbefore|].
    destruct Hat as [(Hlt & [] & Ho & Hr) | [Ha | [Hge Hrun]]];
      [left; auto | right; left; exact Ha |].
    right. right. split; [exact Hge|]. split; [exact Hrun|].
    intros Hl. rewrite (tick_on_time env 1000 (clock w) n Hl) in * by lia.
    unfold TikTokController.maxWait in *. lia. }
  split; [|split; [|split; [|split; [|split]]]].
  - intros w Hp. destruct (Hflow w) as (n & Hn & Hbefore & Hat).
    exists n. split; [exact Hn|]. split.
    + intros k Hk. specialize (Hbefore k Hk).
      pose proof (completionPoll_decides env (tick env 2000 (clock w) k) w (Hp _)) as Hd.
      destruct (shows_video env (tick env 2000 (clock w) k)).
      * destruct Hd as (u & Hu & _). congruence.
      * split; [reflexivity|].
        destruct (first_match env (tick env 2000 (clock w) k)
                    GOOGLE_FLOW_SELECTORS.errorMessage); [congruence | reflexivity].
    + pose proof (completionPoll_decides env (tick env 2000 (clock w) n) w (Hp _)) as Hd.
      destruct Hat as [(Hlt & a & Ho & E) | [(Hlt & msg & Ho & E) | Hout]].
      * left. split; [exact Hlt|].
        destruct (shows_video env (tick env 2000 (clock w) n)).
        -- split; [reflexivity|]. destruct Hd as (u & Hu & Hs).
           exists a. split; [congruence | exact E].
        -- destruct (first_match env (tick env 2000 (clock w) n)
                       GOOGLE_FLOW_SELECTORS.errorMessage); congruence.
      * right. left. split; [exact Hlt|].
        destruct (shows_video env (tick env 2000 (clock w) n)).
        -- destruct Hd as (u & Hu & _). congruence.
        -- split; [reflexivity|].
           destruct (first_match env (tick env 2000 (clock w) n)
                       GOOGLE_FLOW_SELECTORS.errorMessage) as [el|]; [|congruence].
           exists el. split; [reflexivity|]. congruence.
      * right. right. exact Hout.
  - intros w Hp. destruct (Htiktok w) as (n & Hn & Hbefore & Hat).
    exists n. split; [exact Hn|]. split.
    + intros k Hk. specialize (Hbefore k Hk).
      destruct (uploadPoll_observes env (tick env 1000 (clock w) k) w (Hp _))
        as [(el & els & _ & Ho) | (Hq & _)]; [congruence|].
      unfold first_match. now rewrite Hq.
    + destruct Hat as [(Hlt & Ho & E) | [(Hlt & msg & Ho & E) | Hout]].
      * left. split; [exact Hlt|]. split; [|exact E].
        destruct (uploadPoll_observes env (tick env 1000 (clock w) n) w (Hp _))
          as [(el & els & Hq & _) | (_ & Ho')]; [|congruence].
        unfold first_match. rewrite Hq. discriminate.
      * exfalso.
        destruct (uploadPoll_observes env (tick env 1000 (clock w) n) w (Hp _))
          as [(el & els & _ & Ho') | (_ & Ho')]; congruence.
      * right. exact Hout.
  - exact Hflow.
  - exact Htiktok.
  - intros env' w t. apply uploadPoll_reads.
  - intros w t. apply completionPoll_decides.
Qed.

Lemma completion_loops_outcome_witness :
  (exists videoUrl,
     observe videoPage FlowController.completionPoll (flowWorld 0) 4000
     = Value (Some videoUrl) /\
     signed videoPage 4000 videoUrl = true) /\
  observe videoPage FlowController.completionPoll (flowWorld 0) 2000 = Value None /\
  observe uploadErrorPage TikTokController.uploadPoll (tiktokWorld 0) 0
  = observe emptyPage TikTokController.uploadPoll (tiktokWorld 0) 0.
Proof.
  split; [|split].
  - exact (proj2 (proj2 (proj2 (proj2 (proj2 (completion_loops_outcome videoPage)))))
             (flowWorld 0) 4000 (videoPage_parses 4000)).
  - exact (proj2 (proj2 (proj2 (proj2 (proj2 (completion_loops_outcome videoPage)))))
             (flowWorld 0) 2000 (videoPage_parses 2000)).
  - apply (proj1 (proj2 (proj2 (proj2 (proj2 (completion_loops_outcome uploadErrorPage))))));
      reflexivity.
Defined.

(** ** The loops are given their turns *)

Section Terminates.
Context {S : Type}.

Lemma terminates_Observer {A} (p : Prog S A) : Observer p -> terminates p.
Proof. intros Hp env w. now apply Observer_ended. Qed.

Lemma terminates_bind {A B} (p : Prog S A) (f : A -> Prog S B) :
  terminates p -> (forall a, terminates (f a)) -> terminates (bind p f).
Proof.
  intros Hp Hf env w. rewrite run_bind. specialize (Hp env w).
  destruct (run env p w) as [[a|msg| |] w1]; simpl in *;
    [apply Hf | exact I | contradiction | contradiction].
Qed.

Lemma terminates_try_catch {A} (p : Prog S A) (h : string -> Prog S A) :
  terminates p -> (forall m, terminates (h m)) -> terminates (try_catch p h).
Proof.
  intros Hp Hh env w. rewrite run_try_catch. specialize (Hp env w).
  destruct (run env p w) as [[a|msg| |] w1]; simpl in *;
    [exact I | apply Hh | contradiction | contradiction].
Qed.

Lemma terminates_try_finally {A} (p : Prog S A) (f : Prog S unit) :
  terminates p -> terminates f -> terminates (try_finally p f).
Proof.
  intros Hp Hf env w. rewrite run_try_finally. specialize (Hp env w).
  destruct (run env p w) as [[a|msg| |] w1]; simpl in *;
    [| |contradiction|contradiction];
    rewrite run_bind; specialize (Hf env w1);
    destruct (run env f w1) as [[[]|msg'| |] w2]; simpl in *;
    first [exact I | contradiction].
Qed.

Lemma terminates_loop {A} (timeout interval : Z) (body : Prog S (option A))
    (after : Prog S A) :
  Observer body -> 0 < interval -> terminates after ->
  terminates (startTime <- Date_now ;;
              poll (poll_fuel timeout interval) startTime timeout interval body after).
Proof.
  intros Hb Hi Ha env w.
  destruct (poll_loop_outcome env body after timeout interval w Hb Hi)
    as (n & _ & _ & [(_ & a & _ & E) | [(_ & msg & _ & E) | (_ & E)]]);
    rewrite E; simpl; [exact I | exact I | apply Ha].
Qed.

Lemma terminates_DateNow {A} (k : Z -> Prog S A) :
  (forall t, terminates (k t)) -> terminates (DateNow k).
Proof. intros H env w. apply H. Qed.

Lemma terminates_Sleep {A} (ms : Z) (k : Prog S A) :
  terminates k -> terminates (Sleep ms k).
Proof. intros H env w. apply H. Qed.

Lemma terminates_MathRandom {A} (n : N) (k : Z -> Prog S A) :
  (forall r, terminates (k r)) -> terminates (MathRandom n k).
Proof. intros H env w. apply H. Qed.

Lemma terminates_QuerySelectorAll {A} root selector (k : QueryResult -> Prog S A) :
  (forall r, terminates (k r)) -> terminates (QuerySelectorAll root selector k).
Proof. intros H env w. apply H. Qed.

Lemma terminates_LocationHref {A} (k : string -> Prog S A) :
  (forall u, terminates (k u)) -> terminates (LocationHref k).
Proof. intros H env w. apply H. Qed.

Lemma terminates_ToISOString {A} (t : Z) (k : string -> Prog S A) :
  (forall u, terminates (k u)) -> terminates (ToISOString t k).
Proof. intros H env w. apply H. Qed.

Lemma terminates_Fetch {A} (url : string) (k : FetchResult -> Prog S A) :
  (forall r, terminates (k r)) -> terminates (Fetch url k).
Proof.
  intros H env w. simpl. destruct (fetch env (clock w) url) as [r d]. apply H.
Qed.

Lemma terminates_Do {A} (e : Effect) (k : Prog S A) :
  terminates k -> terminates (Do e k).
Proof. intros H env w. apply H. Qed.

Lemma terminates_GetState {A} (k : S -> Prog S A) :
  (forall s, terminates (k s)) -> terminates (GetState k).
Proof. intros H env w. apply H. Qed.

Lemma terminates_SetState {A} (s : S) (k : Prog S A) :
  terminates k -> terminates (SetState s k).
Proof. intros H env w. apply H. Qed.

Lemma terminates_Ret {A} (a : A) : terminates (S := S) (Ret a).
Proof. intros env w. exact I. Qed.

Lemma terminates_Throw {A} (msg : string) : terminates (S := S) (A := A) (Throw msg).
Proof. intros env w. exact I. Qed.

End Terminates.

Create HintDb terminates discriminated.

Ltac terminates_step :=
  match goal with
  | |- terminates (bind Date_now (fun s => poll (poll_fuel _ _) s _ _ _ _)) =>
      apply terminates_loop; [observer | lia | ]
  | |- terminates (bind _ _) => apply terminates_bind; [|intros]
  | |- terminates (try_catch _ _) => apply terminates_try_catch; [|intros]
  | |- terminates (try_finally _ _) => apply terminates_try_finally
  | |- terminates (match ?x with _ => _ end) => destruct x
  | |- terminates (Ret _) => apply terminates_Ret
  | |- terminates (Throw _) => apply terminates_Throw
  | |- terminates (DateNow _) => apply terminates_DateNow; intros
  | |- terminates (Sleep _ _) => apply terminates_Sleep
  | |- terminates (MathRandom _ _) => apply terminates_MathRandom; intros
  | |- terminates (QuerySelectorAll _ _ _) => apply terminates_QuerySelectorAll; intros
  | |- terminates (LocationHref _) => apply terminates_LocationHref; intros
  | |- terminates (ToISOString _ _) => apply terminates_ToISOString; intros
  | |- terminates (Fetch _ _) => apply terminates_Fetch; intros
  | |- terminates (Do _ _) => apply terminates_Do
  | |- terminates (GetState _) => apply terminates_GetState; intros
  | |- terminates (SetState _ _) => apply terminates_SetState
  | |- terminates _ => solve [auto with terminates]
  end.

Ltac terminating := unfold when, sleep, do; repeat terminates_step.

Lemma terminates_document_querySelector {S} (selector : string) :
  terminates (S := S) (document_querySelector selector).
Proof. apply terminates_Observer. auto with observer. Qed.
#[local] Hint Resolve terminates_document_querySelector : terminates.

Lemma terminates_querySelectorAll_of {S} (root : option nat) (selector : string) :
  terminates (S := S) (querySelectorAll_of root selector).
Proof. apply terminates_Observer. auto with observer. Qed.
#[local] Hint Resolve terminates_querySelectorAll_of : terminates.

Lemma terminates_Date_now {S} : terminates (S := S) Date_now.
Proof. apply terminates_Observer. unfold Date_now. observer. Qed.
#[local] Hint Resolve terminates_Date_now : terminates.

Module FlowTerminates.
Import FlowController.

Lemma terminates_waitForElement selector timeout :
  terminates (waitForElement selector timeout).
Proof. unfold waitForElement, querySelectorSafe. terminating. Qed.
#[export] Hint Resolve terminates_waitForElement : terminates.

Lemma terminates_waitForElements selector timeout :
  terminates (waitForElements selector timeout).
Proof. unfold waitForElements. terminating. Qed.
#[export] Hint Resolve terminates_waitForElements : terminates.

Lemma terminates_typeChars n typed text : terminates (typeChars n typed text).
Proof.
  revert typed. induction text as [|c text IH]; intros typed; simpl; terminating.
Qed.
#[export] Hint Resolve terminates_typeChars : terminates.

Lemma terminates_clickElement element : terminates (clickElement element).
Proof. unfold clickElement. terminating. Qed.
#[export] Hint Resolve terminates_clickElement : terminates.

Lemma terminates_findButtonByText texts : terminates (findButtonByText texts).
Proof. unfold findButtonByText. terminating. Qed.
#[export] Hint Resolve terminates_findButtonByText : terminates.

Lemma terminates_trySetAspectRatio aspectRatio :
  terminates (trySetAspectRatio aspectRatio).
Proof. unfold trySetAspectRatio. terminating. Qed.
#[export] Hint Resolve terminates_trySetAspectRatio : terminates.

Lemma terminates_configureSettings request : terminates (configureSettings request).
Proof. unfold configureSettings. terminating. Qed.
#[export] Hint Resolve terminates_configureSettings : terminates.

Lemma terminates_startGeneration : terminates startGeneration.
Proof. unfold startGeneration. terminating. Qed.
#[export] Hint Resolve terminates_startGeneration : terminates.

Lemma terminates_waitForCompletion : terminates waitForCompletion.
Proof.
  unfold waitForCompletion.
  apply terminates_loop; [apply Observer_completionPoll | lia | apply terminates_Throw].
Qed.
#[export] Hint Resolve terminates_waitForCompletion : terminates.

(** [handleCreateVideo] always comes to an end: with a response, since it
    catches what its steps throw. *)
Lemma handleCreateVideo_responds (env : Env) (request : VideoCreationRequest)
    (w : World FlowControllerState) :
  exists response, fst (run env (handleCreateVideo request) w) = Value response.
Proof.
  assert (Ht : terminates (handleCreateVideo request)).
  { unfold handleCreateVideo, createVideo, enforceRateLimit, navigateToCreatePage,
      enterPrompt, typeText, assign.
    terminating. }
  assert (He : forall msg, fst (run env (handleCreateVideo request) w) <> Error msg).
  { intros msg. unfold handleCreateVideo. rewrite run_bind.
    change (run env (GetState Ret) w) with (Value (state w), w). cbv beta iota.
    destruct (isProcessing (state w)); [discriminate|].
    rewrite run_bind. change (run env (assign ?f) ?x)
      with (Value tt, with_state (f (state x)) x). cbv beta iota.
    rewrite run_bind. change (run env (assign ?f) ?x)
      with (Value tt, with_state (f (state x)) x). cbv beta iota.
    rewrite run_try_finally, run_try_catch.
    match goal with |- context [run env (createVideo request) ?w1] =>
      destruct (run env (createVideo request) w1) as [[a|m| |] w2] end;
      cbv beta iota; discriminate. }
  specialize (Ht env w).
  destruct (fst (run env (handleCreateVideo request) w)) as [response|msg| |];
    [eauto | destruct (He msg eq_refl) | contradiction | contradiction].
Qed.

End FlowTerminates.

Module TikTokTerminates.
Import TikTokController.

Lemma terminates_TikTok_waitForElement selector timeout :
  terminates (waitForElement selector timeout).
Proof. unfold waitForElement. terminating. Qed.
#[export] Hint Resolve terminates_TikTok_waitForElement : terminates.

Lemma terminates_TikTok_typeChars n typed text : terminates (typeChars n typed text).
Proof.
  revert typed. induction text as [|c text IH]; intros typed; simpl; terminating.
Qed.
#[export] Hint Resolve terminates_TikTok_typeChars : terminates.

Lemma terminates_TikTok_clickElement element : terminates (clickElement element).
Proof. unfold clickElement. terminating. Qed.
#[export] Hint Resolve terminates_TikTok_clickElement : terminates.

Lemma terminates_waitForUploadComplete : terminates waitForUploadComplete.
Proof.
  unfold waitForUploadComplete.
  apply terminates_loop; [apply Observer_uploadPoll | lia | apply terminates_Throw].
Qed.
#[export] Hint Resolve terminates_waitForUploadComplete : terminates.

Lemma terminates_setVisibility v : terminates (setVisibility v).
Proof. unfold setVisibility. terminating. Qed.
#[export] Hint Resolve terminates_setVisibility : terminates.

Lemma terminates_schedulePost timestamp : terminates (schedulePost timestamp).
Proof. unfold schedulePost. terminating. Qed.
#[export] Hint Resolve terminates_schedulePost : terminates.

Lemma terminates_publishPost : terminates publishPost.
Proof. unfold publishPost. terminating. Qed.
#[export] Hint Resolve terminates_publishPost : terminates.

Lemma terminates_upload request : terminates (upload request).
Proof.
  unfold upload, downloadVideo, addCaption, typeText, extractPostId. terminating.
Qed.

End TikTokTerminates.

(** ** One command at a time *)

(** [cancelGeneration] on a page with a cancel button: the button is
    scrolled to, hovered and clicked, and the flag and the job id are
    cleared, whatever they were. *)
Lemma cancelGeneration_clicks (env : Env) (w : World FlowController.FlowControllerState)
    (button : Element) (rest : list Element) :
  querySelectorAll env (clock w) None GOOGLE_FLOW_SELECTORS.cancelButton
  = Matches (button :: rest) ->
  run env FlowController.cancelGeneration w
  = (Value true,
     {| clock := wake env (wake env (wake env (clock w) 200) 100) 300;
        state := {| FlowController.isProcessing := false;
                    FlowController.currentJobId := None;
                    FlowController.lastActionTime :=
                      FlowController.lastActionTime (state w) |};
        trace := (trace w
                  ++ [(clock w, scrollIntoView (node button));
                      (wake env (clock w) 200,
                       dispatchEvent (Some (node button)) "mouseenter");
                      (wake env (wake env (clock w) 200) 100, click (node button))])%list
     |}).
Proof.
  intros Hq.
  unfold FlowController.cancelGeneration, document_querySelector, querySelectorAll_of.
  cbn [bind run]. rewrite Hq. simpl.
  unfold with_state, at_clock, with_effect. simpl. rewrite <- !app_assoc. reflexivity.
Qed.

(** C7, as the specification states it, fails: the flag does not keep a
    second command out.  With a [CREATE_VIDEO] command in progress, a
    [CANCEL_GENERATION] that arrives is not answered that the agent is
    busy: it clicks the cancel button and clears the flag.  The
    [CREATE_VIDEO] that arrives next is then taken on and types its prompt
    into the page, while the first command has not come to its end. *)
Lemma cancel_is_carried_out_while_busy :
  FlowController.isProcessing (state busyFlowWorld) = true /\
  FlowController.currentJobId (state busyFlowWorld) = Some "job-0" /\
  run cancelPage FlowController.cancelGeneration busyFlowWorld
  = (Value true,
     {| clock := 5600;
        state := {| FlowController.isProcessing := false;
                    FlowController.currentJobId := None;
                    FlowController.lastActionTime := 1000 |};
        trace := [(1000, click 1); (5000, scrollIntoView 5);
                  (5200, dispatchEvent (Some 5%nat) "mouseenter"); (5300, click 5)] |}) /\
  fst (run cancelPage (FlowController.handleCreateVideo sampleRequest)
         (snd (run cancelPage FlowController.cancelGeneration busyFlowWorld)))
  = Value {| FlowController.success := false;
             FlowController.videoUrl := None;
             FlowController.error := Some "Generation did not start" |} /\
  values_set 1
    (trace (snd (run cancelPage (FlowController.handleCreateVideo sampleRequest)
                   (snd (run cancelPage FlowController.cancelGeneration busyFlowWorld)))))
  = [""; "H"; "Hi"] /\
  click_times
    (trace (snd (run cancelPage (FlowController.handleCreateVideo sampleRequest)
                   (snd (run cancelPage FlowController.cancelGeneration busyFlowWorld)))))
  = [1000; 5300; 12460].
Proof. repeat split; vm_compute; reflexivity. Qed.

(** C7, amended.  A [CREATE_VIDEO] command that arrives while the
    in-progress flag of the video-creation agent is set, and an
    [UPLOAD_VIDEO] command that arrives while that of the upload agent is
    set, is answered at once with a failure that says the agent is busy;
    nothing is done to the page, no time passes and the state of the
    agent, which holds no queue, is left as it was.  The flag keeps no
    other command out: a [CANCEL_GENERATION] that arrives while it is set
    is carried out on a page with a cancel button, which it clicks, and it
    clears the flag and the job id of the command in progress. *)
Theorem busy_agent_rejects_command (env : Env) :
  (forall (request : FlowController.VideoCreationRequest)
          (w : World FlowController.FlowControllerState),
     FlowController.isProcessing (state w) = true ->
     run env (FlowController.handleCreateVideo request) w
     = (Value {| FlowController.success := false;
                 FlowController.videoUrl := None;
                 FlowController.error := Some "Another video is being processed" |},
        w)) /\
  (forall (request : TikTokController.VideoUploadRequest)
          (w : World TikTokController.TikTokControllerState),
     TikTokController.isUploading (state w) = true ->
     run env (TikTokController.handleUploadVideo request) w
     = (Value {| TikTokController.success := false;
                 TikTokController.postId := None;
                 TikTokController.error := Some "Another upload in progress" |},
        w)) /\
  (forall (w : World FlowController.FlowControllerState)
          (button : Element) (rest : list Element),
     FlowController.isProcessing (state w) = true ->
     querySelectorAll env (clock w) None GOOGLE_FLOW_SELECTORS.cancelButton
     = Matches (button :: rest) ->
     exists w',
       run env FlowController.cancelGeneration w = (Value true, w') /\
       FlowController.isProcessing (state w') = false /\
       FlowController.currentJobId (state w') = None /\
       trace w'
       = (trace w
          ++ [(clock w, scrollIntoView (node button));
              (wake env (clock w) 200, dispatchEvent (Some (node button)) "mouseenter");
              (wake env (wake env (clock w) 200) 100, click (node button))])%list).
Proof.
  split; [|split].
  - intros request w Hbusy.
    unfold FlowController.handleCreateVideo. rewrite run_bind.
    change (run env (GetState Ret) w) with (Value (state w), w).
    cbv beta iota. rewrite Hbusy. reflexivity.
  - intros request w Hbusy.
    unfold TikTokController.handleUploadVideo. rewrite run_bind.
    change (run env (GetState Ret) w) with (Value (state w), w).
    cbv beta iota. rewrite Hbusy. reflexivity.
  - intros w button rest _ Hq.
    eexists. split; [exact (cancelGeneration_clicks env w button rest Hq)|].
    repeat split.
Qed.

Lemma busy_agent_rejects_command_witness :
  run settingsPage (FlowController.handleCreateVideo sampleRequest) busyFlowWorld
  = (Value {| FlowController.success := false;
              FlowController.videoUrl := None;
              FlowController.error := Some "Another video is being processed" |},
     busyFlowWorld) /\
  run uploadErrorPage (TikTokController.handleUploadVideo sampleUpload) busyTikTokWorld
  = (Value {| TikTokController.success := false;
              TikTokController.postId := None;
              TikTokController.error := Some "Another upload in progress" |},
     busyTikTokWorld) /\
  exists w',
    run cancelPage FlowController.cancelGeneration busyFlowWorld = (Value true, w') /\
    FlowController.isProcessing (state w') = false /\
    FlowController.currentJobId (state w') = None /\
    trace w'
    = (trace busyFlowWorld
       ++ [(5000, scrollIntoView 5); (5200, dispatchEvent (Some 5%nat) "mouseenter");
           (5300, click 5)])%list.
Proof.
  split; [|split].
  - apply (proj1 (busy_agent_rejects_command settingsPage)). reflexivity.
  - apply (proj1 (proj2 (busy_agent_rejects_command uploadErrorPage))). reflexivity.
  - apply (proj2 (proj2 (busy_agent_rejects_command cancelPage)) busyFlowWorld
             cancelButton []);
      reflexivity.
Defined.

(** ** The rate limiter *)

Create HintDb stateless discriminated.

Ltac stateless_step :=
  match goal with
  | |- Stateless (bind _ _) => apply Stateless_bind; [|intros]
  | |- Stateless (try_catch _ _) => apply Stateless_try_catch; [|intros]
  | |- Stateless (poll _ _ _ _ _ _) => apply Stateless_poll
  | |- Stateless (match ?x with _ => _ end) => destruct x
  | |- Stateless (Ret _) => constructor
  | |- Stateless (Throw _) => constructor
  | |- Stateless Unload => constructor
  | |- Stateless (DateNow _) => constructor; intros
  | |- Stateless (Sleep _ _) => constructor
  | |- Stateless (MathRandom _ _) => constructor; intros
  | |- Stateless (QuerySelectorAll _ _ _) => constructor; intros
  | |- Stateless (LocationHref _) => constructor; intros
  | |- Stateless (NewURL _ _) => constructor; intros
  | |- Stateless (ToISOString _ _) => constructor; intros
  | |- Stateless (Fetch _ _) => constructor; intros
  | |- Stateless (Do _ _) => constructor
  | |- Stateless _ => solve [auto with stateless]
  end.

Ltac stateless := unfold when, sleep, do, Date_now; repeat stateless_step.

Lemma Stateless_document_querySelector {S} (selector : string) :
  Stateless (S := S) (document_querySelector selector).
Proof. apply Observer_Stateless. auto with observer. Qed.
#[local] Hint Resolve Stateless_document_querySelector : stateless.

Lemma Stateless_querySelectorAll_of {S} (root : option nat) (selector : string) :
  Stateless (S := S) (querySelectorAll_of root selector).
Proof. apply Observer_Stateless. auto with observer. Qed.
#[local] Hint Resolve Stateless_querySelectorAll_of : stateless.

Module FlowStateless.
Import FlowController.

Lemma Stateless_waitForElement selector timeout :
  Stateless (waitForElement selector timeout).
Proof. unfold waitForElement, querySelectorSafe. stateless. Qed.
#[export] Hint Resolve Stateless_waitForElement : stateless.

Lemma Stateless_waitForElements selector timeout :
  Stateless (waitForElements selector timeout).
Proof. unfold waitForElements. stateless. Qed.
#[export] Hint Resolve Stateless_waitForElements : stateless.

Lemma Stateless_typeChars n typed text : Stateless (typeChars n typed text).
Proof.
  revert typed. induction text as [|c text IH]; intros typed; simpl; stateless.
Qed.
#[export] Hint Resolve Stateless_typeChars : stateless.

Lemma Stateless_typeText element text : Stateless (typeText element text).
Proof. unfold typeText. stateless. Qed.
#[export] Hint Resolve Stateless_typeText : stateless.

Lemma Stateless_clickElement element : Stateless (clickElement element).
Proof. unfold clickElement. stateless. Qed.
#[export] Hint Resolve Stateless_clickElement : stateless.

Lemma Stateless_findButtonByText texts : Stateless (findButtonByText texts).
Proof. unfold findButtonByText. stateless. Qed.
#[export] Hint Resolve Stateless_findButtonByText : stateless.

Lemma Stateless_navigateToCreatePage : Stateless navigateToCreatePage.
Proof. unfold navigateToCreatePage. stateless. Qed.
#[export] Hint Resolve Stateless_navigateToCreatePage : stateless.

Lemma Stateless_enterPrompt prompt : Stateless (enterPrompt prompt).
Proof. unfold enterPrompt. stateless. Qed.
#[export] Hint Resolve Stateless_enterPrompt : stateless.

Lemma Stateless_trySetAspectRatio aspectRatio : Stateless (trySetAspectRatio aspectRatio).
Proof. unfold trySetAspectRatio. stateless. Qed.
#[export] Hint Resolve Stateless_trySetAspectRatio : stateless.

Lemma Stateless_configureSettings request : Stateless (configureSettings request).
Proof. unfold configureSettings. stateless. Qed.
#[export] Hint Resolve Stateless_configureSettings : stateless.

Lemma Stateless_startGeneration : Stateless startGeneration.
Proof. unfold startGeneration. stateless. Qed.
#[export] Hint Resolve Stateless_startGeneration : stateless.

Lemma Stateless_waitForCompletion : Stateless waitForCompletion.
Proof.
  unfold waitForCompletion. stateless.
  apply Observer_Stateless, Observer_completionPoll.
Qed.
#[export] Hint Resolve Stateless_waitForCompletion : stateless.

End FlowStateless.

Module TikTokStateless.
Import TikTokController.

Lemma Stateless_TikTok_waitForElement selector timeout :
  Stateless (waitForElement selector timeout).
Proof. unfold waitForElement. stateless. Qed.
#[export] Hint Resolve Stateless_TikTok_waitForElement : stateless.

Lemma Stateless_TikTok_typeChars n typed text : Stateless (typeChars n typed text).
Proof.
  revert typed. induction text as [|c text IH]; intros typed; simpl; stateless.
Qed.
#[export] Hint Resolve Stateless_TikTok_typeChars : stateless.

Lemma Stateless_TikTok_typeText element text : Stateless (typeText element text).
Proof. unfold typeText. stateless. Qed.
#[export] Hint Resolve Stateless_TikTok_typeText : stateless.

Lemma Stateless_TikTok_clickElement element : Stateless (clickElement element).
Proof. unfold clickElement. stateless. Qed.
#[export] Hint Resolve Stateless_TikTok_clickElement : stateless.

Lemma Stateless_TikTok_downloadVideo url : Stateless (downloadVideo url).
Proof. unfold downloadVideo. stateless. Qed.
#[export] Hint Resolve Stateless_TikTok_downloadVideo : stateless.

Lemma Stateless_TikTok_waitForUploadComplete : Stateless waitForUploadComplete.
Proof.
  unfold waitForUploadComplete. stateless.
  apply Observer_Stateless, Observer_uploadPoll.
Qed.
#[export] Hint Resolve Stateless_TikTok_waitForUploadComplete : stateless.

Lemma Stateless_TikTok_addCaption caption : Stateless (addCaption caption).
Proof. unfold addCaption. stateless. Qed.
#[export] Hint Resolve Stateless_TikTok_addCaption : stateless.

Lemma Stateless_TikTok_setVisibility v : Stateless (setVisibility v).
Proof. unfold setVisibility. stateless. Qed.
#[export] Hint Resolve Stateless_TikTok_setVisibility : stateless.

Lemma Stateless_TikTok_schedulePost timestamp : Stateless (schedulePost timestamp).
Proof. unfold schedulePost. stateless. Qed.
#[export] Hint Resolve Stateless_TikTok_schedulePost : stateless.

Lemma Stateless_TikTok_publishPost : Stateless publishPost.
Proof. unfold publishPost. stateless. Qed.
#[export] Hint Resolve Stateless_TikTok_publishPost : stateless.

Lemma Stateless_TikTok_extractPostId : Stateless extractPostId.
Proof. unfold extractPostId. stateless. Qed.
#[export] Hint Resolve Stateless_TikTok_extractPostId : stateless.

Lemma Stateless_TikTok_navigate url : Stateless (navigate url).
Proof. unfold navigate. stateless. Qed.
#[export] Hint Resolve Stateless_TikTok_navigate : stateless.

Lemma Stateless_TikTok_upload request : Stateless (upload request).
Proof. unfold upload. stateless. Qed.
#[export] Hint Resolve Stateless_TikTok_upload : stateless.

End TikTokStateless.

Import FlowStateless TikTokStateless.

Section Limiter.
Context (env : Env).

Lemma released_spec (now last : Z) :
  last + RATE_LIMITS.MIN_ACTION_DELAY_MS <= released env now last /\
  now <= released env now last.
Proof.
  unfold released.
  destruct (Z.ltb_spec (now - last) RATE_LIMITS.MIN_ACTION_DELAY_MS) as [H|H].
  - pose proof (wake_interval env now (RATE_LIMITS.MIN_ACTION_DELAY_MS - (now - last))).
    pose proof (wake_ge env now (RATE_LIMITS.MIN_ACTION_DELAY_MS - (now - last))).
    lia.
  - lia.
Qed.

(** [enforceRateLimit] waits until [MIN_ACTION_DELAY_MS] have passed since
    the last recorded action and records the instant it lets go. *)
Lemma flow_enforceRateLimit (w : World FlowController.FlowControllerState) :
  run env FlowController.enforceRateLimit w
  = (Value tt,
     with_state
       (FlowController.set_lastActionTime
          (released env (clock w) (FlowController.lastActionTime (state w))) (state w))
       (at_clock (released env (clock w) (FlowController.lastActionTime (state w))) w)).
Proof.
  unfold FlowController.enforceRateLimit, released. simpl.
  destruct (_ <? _)%Z; simpl; [reflexivity|].
  destruct w. reflexivity.
Qed.

Lemma tiktok_enforceRateLimit (w : World TikTokController.TikTokControllerState) :
  run env TikTokController.enforceRateLimit w
  = (Value tt,
     with_state
       (TikTokController.set_lastActionTime
          (released env (clock w) (TikTokController.lastActionTime (state w))) (state w))
       (at_clock (released env (clock w) (TikTokController.lastActionTime (state w))) w)).
Proof.
  unfold TikTokController.enforceRateLimit, released. simpl.
  destruct (_ <? _)%Z; simpl; [reflexivity|].
  destruct w. reflexivity.
Qed.

(** From the world [w2] a program reaches a world in which everything new
    in the trace happened at the clock of [w2] or later. *)
Lemma run_after {S A} (p : Prog S A) (w2 : World S) (t : Z) (tr0 : list (Z * Effect)) :
  clock w2 = t ->
  exists tr,
    trace (snd (run env p w2)) = (trace w2 ++ tr)%list /\
    Forall (fun e => t <= fst e) tr /\
    t <= clock (snd (run env p w2)).
Proof.
  intros <-. destruct (run_extends env p w2) as [Hc (tr & E & F)].
  exists tr. auto.
Qed.

(** *** Keeping a field of the state *)

Lemma keeps_Stateless {S A B} (field : S -> B) (p : Prog S A) :
  Stateless p -> keeps env field p.
Proof. intros Hp w. now rewrite Stateless_run. Qed.

Lemma keeps_bind {S A B C} (field : S -> C) (p : Prog S A) (f : A -> Prog S B) :
  keeps env field p -> (forall a, keeps env field (f a)) -> keeps env field (bind p f).
Proof.
  intros Hp Hf w. rewrite run_bind. specialize (Hp w).
  destruct (run env p w) as [[a|msg| |] w1]; simpl in *; auto.
  now rewrite Hf.
Qed.

Lemma keeps_try_catch {S A C} (field : S -> C) (p : Prog S A) (h : string -> Prog S A) :
  keeps env field p -> (forall m, keeps env field (h m)) ->
  keeps env field (try_catch p h).
Proof.
  intros Hp Hh w. rewrite run_try_catch. specialize (Hp w).
  destruct (run env p w) as [[a|msg| |] w1]; simpl in *; auto.
  now rewrite Hh.
Qed.

Lemma keeps_try_finally {S A C} (field : S -> C) (p : Prog S A) (f : Prog S unit) :
  keeps env field p -> keeps env field f -> keeps env field (try_finally p f).
Proof.
  intros Hp Hf w. rewrite run_try_finally. specialize (Hp w).
  destruct (run env p w) as [[a|msg| |] w1]; simpl in *; auto;
    rewrite run_bind; specialize (Hf w1);
    destruct (run env f w1) as [[[]|msg'| |] w2]; simpl in *; congruence.
Qed.

(** What comes after the first statement of a [try] block runs from the
    world that statement leaves. *)
Lemma run_after_first {S A B} (p : Prog S A) (f : A -> Prog S B)
    (h : string -> Prog S B) (fin : Prog S unit) (w1 w2 : World S) (a : A) :
  run env p w1 = (Value a, w2) ->
  run env (try_finally (try_catch (bind p f) h) fin) w1
  = run env (try_finally (try_catch (f a) h) fin) w2.
Proof.
  intros H. rewrite !run_try_finally, !run_try_catch, run_bind, H. reflexivity.
Qed.

End Limiter.

(** C9, as the specification states it, fails: on a page with a duration
    menu and an aspect-ratio menu, one [CREATE_VIDEO] command clicks the
    30-second entry and, 600 ms later, the aspect-ratio menu; the rate
    limiter ran once, when the command started. *)
Lemma clicks_closer_than_min_delay :
  click_times
    (trace (snd (run settingsPage (FlowController.handleCreateVideo sampleRequest)
                     (flowWorld 0))))
  = [1560; 2460; 3060] /\
  3060 - 2460 < RATE_LIMITS.MIN_ACTION_DELAY_MS /\
  spaced RATE_LIMITS.MIN_ACTION_DELAY_MS
    (click_times
       (trace (snd (run settingsPage (FlowController.handleCreateVideo sampleRequest)
                        (flowWorld 0)))))
  = false /\
  FlowController.lastActionTime
    (state (snd (run settingsPage (FlowController.handleCreateVideo sampleRequest)
                     (flowWorld 0))))
  = 700.
Proof. repeat split; vm_compute; reflexivity. Qed.

(** C9, amended.  A [CREATE_VIDEO] command and an [UPLOAD_VIDEO] command
    enforce the minimum delay once, before they touch the page: there is
    an instant, at least [MIN_ACTION_DELAY_MS] after the action time the
    agent had recorded, that the command records as the new action time
    and that no effect of the command precedes.  The interactions inside
    the command are not rate limited one by one; the fixed pauses of
    [clickElement] and [typeText] alone space them.  The third command
    that acts on a page, [CANCEL_GENERATION], enforces no delay at all: it
    clicks the cancel button after the two pauses of [clickElement],
    however recent the recorded action time is, and records none. *)
Theorem rate_limit_enforced_once_per_command (env : Env) :
  (forall (request : FlowController.VideoCreationRequest)
          (w : World FlowController.FlowControllerState),
     FlowController.isProcessing (state w) = false ->
     exists (t : Z) (tr : list (Z * Effect)),
       FlowController.lastActionTime (state w) + RATE_LIMITS.MIN_ACTION_DELAY_MS <= t /\
       clock w <= t /\
       FlowController.lastActionTime
         (state (snd (run env (FlowController.handleCreateVideo request) w))) = t /\
       trace (snd (run env (FlowController.handleCreateVideo request) w))
       = (trace w ++ tr)%list /\
       Forall (fun e => t <= fst e) tr) /\
  (forall (request : TikTokController.VideoUploadRequest)
          (w : World TikTokController.TikTokControllerState),
     TikTokController.isUploading (state w) = false ->
     exists (t : Z) (tr : list (Z * Effect)),
       TikTokController.lastActionTime (state w) + RATE_LIMITS.MIN_ACTION_DELAY_MS <= t /\
       clock w <= t /\
       TikTokController.lastActionTime
         (state (snd (run env (TikTokController.handleUploadVideo request) w))) = t /\
       trace (snd (run env (TikTokController.handleUploadVideo request) w))
       = (trace w ++ tr)%list /\
       Forall (fun e => t <= fst e) tr) /\
  (forall (w : World FlowController.FlowControllerState)
          (button : Element) (rest : list Element),
     querySelectorAll env (clock w) None GOOGLE_FLOW_SELECTORS.cancelButton
     = Matches (button :: rest) ->
     click_times (trace (snd (run env FlowController.cancelGeneration w)))
     = (click_times (trace w) ++ [wake env (wake env (clock w) 200) 100])%list /\
     FlowController.lastActionTime (state (snd (run env FlowController.cancelGeneration w)))
     = FlowController.lastActionTime (state w)).
Proof.
  split; [|split]; [intros request w Hidle | intros request w Hidle | intros w button rest Hq].
  - pose proof (released_spec env (clock w) (FlowController.lastActionTime (state w)))
      as [Hr1 Hr2].
    exists (released env (clock w) (FlowController.lastActionTime (state w))).
    unfold FlowController.handleCreateVideo. rewrite run_bind.
    change (run env (GetState Ret) w) with (Value (state w), w).
    cbv beta iota. rewrite Hidle.
    rewrite run_bind. change (run env (FlowController.assign ?f) ?x)
      with (Value tt, with_state (f (state x)) x).
    cbv beta iota.
    rewrite run_bind. change (run env (FlowController.assign ?f) ?x)
      with (Value tt, with_state (f (state x)) x).
    cbv beta iota. unfold FlowController.createVideo.
    erewrite run_after_first by apply flow_enforceRateLimit.
    match goal with |- context [run env ?p ?w2] =>
      assert (Hk : keeps env FlowController.lastActionTime p);
      [| destruct (run_after env p w2 (clock w2) [] eq_refl) as (tr & Ht & Hf & _);
         exists tr;
         split; [exact Hr1|]; split; [exact Hr2|]; split; [exact (Hk w2)|];
         split; [exact Ht | exact Hf] ]
    end.
    apply keeps_try_finally; [apply keeps_try_catch|].
    + apply keeps_Stateless. stateless.
    + intros m. apply keeps_Stateless. stateless.
    + intros x. reflexivity.
  - pose proof (released_spec env (clock w) (TikTokController.lastActionTime (state w)))
      as [Hr1 Hr2].
    exists (released env (clock w) (TikTokController.lastActionTime (state w))).
    unfold TikTokController.handleUploadVideo. rewrite run_bind.
    change (run env (GetState Ret) w) with (Value (state w), w).
    cbv beta iota. rewrite Hidle.
    rewrite run_bind. change (run env (TikTokController.assign ?f) ?x)
      with (Value tt, with_state (f (state x)) x).
    cbv beta iota.
    rewrite run_bind. change (run env (TikTokController.assign ?f) ?x)
      with (Value tt, with_state (f (state x)) x).
    cbv beta iota. unfold TikTokController.uploadVideo.
    erewrite run_after_first by apply tiktok_enforceRateLimit.
    match goal with |- context [run env ?p ?w2] =>
      assert (Hk : keeps env TikTokController.lastActionTime p);
      [| destruct (run_after env p w2 (clock w2) [] eq_refl) as (tr & Ht & Hf & _);
         exists tr;
         split; [exact Hr1|]; split; [exact Hr2|]; split; [exact (Hk w2)|];
         split; [exact Ht | exact Hf] ]
    end.
    apply keeps_try_finally; [apply keeps_try_catch|].
    + apply keeps_Stateless. stateless.
    + intros m. apply keeps_Stateless. stateless.
    + intros x. reflexivity.
  - rewrite (cancelGeneration_clicks env w button rest Hq). cbn [snd trace state].
    split; [|reflexivity].
    unfold click_times. rewrite filter_app, map_app. reflexivity.
Qed.

Lemma rate_limit_enforced_once_per_command_witness :
  (exists (t : Z) (tr : list (Z * Effect)),
     FlowController.lastActionTime (state (flowWorld 0))
     + RATE_LIMITS.MIN_ACTION_DELAY_MS <= t /\
     clock (flowWorld 0) <= t /\
     FlowController.lastActionTime
       (state (snd (run settingsPage (FlowController.handleCreateVideo sampleRequest)
                        (flowWorld 0)))) = t /\
     trace (snd (run settingsPage (FlowController.handleCreateVideo sampleRequest)
                     (flowWorld 0)))
     = (trace (flowWorld 0) ++ tr)%list /\
     Forall (fun e => t <= fst e) tr) /\
  (click_times (trace (snd (run cancelPage FlowController.cancelGeneration justActed)))
   = [1000; 1300] /\
   FlowController.lastActionTime
     (state (snd (run cancelPage FlowController.cancelGeneration justActed)))
   = 1000).
Proof.
  split.
  - apply (proj1 (rate_limit_enforced_once_per_command settingsPage)). reflexivity.
  - apply (proj2 (proj2 (rate_limit_enforced_once_per_command cancelPage))
             justActed cancelButton []).
    reflexivity.
Defined.

(** ** What a command tells the extension *)

Import FlowTerminates TikTokTerminates.

Section Quietness.
Context {S : Type} (env : Env).

Lemma messages_app (a b : list (Z * Effect)) :
  messages (a ++ b) = (messages a ++ messages b)%list.
Proof. apply filter_app. Qed.

Lemma Quiet_bind {A B} (p : Prog S A) (f : A -> Prog S B) :
  Quiet p -> (forall a, Quiet (f a)) -> Quiet (bind p f).
Proof. intros Hp Hf. induction Hp; simpl; try constructor; auto. Qed.

Lemma Quiet_try_catch {A} (p : Prog S A) (h : string -> Prog S A) :
  Quiet p -> (forall m, Quiet (h m)) -> Quiet (try_catch p h).
Proof. intros Hp Hh. induction Hp; simpl; try constructor; auto. Qed.

Lemma Observer_Quiet {A} (p : Prog S A) : Observer p -> Quiet p.
Proof. induction 1; constructor; auto. Qed.

Lemma Quiet_poll {A} (fuel : nat) (startTime timeout interval : Z)
    (body : Prog S (option A)) (after : Prog S A) :
  Quiet body -> Quiet after ->
  Quiet (poll fuel startTime timeout interval body after).
Proof.
  intros Hb Ha. induction fuel as [|fuel IH]; simpl; constructor. intros now.
  destruct (_ <? _)%Z; [|exact Ha].
  apply Quiet_bind; [exact Hb|]. intros [a|]; constructor. exact IH.
Qed.

Lemma Quiet_run {A} (p : Prog S A) (w : World S) :
  Quiet p -> messages (trace (snd (run env p w))) = messages (trace w).
Proof.
  intros Hp. revert w. induction Hp; intros w; simpl; auto.
  - rewrite IHHp. reflexivity.
  - destruct (fetch env (clock w) url) as [r d]. rewrite H0. reflexivity.
  - rewrite IHHp. simpl. rewrite messages_app. simpl. rewrite H. simpl.
    apply app_nil_r.
  - rewrite IHHp. reflexivity.
Qed.

(** A step that sends nothing, in front of a command that reports. *)
Lemma reports_bind_quiet {A B} (p : Prog S A) (f : A -> Prog S B) (w : World S)
    (sent : list (Z * Effect)) (event : B -> Effect) (post : B -> Z -> Prop) :
  Quiet p ->
  messages (trace w) = sent ->
  (forall a w1, run env p w = (Value a, w1) -> messages (trace w1) = sent ->
     reports sent event post (run env (f a) w1)) ->
  reports sent event post (run env (bind p f) w).
Proof.
  intros Hq Hm Hf. rewrite run_bind. pose proof (Quiet_run p w Hq) as Hr.
  destruct (run env p w) as [[a|msg| |] w1]; simpl in Hr.
  - apply Hf; [reflexivity | congruence].
  - unfold reports. simpl. congruence.
  - exact I.
  - exact I.
Qed.

Lemma observe_any_world {A} (p : Prog S A) (w w0 : World S) (t : Z) :
  Observer p -> observe env p w t = observe env p w0 t.
Proof. intros Hp. unfold observe. apply Observer_result; [exact Hp | reflexivity]. Qed.

Lemma observe_bind_inv {A B} (p : Prog S A) (f : A -> Prog S B) (w : World S)
    (t : Z) (b : B) :
  Observer p ->
  observe env (bind p f) w t = Value b ->
  exists a, observe env p w t = Value a /\ observe env (f a) w t = Value b.
Proof.
  intros Ho. rewrite observe_bind by exact Ho.
  destruct (observe env p w t) as [a| | |];
    [eauto | discriminate | discriminate | discriminate].
Qed.

Lemma observe_findM_found {A} (p : A -> Prog S bool) (l : list A) (w : World S)
    (t : Z) (x : A) :
  (forall a, Observer (p a)) ->
  observe env (findM p l) w t = Value (Some x) ->
  In x l /\ observe env (p x) w t = Value true.
Proof.
  intros Ho. induction l as [|y l IH]; simpl.
  - unfold observe. simpl. discriminate.
  - intros H. apply observe_bind_inv in H as (b & Hb & H); [|apply Ho].
    destruct b.
    + unfold observe in H. simpl in H. injection H as <-. auto.
    + destruct (IH H). auto.
Qed.

Lemma observe_firstM_found {A B} (body : A -> Prog S (option B)) (l : list A)
    (w : World S) (t : Z) (b : B) :
  (forall a, Observer (body a)) ->
  observe env (firstM body l) w t = Value (Some b) ->
  exists x, In x l /\ observe env (body x) w t = Value (Some b).
Proof.
  intros Ho. induction l as [|y l IH]; simpl.
  - unfold observe. simpl. discriminate.
  - intros H. apply observe_bind_inv in H as (r & Hr & H); [|apply Ho].
    destruct r as [b'|].
    + unfold observe in H. simpl in H. injection H as <-. eauto.
    + destruct (IH H) as (x & Hx & Hb). eauto.
Qed.

End Quietness.

Create HintDb quiet discriminated.

Ltac quiet_step :=
  match goal with
  | |- Quiet (bind _ _) => apply Quiet_bind; [|intros]
  | |- Quiet (try_catch _ _) => apply Quiet_try_catch; [|intros]
  | |- Quiet (poll _ _ _ _ _ _) => apply Quiet_poll
  | |- Quiet (match ?x with _ => _ end) => destruct x
  | |- Quiet (Ret _) => constructor
  | |- Quiet (Throw _) => constructor
  | |- Quiet Unload => constructor
  | |- Quiet (DateNow _) => constructor; intros
  | |- Quiet (Sleep _ _) => constructor
  | |- Quiet (MathRandom _ _) => constructor; intros
  | |- Quiet (QuerySelectorAll _ _ _) => constructor; intros
  | |- Quiet (LocationHref _) => constructor; intros
  | |- Quiet (NewURL _ _) => constructor; intros
  | |- Quiet (ToISOString _ _) => constructor; intros
  | |- Quiet (Fetch _ _) => constructor; intros
  | |- Quiet (Do _ _) => constructor; [reflexivity|]
  | |- Quiet (GetState _) => constructor; intros
  | |- Quiet (SetState _ _) => constructor
  | |- Quiet _ => solve [auto with quiet]
  end.

Ltac quiet := unfold when, sleep, do, Date_now; repeat quiet_step.

Lemma Quiet_document_querySelector {S} (selector : string) :
  Quiet (S := S) (document_querySelector selector).
Proof. apply Observer_Quiet, Observer_document_querySelector. Qed.
#[local] Hint Resolve Quiet_document_querySelector : quiet.

Lemma Quiet_querySelectorAll_of {S} (root : option nat) (selector : string) :
  Quiet (S := S) (querySelectorAll_of root selector).
Proof. apply Observer_Quiet, Observer_querySelectorAll_of. Qed.
#[local] Hint Resolve Quiet_querySelectorAll_of : quiet.

Module FlowQuiet.
Import FlowController.

Lemma Quiet_enforceRateLimit : Quiet enforceRateLimit.
Proof. unfold enforceRateLimit, assign. quiet. Qed.
#[export] Hint Resolve Quiet_enforceRateLimit : quiet.

Lemma Quiet_waitForElement selector timeout : Quiet (waitForElement selector timeout).
Proof. unfold waitForElement, querySelectorSafe. quiet. Qed.
#[export] Hint Resolve Quiet_waitForElement : quiet.

Lemma Quiet_waitForElements selector timeout : Quiet (waitForElements selector timeout).
Proof. unfold waitForElements. quiet. Qed.
#[export] Hint Resolve Quiet_waitForElements : quiet.

Lemma Quiet_typeChars n typed text : Quiet (typeChars n typed text).
Proof.
  revert typed. induction text as [|c text IH]; intros typed; simpl; quiet.
Qed.
#[export] Hint Resolve Quiet_typeChars : quiet.

Lemma Quiet_typeText element text : Quiet (typeText element text).
Proof. unfold typeText. quiet. Qed.
#[export] Hint Resolve Quiet_typeText : quiet.

Lemma Quiet_clickElement element : Quiet (clickElement element).
Proof. unfold clickElement. quiet. Qed.
#[export] Hint Resolve Quiet_clickElement : quiet.

Lemma Quiet_findButtonByText texts : Quiet (findButtonByText texts).
Proof. unfold findButtonByText. quiet. Qed.
#[export] Hint Resolve Quiet_findButtonByText : quiet.

Lemma Quiet_navigateToCreatePage : Quiet navigateToCreatePage.
Proof. unfold navigateToCreatePage. quiet. Qed.
#[export] Hint Resolve Quiet_navigateToCreatePage : quiet.

Lemma Quiet_enterPrompt prompt : Quiet (enterPrompt prompt).
Proof. unfold enterPrompt. quiet. Qed.
#[export] Hint Resolve Quiet_enterPrompt : quiet.

Lemma Quiet_trySetAspectRatio aspectRatio : Quiet (trySetAspectRatio aspectRatio).
Proof. unfold trySetAspectRatio. quiet. Qed.
#[export] Hint Resolve Quiet_trySetAspectRatio : quiet.

Lemma Quiet_configureSettings request : Quiet (configureSettings request).
Proof. unfold configureSettings. quiet. Qed.
#[export] Hint Resolve Quiet_configureSettings : quiet.

Lemma Quiet_startGeneration : Quiet startGeneration.
Proof. unfold startGeneration. quiet. Qed.
#[export] Hint Resolve Quiet_startGeneration : quiet.

Lemma Quiet_waitForCompletion : Quiet waitForCompletion.
Proof.
  unfold waitForCompletion. quiet.
  apply Observer_Quiet, Observer_completionPoll.
Qed.
#[export] Hint Resolve Quiet_waitForCompletion : quiet.

End FlowQuiet.

Module TikTokQuiet.
Import TikTokController.

Lemma Quiet_TikTok_enforceRateLimit : Quiet enforceRateLimit.
Proof. unfold enforceRateLimit, assign. quiet. Qed.
#[export] Hint Resolve Quiet_TikTok_enforceRateLimit : quiet.

Lemma Quiet_TikTok_waitForElement selector timeout :
  Quiet (waitForElement selector timeout).
Proof. unfold waitForElement. quiet. Qed.
#[export] Hint Resolve Quiet_TikTok_waitForElement : quiet.

Lemma Quiet_TikTok_typeChars n typed text : Quiet (typeChars n typed text).
Proof.
  revert typed. induction text as [|c text IH]; intros typed; simpl; quiet.
Qed.
#[export] Hint Resolve Quiet_TikTok_typeChars : quiet.

Lemma Quiet_TikTok_typeText element text : Quiet (typeText element text).
Proof. unfold typeText. quiet. Qed.
#[export] Hint Resolve Quiet_TikTok_typeText : quiet.

Lemma Quiet_TikTok_clickElement element : Quiet (clickElement element).
Proof. unfold clickElement. quiet. Qed.
#[export] Hint Resolve Quiet_TikTok_clickElement : quiet.

Lemma Quiet_TikTok_downloadVideo url : Quiet (downloadVideo url).
Proof. unfold downloadVideo. quiet. Qed.
#[export] Hint Resolve Quiet_TikTok_downloadVideo : quiet.

Lemma Quiet_TikTok_waitForUploadComplete : Quiet waitForUploadComplete.
Proof.
  unfold waitForUploadComplete. quiet.
  apply Observer_Quiet, Observer_uploadPoll.
Qed.
#[export] Hint Resolve Quiet_TikTok_waitForUploadComplete : quiet.

Lemma Quiet_TikTok_addCaption caption : Quiet (addCaption caption).
Proof. unfold addCaption. quiet. Qed.
#[export] Hint Resolve Quiet_TikTok_addCaption : quiet.

Lemma Quiet_TikTok_setVisibility v : Quiet (setVisibility v).
Proof. unfold setVisibility. quiet. Qed.
#[export] Hint Resolve Quiet_TikTok_setVisibility : quiet.

Lemma Quiet_TikTok_schedulePost timestamp : Quiet (schedulePost timestamp).
Proof. unfold schedulePost. quiet. Qed.
#[export] Hint Resolve Quiet_TikTok_schedulePost : quiet.

Lemma Quiet_TikTok_publishPost : Quiet publishPost.
Proof. unfold publishPost. quiet. Qed.
#[export] Hint Resolve Quiet_TikTok_publishPost : quiet.

Lemma Quiet_TikTok_extractPostId : Quiet extractPostId.
Proof. unfold extractPostId. quiet. Qed.
#[export] Hint Resolve Quiet_TikTok_extractPostId : quiet.

Lemma Quiet_TikTok_navigate url : Quiet (navigate url).
Proof. unfold navigate. quiet. Qed.
#[export] Hint Resolve Quiet_TikTok_navigate : quiet.

End TikTokQuiet.

Import FlowQuiet TikTokQuiet.

(** ** The video URL a command reports *)

Section Signed.
Context (env : Env) (t : Z).
Import FlowController.

Lemma signed_or_none_signed (url u : string) (w : World FlowControllerState) :
  observe env (signed_or_none url) w t = Value (Some u) ->
  observe env (isFlowSignedVideoUrl u) w t = Value true.
Proof.
  unfold signed_or_none. destruct (JS.truthy url).
  - intros H. apply observe_bind_inv in H as (b & Hb & H);
      [|apply Observer_isFlowSignedVideoUrl].
    destruct b; unfold observe in H; simpl in H; [|discriminate].
    injection H as <-. exact Hb.
  - unfold observe. simpl. discriminate.
Qed.

Lemma findGeneratedVideoUrl_signed (u : string) (w : World FlowControllerState) :
  observe env findGeneratedVideoUrl w t = Value (Some u) ->
  observe env (isFlowSignedVideoUrl u) w t = Value true.
Proof.
  unfold findGeneratedVideoUrl. intros H.
  apply observe_bind_inv in H as (videos & _ & H); [|observer].
  apply observe_bind_inv in H as (found & Hfound & H); [|observer].
  destruct found as [u'|].
  - unfold observe in H. simpl in H. injection H as <-.
    apply observe_firstM_found in Hfound as (video & _ & Hv); [|intros; observer].
    apply observe_bind_inv in Hv as (m & Hm & Hv); [|observer].
    destruct m as [u''|].
    + unfold observe in Hv. simpl in Hv. injection Hv as <-.
      apply observe_findM_found in Hm as [_ Hm];
        [exact Hm | apply Observer_isFlowSignedVideoUrl].
    + apply observe_bind_inv in Hv as (sources & _ & Hv); [|observer].
      apply observe_firstM_found in Hv as (source & _ & Hs);
        [|intros; apply Observer_signed_or_none].
      eapply signed_or_none_signed, Hs.
  - apply observe_bind_inv in H as (links & _ & H); [|observer].
    apply observe_firstM_found in H as (el & _ & He); [|intros; observer].
    apply observe_bind_inv in He as (h & Hh & He); [|apply Observer_signed_or_none].
    destruct h as [u'|].
    + unfold observe in He. simpl in He. injection He as <-.
      eapply signed_or_none_signed, Hh.
    + destruct (getAttribute el "data-url") as [dataUrl|].
      * eapply signed_or_none_signed, He.
      * unfold observe in He. simpl in He. discriminate.
Qed.

Lemma urlFromDownloadButton_signed (downloadButton : Element) (u : string)
    (w : World FlowControllerState) :
  observe env (urlFromDownloadButton downloadButton) w t = Value (Some u) ->
  observe env (isFlowSignedVideoUrl u) w t = Value true.
Proof.
  unfold urlFromDownloadButton. intros H.
  apply observe_bind_inv in H as (videoElement & _ & H); [|observer].
  apply observe_bind_inv in H as (a & Ha & H); [|destruct videoElement; observer].
  destruct a as [u'|].
  - unfold observe in H. simpl in H. injection H as <-.
    destruct videoElement as [v|];
      [eapply signed_or_none_signed, Ha | unfold observe in Ha; simpl in Ha; discriminate].
  - apply observe_bind_inv in H as (b & Hb & H); [|destruct videoElement; observer].
    destruct b as [u'|].
    + unfold observe in H. simpl in H. injection H as <-.
      destruct videoElement as [v|];
        [eapply signed_or_none_signed, Hb
        | unfold observe in Hb; simpl in Hb; discriminate].
    + destruct (match getAttribute downloadButton "href" with
                | Some h => if JS.truthy h then Some h
                            else getAttribute downloadButton "data-url"
                | None => getAttribute downloadButton "data-url"
                end) as [d|].
      * eapply signed_or_none_signed, H.
      * unfold observe in H. simpl in H. discriminate.
Qed.

Lemma completionPoll_signed (u : string) (w : World FlowControllerState) :
  observe env completionPoll w t = Value (Some u) ->
  observe env (isFlowSignedVideoUrl u) w t = Value true.
Proof.
  unfold completionPoll. intros H.
  apply observe_bind_inv in H as (g & Hg & H); [|apply Observer_findGeneratedVideoUrl].
  destruct g as [u'|].
  - unfold observe in H. simpl in H. injection H as <-.
    now apply findGeneratedVideoUrl_signed.
  - apply observe_bind_inv in H as (db & _ & H); [|observer].
    apply observe_bind_inv in H as (fb & Hfb & H);
      [|destruct db; [apply Observer_urlFromDownloadButton | observer]].
    destruct fb as [u'|].
    + unfold observe in H. simpl in H. injection H as <-.
      destruct db as [b|];
        [eapply urlFromDownloadButton_signed, Hfb
        | unfold observe in Hfb; simpl in Hfb; discriminate].
    + apply observe_bind_inv in H as (e & _ & H); [|observer].
      destruct e as [e|]; [unfold observe in H; simpl in H; discriminate|].
      apply observe_bind_inv in H as (x & _ & H); [|observer].
      unfold observe in H. simpl in H. discriminate.
Qed.

Lemma getVideoDownloadUrl_signed (u : string) (w : World FlowControllerState) :
  observe env getVideoDownloadUrl w t = Value (Some u) ->
  observe env (isFlowSignedVideoUrl u) w t = Value true.
Proof.
  unfold getVideoDownloadUrl. intros H.
  apply observe_bind_inv in H as (g & Hg & H); [|apply Observer_findGeneratedVideoUrl].
  destruct g as [u'|].
  - unfold observe in H. simpl in H. injection H as <-.
    now apply findGeneratedVideoUrl_signed.
  - apply observe_bind_inv in H as (db & _ & H); [|observer].
    cbv zeta in H.
    match type of H with
    | observe env (bind ?p _) w t = _ =>
        assert (Hp : Observer p) by (destruct db as [b|]; [|observer];
                                     destruct (getAttribute b "href") as [h|];
                                     [destruct (JS.truthy h)|];
                                     try destruct (getAttribute b "data-url");
                                     observer; apply Observer_signed_or_none)
    end.
    apply observe_bind_inv in H as (fb & Hfb & H); [|exact Hp]. clear Hp.
    destruct fb as [u'|].
    + unfold observe in H. simpl in H. injection H as <-.
      match type of Hfb with
      | observe env (match ?x with _ => _ end) w t = _ => destruct x as [d|]
      end; [eapply signed_or_none_signed, Hfb
           | unfold observe in Hfb; simpl in Hfb; discriminate].
    + apply observe_bind_inv in H as (v & _ & H); [|observer].
      apply observe_bind_inv in H as (a & Ha & H);
        [|destruct v; [apply Observer_signed_or_none | observer]].
      destruct a as [u'|].
      * unfold observe in H. simpl in H. injection H as <-.
        destruct v as [v|];
          [eapply signed_or_none_signed, Ha
          | unfold observe in Ha; simpl in Ha; discriminate].
      * destruct v as [v|];
          [eapply signed_or_none_signed, H
          | unfold observe in H; simpl in H; discriminate].
Qed.

End Signed.

Lemma Observer_getVideoDownloadUrl : Observer FlowController.getVideoDownloadUrl.
Proof. unfold FlowController.getVideoDownloadUrl. observer; apply Observer_signed_or_none. Qed.

(** What [isFlowSignedVideoUrl] accepts. *)
Lemma isFlowSignedVideoUrl_accepts (env : Env) (t : Z) (url : string)
    (w : World FlowController.FlowControllerState) :
  observe env (FlowController.isFlowSignedVideoUrl url) w t = Value true ->
  JS.trim url <> "" /\
  match parseURL env (JS.trim url) (location_href env t) with
  | Some (hostname, pathname) =>
      hostname = FlowController.FLOW_VIDEO_HOST /\
      JS.includes pathname FlowController.FLOW_VIDEO_PATH_FRAGMENT = true
  | None =>
      JS.includes (JS.trim url)
        (FlowController.FLOW_VIDEO_HOST ++ FlowController.FLOW_VIDEO_PATH_FRAGMENT) = true
  end.
Proof.
  unfold observe, FlowController.isFlowSignedVideoUrl, JS.truthy.
  destruct (String.eqb_spec (JS.trim url) "") as [E|E]; simpl; [discriminate|].
  destruct (parseURL env (JS.trim url) (location_href env t)) as [[h p]|]; simpl.
  - intros [= H]. apply andb_prop in H as [H1 H2]. apply String.eqb_eq in H1. auto.
  - intros [= H]. auto.
Qed.

Lemma waitForCompletion_signed (env : Env) (w w1 : World FlowController.FlowControllerState)
    (u : string) :
  run env FlowController.waitForCompletion w = (Value u, w1) ->
  forall w0, observe env (FlowController.isFlowSignedVideoUrl u) w0 (clock w1) = Value true.
Proof.
  intros Hrun w0.
  destruct (poll_loop_outcome env FlowController.completionPoll
              (Throw "Video generation timed out")
              FlowController.maxWaitTime 2000 w Observer_completionPoll)
    as (n & _ & _ & Hat); [lia|].
  unfold FlowController.waitForCompletion in Hrun.
  destruct Hat as [(_ & a & Ho & E) | [(_ & msg & _ & E) | (_ & E)]];
    rewrite E in Hrun; [| discriminate Hrun | simpl in Hrun; discriminate Hrun].
  injection Hrun as <- <-. simpl clock.
  rewrite (observe_any_world env _ w0 w) by apply Observer_isFlowSignedVideoUrl.
  now apply completionPoll_signed.
Qed.

(** A signed URL between no-break spaces is accepted: [trim] takes them
    off. *)
Example padded_url_is_signed :
  signed videoPage 0
    (nbsp ++ "https://storage.googleapis.com/ai-sandbox-videofx/video/abc.mp4" ++ nbsp)
  = true /\
  JS.trim (nbsp ++ "https://storage.googleapis.com/ai-sandbox-videofx/video/abc.mp4" ++ nbsp)
  = "https://storage.googleapis.com/ai-sandbox-videofx/video/abc.mp4".
Proof. split; reflexivity. Qed.

(** X14.  A video URL that [waitForCompletion] returns, or that
    [getVideoDownloadUrl] answers with, is one that [isFlowSignedVideoUrl]
    accepts at that instant: not blank and, once trimmed, either parsed by
    the page as a URL with the host [storage.googleapis.com] and a path
    that contains [/ai-sandbox-videofx/video/], or not parsed and
    containing the host followed by that path.  Neither of the two touches
    the page or the state of the agent, and [waitForCompletion] comes to
    an end. *)
Theorem only_signed_urls_are_reported (env : Env)
    (w : World FlowController.FlowControllerState) :
  match run env FlowController.waitForCompletion w with
  | (Value u, w1) =>
      state w1 = state w /\ trace w1 = trace w /\
      JS.trim u <> "" /\
      match parseURL env (JS.trim u) (location_href env (clock w1)) with
      | Some (hostname, pathname) =>
          hostname = "storage.googleapis.com" /\
          JS.includes pathname "/ai-sandbox-videofx/video/" = true
      | None =>
          JS.includes (JS.trim u) "storage.googleapis.com/ai-sandbox-videofx/video/" = true
      end
  | (Error _, w1) => state w1 = state w /\ trace w1 = trace w
  | (Diverged, _) | (Unloaded, _) => False
  end /\
  match run env FlowController.getVideoDownloadUrl w with
  | (Value (Some u), w1) =>
      w1 = w /\
      JS.trim u <> "" /\
      match parseURL env (JS.trim u) (location_href env (clock w)) with
      | Some (hostname, pathname) =>
          hostname = "storage.googleapis.com" /\
          JS.includes pathname "/ai-sandbox-videofx/video/" = true
      | None =>
          JS.includes (JS.trim u) "storage.googleapis.com/ai-sandbox-videofx/video/" = true
      end
  | (_, w1) => w1 = w
  end.
Proof.
  split.
  - pose proof (waitForCompletion_signed env w) as Hs.
    pose proof (terminates_waitForCompletion env w) as Ht.
    destruct (poll_loop_outcome env FlowController.completionPoll
                (Throw "Video generation timed out")
                FlowController.maxWaitTime 2000 w Observer_completionPoll)
      as (n & _ & _ & Hat); [lia|].
    fold FlowController.waitForCompletion in Hat.
    destruct (run env FlowController.waitForCompletion w) as [[u|msg| |] w1].
    + assert (Hw : state w1 = state w /\ trace w1 = trace w).
      { destruct Hat as [(_ & a & _ & E) | [(_ & m & _ & E) | (_ & E)]];
          [| discriminate E | simpl in E; discriminate E].
        injection E as _ ->. auto. }
      destruct Hw as [Hw1 Hw2]. split; [exact Hw1|]. split; [exact Hw2|].
      apply (isFlowSignedVideoUrl_accepts env (clock w1) u w), (Hs w1 u eq_refl).
    + destruct Hat as [(_ & a & _ & E) | [(_ & m & _ & E) | (_ & E)]];
        [discriminate E | | simpl in E]; injection E as _ ->; auto.
    + exact Ht.
    + exact Ht.
  - pose proof (Observer_world env _ w Observer_getVideoDownloadUrl) as Hw.
    pose proof (getVideoDownloadUrl_signed env (clock w)) as Hs.
    unfold observe in Hs. specialize (fun u => Hs u w).
    rewrite at_clock_self in Hs.
    destruct (run env FlowController.getVideoDownloadUrl w) as [[[u|]|msg| |] w1];
      simpl in Hw; try exact Hw.
    split; [exact Hw|].
    specialize (Hs u eq_refl).
    apply (isFlowSignedVideoUrl_accepts env (clock w) u w).
    unfold observe. rewrite at_clock_self. exact Hs.
Qed.

(** ** One terminal event for each command *)

Lemma terminates_createVideo (request : FlowController.VideoCreationRequest) :
  terminates (FlowController.createVideo request).
Proof.
  unfold FlowController.createVideo, FlowController.enforceRateLimit,
    FlowController.navigateToCreatePage, FlowController.enterPrompt,
    FlowController.typeText, FlowController.assign.
  terminating.
Qed.

Ltac quiet_prefix H :=
  cbv beta zeta;
  apply reports_bind_quiet; [quiet | first [exact H | reflexivity] | clear H; intros ? ? _ H ].

(** The [try] block of [handleCreateVideo] sends [VIDEO_CREATED] with a
    signed URL as the last thing it does, or throws having sent nothing. *)
Lemma createVideo_reports (env : Env) (request : FlowController.VideoCreationRequest)
    (w : World FlowController.FlowControllerState) :
  reports (messages (trace w)) (FlowController.terminal_event request)
    (fun response t =>
       exists u,
         response = {| FlowController.success := true;
                       FlowController.videoUrl := Some u;
                       FlowController.error := None |} /\
         forall w0, observe env (FlowController.isFlowSignedVideoUrl u) w0 t = Value true)
    (run env (FlowController.createVideo request) w).
Proof.
  unfold FlowController.createVideo.
  assert (H : messages (trace w) = messages (trace w)) by reflexivity.
  revert H. generalize (messages (trace w)) at 2 3 as sent. intros sent H.
  quiet_prefix H. quiet_prefix H. quiet_prefix H. quiet_prefix H. quiet_prefix H.
  cbv beta. apply reports_bind_quiet; [quiet | exact H | intros u w6 Hrun H6].
  unfold reports. simpl. rewrite messages_app, H6. split; [reflexivity|].
  exists u. split; [reflexivity|]. exact (waitForCompletion_signed env _ _ u Hrun).
Qed.

(** X15.  A [CREATE_VIDEO] command that finds the agent idle comes to an
    end with an answer, sends exactly one message to the extension, at the
    instant at which it ends, and leaves the agent idle again with no
    current job.  The message is [VIDEO_CREATED] with the video URL when the
    answer is a success, and then the URL is one that
    [isFlowSignedVideoUrl] accepts at that instant; it is [VIDEO_FAILED]
    with the error when the answer is a failure. *)
Theorem create_command_reports_once (env : Env)
    (request : FlowController.VideoCreationRequest)
    (w : World FlowController.FlowControllerState) :
  FlowController.isProcessing (state w) = false ->
  exists response w',
    run env (FlowController.handleCreateVideo request) w = (Value response, w') /\
    FlowController.isProcessing (state w') = false /\
    FlowController.currentJobId (state w') = None /\
    messages (trace w')
    = (messages (trace w)
       ++ [(clock w', FlowController.terminal_event request response)])%list /\
    (FlowController.success response = true ->
       FlowController.error response = None /\
       exists u, FlowController.videoUrl response = Some u /\
                 forall w0,
                   observe env (FlowController.isFlowSignedVideoUrl u) w0 (clock w')
                   = Value true) /\
    (FlowController.success response = false ->
       FlowController.videoUrl response = None /\
       FlowController.error response <> None).
Proof.
  intros Hidle.
  unfold FlowController.handleCreateVideo. rewrite run_bind.
  change (run env (GetState Ret) w) with (Value (state w), w).
  cbv beta iota. rewrite Hidle.
  rewrite run_bind. change (run env (FlowController.assign ?f) ?x)
    with (Value tt, with_state (f (state x)) x).
  cbv beta iota.
  rewrite run_bind. change (run env (FlowController.assign ?f) ?x)
    with (Value tt, with_state (f (state x)) x).
  cbv beta iota.
  rewrite run_try_finally, run_try_catch.
  match goal with |- context [run env (FlowController.createVideo request) ?w2] =>
    pose proof (createVideo_reports env request w2) as Hrep;
    pose proof (terminates_createVideo request env w2) as Hterm;
    change (messages (trace w2)) with (messages (trace w)) in Hrep;
    destruct (run env (FlowController.createVideo request) w2) as [[r|msg| |] w3]
  end; unfold reports in Hrep; simpl in Hrep, Hterm.
  - destruct Hrep as [Hm (u & -> & Hu)].
    eexists. eexists. split; [reflexivity|]. simpl.
    repeat split; try exact Hm; try discriminate. exists u. auto.
  - eexists. eexists. split; [reflexivity|]. simpl.
    rewrite messages_app, Hrep. repeat split; discriminate.
  - contradiction.
  - contradiction.
Qed.

Lemma create_command_reports_once_witness :
  exists response w',
    run settingsPage (FlowController.handleCreateVideo sampleRequest) (flowWorld 0)
    = (Value response, w') /\
    FlowController.isProcessing (state w') = false /\
    FlowController.currentJobId (state w') = None /\
    messages (trace w')
    = (messages (trace (flowWorld 0))
       ++ [(clock w', FlowController.terminal_event sampleRequest response)])%list /\
    (FlowController.success response = true ->
       FlowController.error response = None /\
       exists u, FlowController.videoUrl response = Some u /\
                 forall w0,
                   observe settingsPage (FlowController.isFlowSignedVideoUrl u) w0 (clock w')
                   = Value true) /\
    (FlowController.success response = false ->
       FlowController.videoUrl response = None /\
       FlowController.error response <> None).
Proof.
  apply (create_command_reports_once settingsPage sampleRequest (flowWorld 0)).
  reflexivity.
Defined.

(** On the upload page the [try] block of [handleUploadVideo] sends
    [VIDEO_POSTED] as the last thing it does, or throws having sent
    nothing. *)
Lemma upload_reports (env : Env) (request : TikTokController.VideoUploadRequest)
    (w : World TikTokController.TikTokControllerState) :
  reports (messages (trace w)) (TikTokController.terminal_event request)
    (fun response t =>
       exists p,
         response = {| TikTokController.success := true;
                       TikTokController.postId := Some p;
                       TikTokController.error := None |})
    (run env (TikTokController.upload request) w).
Proof.
  unfold TikTokController.upload.
  assert (H : messages (trace w) = messages (trace w)) by reflexivity.
  revert H. generalize (messages (trace w)) at 2 3 as sent. intros sent H.
  quiet_prefix H.
  match goal with |- context [match ?x with Some _ => _ | None => _ end] =>
    destruct x as [uploadArea|] end; [|unfold reports; simpl; exact H].
  quiet_prefix H. quiet_prefix H. quiet_prefix H. quiet_prefix H. quiet_prefix H.
  quiet_prefix H. quiet_prefix H.
  cbv beta. apply reports_bind_quiet; [quiet | exact H | intros p wp Hrun Hp].
  unfold reports. simpl. rewrite messages_app, Hp. split; [reflexivity|].
  exists p. reflexivity.
Qed.

(** X16.  An [UPLOAD_VIDEO] command that finds the agent idle waits for
    the rate limit and then looks at the address of the page.  On a page
    whose address contains [/upload] it comes to an end with an answer,
    sends exactly one message to the extension, at the instant at which it
    ends, and leaves the agent idle again with no current job: the message
    is [VIDEO_POSTED] with the post id when the answer is a success and
    [POST_FAILED] with the error when it is a failure.  On any other page
    it sends the page to the upload address and is gone with it: it gives
    no answer, sends no message and does nothing else to the page. *)
Theorem upload_command_reports_once (env : Env)
    (request : TikTokController.VideoUploadRequest)
    (w : World TikTokController.TikTokControllerState) :
  TikTokController.isUploading (state w) = false ->
  (JS.includes
     (location_href env
        (released env (clock w) (TikTokController.lastActionTime (state w))))
     "/upload" = true ->
   exists response w',
     run env (TikTokController.handleUploadVideo request) w = (Value response, w') /\
     TikTokController.isUploading (state w') = false /\
     TikTokController.currentJobId (state w') = None /\
     messages (trace w')
     = (messages (trace w)
        ++ [(clock w', TikTokController.terminal_event request response)])%list /\
     (TikTokController.success response = true ->
        TikTokController.error response = None /\
        TikTokController.postId response <> None) /\
     (TikTokController.success response = false ->
        TikTokController.postId response = None /\
        TikTokController.error response <> None)) /\
  (JS.includes
     (location_href env
        (released env (clock w) (TikTokController.lastActionTime (state w))))
     "/upload" = false ->
   run env (TikTokController.handleUploadVideo request) w
   = (Unloaded,
      {| clock := released env (clock w) (TikTokController.lastActionTime (state w));
         state :=
           {| TikTokController.isUploading := true;
              TikTokController.currentJobId := Some (TikTokController.jobId request);
              TikTokController.lastActionTime :=
                released env (clock w) (TikTokController.lastActionTime (state w)) |};
         trace :=
           (trace w
            ++ [(released env (clock w) (TikTokController.lastActionTime (state w)),
                 set_location_href "https://www.tiktok.com/upload")])%list |})).
Proof.
  intros Hidle.
  unfold TikTokController.handleUploadVideo. rewrite run_bind.
  change (run env (GetState Ret) w) with (Value (state w), w).
  cbv beta iota. rewrite Hidle.
  rewrite run_bind. change (run env (TikTokController.assign ?f) ?x)
    with (Value tt, with_state (f (state x)) x).
  cbv beta iota.
  rewrite run_bind. change (run env (TikTokController.assign ?f) ?x)
    with (Value tt, with_state (f (state x)) x).
  cbv beta iota. unfold TikTokController.uploadVideo.
  erewrite run_after_first by apply tiktok_enforceRateLimit.
  erewrite run_after_first by reflexivity.
  simpl clock. simpl TikTokController.lastActionTime.
  split; intros Hhere; rewrite Hhere; simpl negb; unfold when.
  - rewrite run_try_finally, run_try_catch.
    change (run env (Ret tt ;; TikTokController.upload request)%prog)
      with (run env (TikTokController.upload request)).
    match goal with |- context [run env (TikTokController.upload request) ?w2] =>
      pose proof (upload_reports env request w2) as Hrep;
      pose proof (terminates_upload request env w2) as Hterm;
      change (messages (trace w2)) with (messages (trace w)) in Hrep;
      destruct (run env (TikTokController.upload request) w2) as [[r|msg| |] w3]
    end; unfold reports in Hrep; simpl in Hrep, Hterm.
    + destruct Hrep as [Hm (p & ->)].
      eexists. eexists. split; [reflexivity|]. simpl.
      repeat split; try exact Hm; discriminate.
    + eexists. eexists. split; [reflexivity|]. simpl.
      rewrite messages_app, Hrep. repeat split; discriminate.
    + contradiction.
    + contradiction.
  - reflexivity.
Qed.

Lemma upload_command_reports_once_witness :
  (exists response w',
     run uploadErrorPage (TikTokController.handleUploadVideo sampleUpload) (tiktokWorld 0)
     = (Value response, w') /\
     TikTokController.isUploading (state w') = false /\
     TikTokController.currentJobId (state w') = None /\
     messages (trace w')
     = (messages (trace (tiktokWorld 0))
        ++ [(clock w', TikTokController.terminal_event sampleUpload response)])%list /\
     (TikTokController.success response = true ->
        TikTokController.error response = None /\
        TikTokController.postId response <> None) /\
     (TikTokController.success response = false ->
        TikTokController.postId response = None /\
        TikTokController.error response <> None)) /\
  run profilePage (TikTokController.handleUploadVideo sampleUpload) (tiktokWorld 0)
  = (Unloaded,
     {| clock := 700;
        state := {| TikTokController.isUploading := true;
                    TikTokController.currentJobId := Some "job-1";
                    TikTokController.lastActionTime := 700 |};
        trace := [(700, set_location_href "https://www.tiktok.com/upload")] |}).
Proof.
  split.
  - apply (proj1 (upload_command_reports_once uploadErrorPage sampleUpload (tiktokWorld 0)
                    eq_refl)).
    reflexivity.
  - apply (proj2 (upload_command_reports_once profilePage sampleUpload (tiktokWorld 0)
                    eq_refl)).
    reflexivity.
Defined.

(** ** Waiting for an element *)

Lemma flow_waitForElement_turn (env : Env) (selector : string) (t : Z)
    (w : World FlowController.FlowControllerState) :
  observe env
    (element <- FlowController.querySelectorSafe selector ;;
     match element with
     | Some e => Ret (Some (Some e))
     | None => Ret None
     end) w t
  = Value (match first_match env t selector with
           | Some e => Some (Some e)
           | None => None
           end).
Proof.
  unfold observe, first_match, FlowController.querySelectorSafe, document_querySelector,
    querySelectorAll_of. simpl.
  destruct (querySelectorAll env t None selector) as [[|e els]|msg]; reflexivity.
Qed.

(** X17.  [FlowController.waitForElement] looks for the element every 100
    ms from the instant it is called.  It returns the first match of the
    selector at the first turn before the timeout at which there is one,
    and [null] at the first turn at or past the timeout; a selector that
    the page does not parse counts as no match, so the wait then lasts for
    the whole timeout.  It never throws, and it touches neither the page
    nor the state of the agent. *)
Theorem flow_waitForElement_outcome (env : Env) (selector : string) (timeout : Z)
    (w : World FlowController.FlowControllerState) :
  exists n : nat,
    (n = 0%nat \/ (Z.of_nat n - 1) * 100 < timeout) /\
    (forall k, (k < n)%nat -> first_match env (tick env 100 (clock w) k) selector = None) /\
    ((tick env 100 (clock w) n - clock w < timeout /\
      exists e,
        first_match env (tick env 100 (clock w) n) selector = Some e /\
        run env (FlowController.waitForElement selector timeout) w
        = (Value (Some e), at_clock (tick env 100 (clock w) n) w))
     \/
     (timeout <= tick env 100 (clock w) n - clock w /\
      run env (FlowController.waitForElement selector timeout) w
      = (Value None, at_clock (tick env 100 (clock w) n) w))).
Proof.
  unfold FlowController.waitForElement.
  match goal with |- context [poll _ _ _ _ ?body ?after] =>
    assert (Hb : Observer body)
      by (unfold FlowController.querySelectorSafe; observer);
    destruct (poll_loop_outcome env body after timeout 100 w Hb)
      as (n & Hn & Hbefore & Hat); [lia|]
  end.
  exists n. split; [exact Hn|]. split.
  - intros k Hk. specialize (Hbefore k Hk).
    rewrite flow_waitForElement_turn in Hbefore.
    destruct (first_match env (tick env 100 (clock w) k) selector);
      [discriminate Hbefore | reflexivity].
  - destruct Hat as [(Hlt & a & Ho & E) | [(Hlt & msg & Ho & E) | (Hge & E)]].
    + left. split; [exact Hlt|]. rewrite flow_waitForElement_turn in Ho.
      destruct (first_match env (tick env 100 (clock w) n) selector) as [e|];
        [|discriminate Ho].
      exists e. split; [reflexivity|]. injection Ho as <-. exact E.
    + rewrite flow_waitForElement_turn in Ho. discriminate Ho.
    + right. split; [exact Hge | exact E].
Qed.

Lemma tiktok_waitForElement_turn (env : Env) (selector : string) (t : Z)
    (w : World TikTokController.TikTokControllerState) :
  observe env
    (try_catch
       (element <- document_querySelector selector ;;
        match element with
        | Some e => Ret (Some (Some e))
        | None => Ret None
        end)
       (fun _ => Ret (Some None))) w t
  = Value (match querySelectorAll env t None selector with
           | Matches (e :: _) => Some (Some e)
           | Matches [] => None
           | SyntaxError _ => Some None
           end).
Proof.
  unfold observe, document_querySelector, querySelectorAll_of. simpl.
  destruct (querySelectorAll env t None selector) as [[|e els]|msg]; reflexivity.
Qed.

(** X18.  [TikTokController.waitForElement] does the same, except that a
    selector the page does not parse ends the wait at once: it returns
    [null] at the first turn at which [querySelector] throws. *)
Theorem tiktok_waitForElement_outcome (env : Env) (selector : string) (timeout : Z)
    (w : World TikTokController.TikTokControllerState) :
  exists n : nat,
    (n = 0%nat \/ (Z.of_nat n - 1) * 100 < timeout) /\
    (forall k, (k < n)%nat ->
       querySelectorAll env (tick env 100 (clock w) k) None selector = Matches []) /\
    ((tick env 100 (clock w) n - clock w < timeout /\
      exists e els,
        querySelectorAll env (tick env 100 (clock w) n) None selector = Matches (e :: els) /\
        run env (TikTokController.waitForElement selector timeout) w
        = (Value (Some e), at_clock (tick env 100 (clock w) n) w))
     \/
     (tick env 100 (clock w) n - clock w < timeout /\
      exists msg,
        querySelectorAll env (tick env 100 (clock w) n) None selector = SyntaxError msg /\
        run env (TikTokController.waitForElement selector timeout) w
        = (Value None, at_clock (tick env 100 (clock w) n) w))
     \/
     (timeout <= tick env 100 (clock w) n - clock w /\
      run env (TikTokController.waitForElement selector timeout) w
      = (Value None, at_clock (tick env 100 (clock w) n) w))).
Proof.
  unfold TikTokController.waitForElement.
  match goal with |- context [poll _ _ _ _ ?body ?after] =>
    assert (Hb : Observer body) by observer;
    destruct (poll_loop_outcome env body after timeout 100 w Hb)
      as (n & Hn & Hbefore & Hat); [lia|]
  end.
  exists n. split; [exact Hn|]. split.
  - intros k Hk. specialize (Hbefore k Hk).
    rewrite tiktok_waitForElement_turn in Hbefore.
    destruct (querySelectorAll env (tick env 100 (clock w) k) None selector)
      as [[|e els]|msg]; [reflexivity | discriminate Hbefore | discriminate Hbefore].
  - destruct Hat as [(Hlt & a & Ho & E) | [(Hlt & msg & Ho & E) | (Hge & E)]].
    + rewrite tiktok_waitForElement_turn in Ho.
      destruct (querySelectorAll env (tick env 100 (clock w) n) None selector)
        as [[|e els]|msg] eqn:Eq; [discriminate Ho | |]; injection Ho as <-.
      * left. split; [exact Hlt|]. exists e, els. split; [reflexivity | exact E].
      * right. left. split; [exact Hlt|]. exists msg. split; [reflexivity | exact E].
    + rewrite tiktok_waitForElement_turn in Ho. discriminate Ho.
    + right. right. split; [exact Hge | exact E].
Qed.

(** ** Typing and clicking *)

Lemma append_append (a b c : string) : (a ++ b) ++ c = a ++ b ++ c.
Proof. induction a as [|x a IH]; simpl; [reflexivity | now rewrite IH]. Qed.

Lemma append_empty (a : string) : a ++ "" = a.
Proof. induction a as [|x a IH]; simpl; [reflexivity | now rewrite IH]. Qed.

Lemma concat_cons (c : string) (l : list string) :
  String.concat "" (c :: l) = c ++ String.concat "" l.
Proof. destruct l; simpl; [symmetry; apply append_empty | reflexivity]. Qed.

(** The code points of a text, put together again, are the text. *)
Lemma concat_code_points (s : string) : String.concat "" (JS.code_points s) = s.
Proof.
  induction s as [|c s IH]; [reflexivity|].
  cbn [JS.code_points]. destruct (JS.code_points s) as [|cp cps].
  - simpl in IH. subst s. reflexivity.
  - rewrite concat_cons in IH.
    destruct (JS.continues cp); rewrite !concat_cons; rewrite <- IH; reflexivity.
Qed.

Lemma last_prefixes_from (typed : string) (chars : list string) (d : string) :
  last (typed :: prefixes_from typed chars) d = typed ++ String.concat "" chars.
Proof.
  revert typed. induction chars as [|c chars IH]; intros typed.
  - simpl. symmetry. apply append_empty.
  - change (last (typed :: prefixes_from typed (c :: chars)) d)
      with (last ((typed ++ c) :: prefixes_from (typed ++ c) chars) d).
    rewrite IH, concat_cons. apply append_append.
Qed.

Lemma values_set_app (n : nat) (a b : list (Z * Effect)) :
  values_set n (a ++ b) = (values_set n a ++ values_set n b)%list.
Proof. apply flat_map_app. Qed.

Section Typing.
Context (env : Env).

(** What the loop of [typeText] does, for either controller: [Flow] has
    the loop of [FlowController], which is also that of
    [TikTokController]. *)
Lemma flow_typeChars_run (n : nat) (text : list string) (typed : string)
    (w : World FlowController.FlowControllerState) :
  exists w',
    run env (FlowController.typeChars n typed text) w = (Value tt, w') /\
    state w' = state w /\
    clock w + 30 * Z.of_nat (length text) <= clock w' /\
    exists tr,
      trace w' = (trace w ++ tr)%list /\
      values_set n tr = prefixes_from typed text /\
      Forall (fun e => aimed_at n (snd e) = true) tr.
Proof.
  revert typed w. induction text as [|c text IH]; intros typed w.
  - exists w. simpl. repeat split; [lia|]. exists []. rewrite app_nil_r. auto.
  - cbn [FlowController.typeChars].
    unfold do, sleep. cbn [bind run].
    match goal with |- context [run env (FlowController.typeChars n ?ty text) ?w1] =>
      destruct (IH ty w1) as (w' & Hrun & Hst & Hck & tr & Htr & Hv & Hf)
    end.
    exists w'. split; [exact Hrun|]. split; [rewrite Hst; reflexivity|]. split.
    + cbn [clock at_clock with_effect] in Hck.
      match type of Hck with wake env ?c ?ms + _ <= _ =>
        pose proof (wake_interval env c ms) as Hw;
        assert (30 <= ms) by (pose proof (Z.mod_pos_bound
                  (Z.of_N (random env c 50)) (Z.max 1 (Z.of_N 50)) ltac:(lia)); lia)
      end.
      cbn [length]. lia.
    + eexists. split; [rewrite Htr; cbn [trace at_clock with_effect];
                       rewrite <- !app_assoc; reflexivity|].
      split.
      * cbn [app]. unfold values_set at 1. cbn [flat_map snd].
        rewrite Nat.eqb_refl. cbn [app]. fold (values_set n tr). now rewrite Hv.
      * cbn [app]. repeat constructor; simpl; try apply Nat.eqb_refl. exact Hf.
Qed.

End Typing.

Section TypingTikTok.
Context (env : Env).

Lemma tiktok_typeChars_run (n : nat) (text : list string) (typed : string)
    (w : World TikTokController.TikTokControllerState) :
  exists w',
    run env (TikTokController.typeChars n typed text) w = (Value tt, w') /\
    state w' = state w /\
    clock w + 30 * Z.of_nat (length text) <= clock w' /\
    exists tr,
      trace w' = (trace w ++ tr)%list /\
      values_set n tr = prefixes_from typed text /\
      Forall (fun e => aimed_at n (snd e) = true) tr.
Proof.
  revert typed w. induction text as [|c text IH]; intros typed w.
  - exists w. simpl. repeat split; [lia|]. exists []. rewrite app_nil_r. auto.
  - cbn [TikTokController.typeChars].
    unfold do, sleep. cbn [bind run].
    match goal with |- context [run env (TikTokController.typeChars n ?ty text) ?w1] =>
      destruct (IH ty w1) as (w' & Hrun & Hst & Hck & tr & Htr & Hv & Hf)
    end.
    exists w'. split; [exact Hrun|]. split; [rewrite Hst; reflexivity|]. split.
    + cbn [clock at_clock with_effect] in Hck.
      match type of Hck with wake env ?c ?ms + _ <= _ =>
        pose proof (wake_interval env c ms) as Hw;
        assert (30 <= ms) by (pose proof (Z.mod_pos_bound
                  (Z.of_N (random env c 50)) (Z.max 1 (Z.of_N 50)) ltac:(lia)); lia)
      end.
      cbn [length]. lia.
    + eexists. split; [rewrite Htr; cbn [trace at_clock with_effect];
                       rewrite <- !app_assoc; reflexivity|].
      split.
      * cbn [app]. unfold values_set at 1. cbn [flat_map snd].
        rewrite Nat.eqb_refl. cbn [app]. fold (values_set n tr). now rewrite Hv.
      * cbn [app]. repeat constructor; simpl; try apply Nat.eqb_refl. exact Hf.
Qed.

End TypingTikTok.

(** X19.  [typeText] types the text into the element: the input is
    emptied and then given, one code point of the text at a time, every
    prefix of the text in turn, the whole text last (the page leaving the
    value as it is typed); every effect is on that element, the state of
    the agent is left alone, and typing takes at least 30 ms for each code
    point.  This holds for both controllers. *)
Theorem typeText_types_the_text (env : Env) (element : Element) (text : string) :
  (forall w : World FlowController.FlowControllerState,
     exists w',
       run env (FlowController.typeText element text) w = (Value tt, w') /\
       state w' = state w /\
       clock w + 30 * Z.of_nat (length (JS.code_points text)) <= clock w' /\
       exists tr,
         trace w' = (trace w ++ tr)%list /\
         values_set (node element) tr = "" :: prefixes_from "" (JS.code_points text) /\
         last (values_set (node element) tr) "" = text /\
         Forall (fun e => aimed_at (node element) (snd e) = true) tr) /\
  (forall w : World TikTokController.TikTokControllerState,
     exists w',
       run env (TikTokController.typeText element text) w = (Value tt, w') /\
       state w' = state w /\
       clock w + 30 * Z.of_nat (length (JS.code_points text)) <= clock w' /\
       exists tr,
         trace w' = (trace w ++ tr)%list /\
         values_set (node element) tr = "" :: prefixes_from "" (JS.code_points text) /\
         last (values_set (node element) tr) "" = text /\
         Forall (fun e => aimed_at (node element) (snd e) = true) tr).
Proof.
  split; intros w.
  - unfold FlowController.typeText, do. cbn [bind run]. rewrite run_bind.
    match goal with |- context [run env (FlowController.typeChars ?n ?ty ?cs) ?w1] =>
      destruct (flow_typeChars_run env n cs ty w1)
        as (w' & Hrun & Hst & Hck & tr & Htr & Hv & Hf)
    end.
    rewrite Hrun. cbn [run]. eexists. split; [reflexivity|].
    cbn [state clock trace with_effect] in *.
    split; [exact Hst|]. split; [exact Hck|].
    exists ([(clock w, focus (node element));
             (clock w, set_value (node element) "");
             (clock w, dispatchEvent (Some (node element)) "input")]
            ++ tr ++ [(clock w', dispatchEvent (Some (node element)) "change")])%list.
    split; [rewrite Htr; rewrite <- !app_assoc; reflexivity|].
    assert (Hvs : values_set (node element)
                    ([(clock w, focus (node element));
                      (clock w, set_value (node element) "");
                      (clock w, dispatchEvent (Some (node element)) "input")]
                     ++ tr ++ [(clock w', dispatchEvent (Some (node element)) "change")])
                  = "" :: prefixes_from "" (JS.code_points text)).
    { rewrite !values_set_app, Hv. unfold values_set. cbn [flat_map snd app].
      rewrite Nat.eqb_refl. cbn [app]. now rewrite app_nil_r. }
    split; [exact Hvs|].
    split; [rewrite Hvs, last_prefixes_from; apply concat_code_points|].
    repeat (apply Forall_app; split); repeat constructor; simpl;
      try apply Nat.eqb_refl. exact Hf.
  - unfold TikTokController.typeText, do. cbn [bind run]. rewrite run_bind.
    match goal with |- context [run env (TikTokController.typeChars ?n ?ty ?cs) ?w1] =>
      destruct (tiktok_typeChars_run env n cs ty w1)
        as (w' & Hrun & Hst & Hck & tr & Htr & Hv & Hf)
    end.
    rewrite Hrun. cbn [run]. eexists. split; [reflexivity|].
    cbn [state clock trace with_effect] in *.
    split; [exact Hst|]. split; [exact Hck|].
    exists ([(clock w, focus (node element));
             (clock w, set_value (node element) "")]
            ++ tr ++ [(clock w', dispatchEvent (Some (node element)) "change")])%list.
    split; [rewrite Htr; rewrite <- !app_assoc; reflexivity|].
    assert (Hvs : values_set (node element)
                    ([(clock w, focus (node element));
                      (clock w, set_value (node element) "")]
                     ++ tr ++ [(clock w', dispatchEvent (Some (node element)) "change")])
                  = "" :: prefixes_from "" (JS.code_points text)).
    { rewrite !values_set_app, Hv. unfold values_set. cbn [flat_map snd app].
      rewrite Nat.eqb_refl. cbn [app]. now rewrite app_nil_r. }
    split; [exact Hvs|].
    split; [rewrite Hvs, last_prefixes_from; apply concat_code_points|].
    repeat (apply Forall_app; split); repeat constructor; simpl;
      try apply Nat.eqb_refl. exact Hf.
Qed.

(** ** Finding a button by its label *)

Lemma filter_nil_iff {A} (f : A -> bool) (l : list A) :
  filter f l = [] <-> Forall (fun x => f x = false) l.
Proof.
  induction l as [|a l IH]; simpl; [split; auto|].
  destruct (f a) eqn:E.
  - split; [discriminate | intros H; inversion H; congruence].
  - rewrite IH. split; [intros H; constructor; auto | intros H; now inversion H].
Qed.

(** A target that is a no-break space is blank: no button is looked
    for.  A target between no-break spaces is looked for without them. *)
Example blank_target_finds_nothing :
  run cancelPage (FlowController.findButtonByText [nbsp; " "]) (flowWorld 0)
  = (Value None, flowWorld 0) /\
  run cancelPage (FlowController.findButtonByText [nbsp ++ "Cancel" ++ nbsp]) (flowWorld 0)
  = (Value (Some cancelButton), flowWorld 0).
Proof. split; reflexivity. Qed.

(** X20.  [findButtonByText] only looks at the page.  Blank targets are
    dropped: when every target is blank it answers [null] without looking,
    and the button it finds has a label that is not blank and contains one
    of the targets that are not blank (both trimmed); it is a [button] of
    the page at that instant. *)
Theorem findButtonByText_matches_a_target (env : Env) (texts : list string)
    (w : World FlowController.FlowControllerState) :
  snd (run env (FlowController.findButtonByText texts) w) = w /\
  (Forall (fun t => JS.trim t = "") texts ->
   fst (run env (FlowController.findButtonByText texts) w) = Value None) /\
  match fst (run env (FlowController.findButtonByText texts) w) with
  | Value (Some button) =>
      JS.trim (label_of button) <> "" /\
      (exists t, In t texts /\ JS.trim t <> "" /\
                 JS.includes (JS.trim (label_of button)) (JS.trim t) = true) /\
      (exists buttons,
         querySelectorAll env (clock w) None "button" = Matches buttons /\
         In button buttons)
  | _ => True
  end.
Proof.
  unfold FlowController.findButtonByText.
  destruct (length (filter JS.truthy (map JS.trim texts)) =? 0)%nat eqn:El.
  - simpl. auto.
  - split; [|split].
    + unfold querySelectorAll_of. simpl.
      destruct (querySelectorAll env (clock w) None "button"); reflexivity.
    + intros Hblank. apply Nat.eqb_neq in El. exfalso. apply El.
      replace (filter JS.truthy (map JS.trim texts)) with (@nil string); [reflexivity|].
      symmetry. apply filter_nil_iff. apply Forall_map.
      eapply Forall_impl; [|exact Hblank]. cbv beta. intros a ->. reflexivity.
    + unfold querySelectorAll_of. simpl.
      destruct (querySelectorAll env (clock w) None "button") as [buttons|msg] eqn:Eq;
        simpl; [|exact I].
      destruct (find _ buttons) as [button|] eqn:Ef; [|exact I].
      apply find_some in Ef as [Hin Hb]. apply andb_prop in Hb as [Hl Hx].
      split; [|split].
      * unfold JS.truthy in Hl. intros E. rewrite E in Hl. discriminate Hl.
      * apply existsb_exists in Hx as (t' & Ht' & Hinc).
        apply filter_In in Ht' as [Ht' Htr]. apply in_map_iff in Ht' as (t & <- & Ht).
        exists t. split; [exact Ht|]. split; [|exact Hinc].
        unfold JS.truthy in Htr. intros E. rewrite E in Htr. discriminate Htr.
      * exists buttons. auto.
Qed.

(** ** Cancelling *)

(** X21.  [cancelGeneration] clicks the first element under the
    cancel-button selector and lowers the in-progress flag, whether or not
    a command was in progress; it waits for no rate limit, records no
    action time and sends no message.  With no such element it answers
    [success: false] and nothing has happened; on a page that does not
    parse the selector it throws. *)
Theorem cancelGeneration_outcome (env : Env)
    (w : World FlowController.FlowControllerState) :
  match querySelectorAll env (clock w) None GOOGLE_FLOW_SELECTORS.cancelButton with
  | Matches [] => run env FlowController.cancelGeneration w = (Value false, w)
  | SyntaxError msg => run env FlowController.cancelGeneration w = (Error msg, w)
  | Matches (button :: _) =>
      exists w',
        run env FlowController.cancelGeneration w = (Value true, w') /\
        FlowController.isProcessing (state w') = false /\
        FlowController.currentJobId (state w') = None /\
        FlowController.lastActionTime (state w')
        = FlowController.lastActionTime (state w) /\
        clock w + 600 <= clock w' /\
        messages (trace w') = messages (trace w) /\
        click_times (trace w')
        = (click_times (trace w) ++ [wake env (wake env (clock w) 200) 100])%list
  end.
Proof.
  unfold FlowController.cancelGeneration, document_querySelector, querySelectorAll_of.
  cbn [bind run].
  destruct (querySelectorAll env (clock w) None GOOGLE_FLOW_SELECTORS.cancelButton)
    as [[|button els]|msg]; [reflexivity | | reflexivity].
  eexists. split; [reflexivity|]. simpl.
  repeat split.
  - pose proof (wake_interval env (clock w) 200).
    pose proof (wake_interval env (wake env (clock w) 200) 100).
    pose proof (wake_interval env (wake env (wake env (clock w) 200) 100) 300). lia.
  - rewrite !messages_app. simpl. now rewrite !app_nil_r.
  - unfold click_times. rewrite !filter_app, !map_app. simpl. now rewrite !app_nil_r.
Qed.

(** ** The id of a post *)

Lemma prefix_digits (s : string) : String.prefix (JS.digits s) s = true.
Proof.
  induction s as [|c s IH]; simpl; [reflexivity|].
  destruct (JS.is_digit c); simpl; [|reflexivity].
  destruct (ascii_dec c c); [exact IH | congruence].
Qed.

Lemma digits_all_digits (s : string) :
  forallb JS.is_digit (list_ascii_of_string (JS.digits s)) = true.
Proof.
  induction s as [|c s IH]; simpl; [reflexivity|].
  destruct (JS.is_digit c) eqn:E; simpl; [|reflexivity]. now rewrite E.
Qed.

Lemma prefix_append (a b s : string) :
  String.prefix a s = true -> String.prefix b (JS.drop (String.length a) s) = true ->
  String.prefix (a ++ b) s = true.
Proof.
  revert s. induction a as [|x a IH]; intros s; [simpl; auto|].
  destruct s as [|y s]; [simpl; discriminate|]. simpl.
  destruct (ascii_dec x y); [|discriminate]. apply IH.
Qed.

Lemma includes_prefix (s sub : string) : String.prefix sub s = true -> JS.includes s sub = true.
Proof. intros H. destruct s; cbn [JS.includes]; rewrite H; reflexivity. Qed.

Lemma includes_tail (c : ascii) (s sub : string) :
  JS.includes s sub = true -> JS.includes (String c s) sub = true.
Proof. intros H. cbn [JS.includes]. rewrite H. apply orb_true_r. Qed.

Lemma match_video_id_digits (s m : string) :
  JS.match_video_id s = Some m ->
  m <> "" /\
  forallb JS.is_digit (list_ascii_of_string m) = true /\
  JS.includes s ("/video/" ++ m) = true.
Proof.
  induction s as [|c s IH].
  - simpl. discriminate.
  - intros H.
    assert (Hstep : JS.match_video_id (String c s)
                    = let here := if String.prefix "/video/" (String c s)
                                  then JS.digits (JS.drop 7 (String c s))
                                  else EmptyString in
                      if JS.truthy here then Some here else JS.match_video_id s)
      by reflexivity.
    rewrite Hstep in H. clear Hstep. cbv zeta in H.
    remember (JS.drop 7 (String c s)) as d eqn:Ed.
    destruct (String.prefix "/video/" (String c s)) eqn:Ep.
    + destruct (JS.truthy (JS.digits d)) eqn:Et.
      * injection H as <-. split; [|split].
        -- unfold JS.truthy in Et. intros E. rewrite E in Et. discriminate Et.
        -- apply digits_all_digits.
        -- apply includes_prefix. apply prefix_append; [exact Ep|].
           change (String.length "/video/") with 7%nat. rewrite <- Ed.
           apply prefix_digits.
      * destruct (IH H) as (H1 & H2 & H3).
        split; [exact H1|]. split; [exact H2|]. now apply includes_tail.
    + change (JS.truthy "") with false in H. cbv iota in H.
      destruct (IH H) as (H1 & H2 & H3).
      split; [exact H1|]. split; [exact H2|]. now apply includes_tail.
Qed.

(** X28.  [extractPostId] reads the address of the page and the clock and
    nothing else, and it does not throw.  The id it gives is the first run
    of digits that follows [/video/] in the address, when there is one: a
    string of digits that is not empty; otherwise it is the placeholder
    [tiktok_] followed by the time. *)
Theorem extractPostId_outcome (env : Env)
    (w : World TikTokController.TikTokControllerState) :
  snd (run env TikTokController.extractPostId w) = w /\
  exists postId,
    fst (run env TikTokController.extractPostId w) = Value postId /\
    ((postId <> "" /\
      forallb JS.is_digit (list_ascii_of_string postId) = true /\
      JS.includes (location_href env (clock w)) ("/video/" ++ postId) = true)
     \/
     (JS.match_video_id (location_href env (clock w)) = None /\
      postId = "tiktok_" ++ JS.String_of_number (clock w))).
Proof.
  unfold TikTokController.extractPostId. cbn [bind run].
  destruct (JS.match_video_id (location_href env (clock w))) as [m|] eqn:E; cbn [bind run fst snd].
  - split; [reflexivity|]. exists m. split; [reflexivity|]. left.
    now apply match_video_id_digits.
  - split; [reflexivity|]. eexists. split; [reflexivity|]. right. auto.
Qed.

End AutomationFacts.

(** * Properties of the queue processor *)

Module QueueProcessorFacts.
Import QueueProcessor.
Local Open Scope task_scope.

(** ** Running composed methods *)

Section Executing.
Context (c : Chrome) (started : string -> Task Reply).

Lemma exec_bind {A B} (p : Task A) (f : A -> Task B) (w : World) :
  exec c started (bind p f) w =
  match exec c started p w with
  | (Returned a, w1) => exec c started (f a) w1
  | (Thrown msg, w1) => (Thrown msg, w1)
  end.
Proof.
  revert w. induction p; intros w; simpl; auto.
  destruct (start _ _ _) as [t rest]. auto.
Qed.

Lemma exec_try_catch {A} (p : Task A) (h : string -> Task A) (w : World) :
  exec c started (try_catch p h) w =
  match exec c started p w with
  | (Thrown msg, w1) => exec c started (h msg) w1
  | other => other
  end.
Proof.
  revert w. induction p; intros w; simpl; auto.
  destruct (start _ _ _) as [t rest]. auto.
Qed.

Lemma exec_try_finally {A} (p : Task A) (f : Task unit) (w : World) :
  exec c started (try_finally p f) w =
  match exec c started p w with
  | (Returned a, w1) => exec c started (bind f (fun _ => Done a)) w1
  | (Thrown msg, w1) => exec c started (bind f (fun _ => Fail msg)) w1
  end.
Proof.
  revert w. induction p; intros w; simpl; auto.
  destruct (start _ _ _) as [t rest]. auto.
Qed.

Lemma Steady_bind {A B} (p : Task A) (f : A -> Task B) :
  Steady p -> (forall a, Steady (f a)) -> Steady (bind p f).
Proof. intros Hp Hf. induction Hp; simpl; try constructor; auto. Qed.

Lemma Steady_exec {A} (p : Task A) (w : World) :
  Steady p ->
  this (snd (exec c started p w)) = this w /\
  parked (snd (exec c started p w)) = parked w.
Proof.
  intros Hp. revert w. induction Hp; intros w; cbn [exec]; auto;
    match goal with
    | IH : forall r w, _ /\ _ |- context [exec c started (?k ?r) ?w1] =>
        destruct (IH r w1) as [E1 E2]; rewrite E1, E2
    end; try destruct (rejects c (calls w)); split; reflexivity.
Qed.

Lemma Mute_bind {A B} (p : Task A) (f : A -> Task B) :
  Mute p -> (forall a, Mute (f a)) -> Mute (bind p f).
Proof. intros Hp Hf. induction Hp; simpl; try constructor; auto. Qed.

Lemma Mute_exec {A} (p : Task A) (w : World) :
  Mute p -> sent (snd (exec c started p w)) = sent w.
Proof.
  intros Hp. revert w. induction Hp; intros w; simpl; auto.
  - rewrite IHHp. reflexivity.
  - rewrite H0. reflexivity.
  - rewrite H0. destruct (rejects c (calls w)); reflexivity.
  - rewrite H0. reflexivity.
  - rewrite H0. reflexivity.
  - rewrite H0. reflexivity.
Qed.

End Executing.

Lemma Steady_updateJobStatus jobId status' data :
  Steady (updateJobStatus jobId status' data).
Proof.
  unfold updateJobStatus, storedJobs. apply Steady_bind.
  - constructor. intros [jobs|msg]; constructor.
  - intros jobs. destruct (findIndex _ jobs) as [[n job]|]; repeat constructor.
    intros [x|msg]; constructor.
Qed.

Lemma Steady_getJob jobId : Steady (getJob jobId).
Proof.
  unfold getJob, storedJobs. apply Steady_bind; [|constructor].
  constructor. intros [jobs|msg]; constructor.
Qed.

Lemma Steady_findOrCreateFlowTab : Steady findOrCreateFlowTab.
Proof.
  unfold findOrCreateFlowTab. apply Steady_bind.
  - constructor. intros [tabs|msg]; constructor.
  - intros [|tab tabs].
    + constructor. intros [t|msg]; constructor.
    + apply Steady_bind; [|constructor]. constructor. intros [x|msg]; constructor.
Qed.

Lemma Mute_updateJobStatus jobId status' data :
  Mute (updateJobStatus jobId status' data).
Proof.
  unfold updateJobStatus, storedJobs. apply Mute_bind.
  - constructor. intros [jobs|msg]; constructor.
  - intros jobs. destruct (findIndex _ jobs) as [[n job]|]; repeat constructor.
    intros [x|msg]; constructor.
Qed.

(** ** The set of active jobs *)

Lemma has_false (s : list string) (x : string) : has s x = false <-> ~ In x s.
Proof.
  unfold has. split.
  - intros H Hin. assert (E : existsb (fun y => y =? x) s = true); [|congruence].
    apply existsb_exists. exists x. split; [exact Hin | apply String.eqb_refl].
  - intros H. destruct (existsb _ s) eqn:E; [|reflexivity].
    apply existsb_exists in E as (y & Hy & Ey). apply String.eqb_eq in Ey. subst.
    contradiction.
Qed.

Lemma delete_absent (s : list string) (x : string) : ~ In x s -> delete s x = s.
Proof.
  unfold delete. induction s as [|y s IH]; simpl; [reflexivity|].
  intros H. destruct (String.eqb_spec y x) as [E|E]; simpl.
  - exfalso. apply H. auto.
  - f_equal. apply IH. tauto.
Qed.

Lemma delete_add (s : list string) (x : string) :
  has s x = false -> delete (add s x) x = s.
Proof.
  intros H. unfold add. rewrite H. unfold delete. rewrite filter_app. simpl.
  rewrite String.eqb_refl. simpl. rewrite app_nil_r.
  apply delete_absent. now apply has_false.
Qed.

Lemma length_delete (s : list string) (x : string) :
  (length (delete s x) <= length s)%nat.
Proof. apply filter_length_le. Qed.

(** ** One job *)

(** What is left of [handOver] after its first statement. *)
Lemma Steady_handOver_rest (jobId : string) :
  Steady (updateJobStatus jobId Types.processing no_data ;;
          job <- getJob jobId ;;
          match job with
          | None => Fail "Job not found"
          | Some job =>
              flowTab <- findOrCreateFlowTab ;;
              match tab_id flowTab with
              | Some (Datatypes.S n) =>
                  sendToTab (Datatypes.S n) (CREATE_VIDEO (payload_of jobId job))
              | _ => Fail "Could not open Google Flow"
              end
          end).
Proof.
  apply Steady_bind; [apply Steady_updateJobStatus|]. intros _.
  apply Steady_bind; [apply Steady_getJob|]. intros [job|]; [|constructor].
  apply Steady_bind; [apply Steady_findOrCreateFlowTab|]. intros [[[|n]|]]; try constructor.
  intros [r|msg]; constructor.
Qed.

(** X22.  [processJob], run to its end, leaves the set of active jobs as
    it found it, whatever the browser answers or rejects: the slot it
    takes in its [try] block is given back by the [finally].  A job that
    is active already is refused, and so is any job while the queue is
    paused; a refused call changes nothing at all. *)
Theorem processJob_gives_its_slot_back (c : Chrome) (started : string -> Task Reply)
    (jobId : string) (w : World) :
  this (snd (exec c started (processJob jobId) w)) = this w /\
  parked (snd (exec c started (processJob jobId) w)) = parked w /\
  (has (activeJobs (this w)) jobId = true ->
   exec c started (processJob jobId) w
   = (Returned {| success := false; error := Some "Job already processing" |}, w)) /\
  (has (activeJobs (this w)) jobId = false -> isPaused (this w) = true ->
   exec c started (processJob jobId) w
   = (Returned {| success := false; error := Some "Queue is paused" |}, w)).
Proof.
  unfold processJob. cbn [exec].
  destruct (has (activeJobs (this w)) jobId) eqn:Eh; [simpl; repeat split; discriminate|].
  destruct (isPaused (this w)) eqn:Ep; [simpl; repeat split; discriminate|].
  rewrite exec_try_finally, exec_try_catch. unfold handOver. rewrite exec_bind.
  change (exec c started (assign ?f) ?x) with (Returned tt, with_this (f (this x)) x).
  cbv beta iota.
  match goal with |- context [exec c started ?rest (with_this ?t w)] =>
    pose proof (Steady_exec c started rest (with_this t w) (Steady_handOver_rest jobId))
      as [Ht Hp];
    destruct (exec c started rest (with_this t w)) as [[r|msg] w1]
  end; simpl in Ht, Hp.
  - rewrite exec_bind.
    change (exec c started (assign ?f) ?x) with (Returned tt, with_this (f (this x)) x).
    simpl. rewrite Ht, Hp. simpl. rewrite delete_add by exact Eh.
    repeat split; try discriminate. destruct (this w); reflexivity.
  - rewrite exec_bind.
    match goal with |- context [exec c started (updateJobStatus ?a ?b ?d) w1] =>
      pose proof (Steady_exec c started _ w1 (Steady_updateJobStatus a b d)) as [Ht2 Hp2];
      destruct (exec c started (updateJobStatus a b d) w1) as [[[]|msg2] w2]
    end; simpl in Ht2, Hp2; cbv beta iota; rewrite ?exec_bind;
      change (exec c started (assign ?f) ?x) with (Returned tt, with_this (f (this x)) x);
      simpl; rewrite Ht2, Hp2, Ht, Hp; simpl; rewrite delete_add by exact Eh;
      (repeat split; try discriminate); destruct (this w); reflexivity.
Qed.

(** ** Dispatching *)

Lemma start_processJob (instant : Z) (jobId : string) (t : Processor) :
  fst (start instant (processJob jobId) t)
  = if has (activeJobs t) jobId || isPaused t then t
    else set_activeJobs (activeJobs t ++ [jobId]) t.
Proof.
  unfold processJob. cbn [start].
  destruct (has (activeJobs t) jobId) eqn:Eh; [reflexivity|].
  destruct (isPaused t); [reflexivity|]. simpl. unfold add. rewrite Eh. reflexivity.
Qed.

Lemma dispatch_bounded (c : Chrome) (pendingJobs : list Types.VideoJob) (w : World) :
  maxConcurrent (this (snd (perform c (dispatch pendingJobs) w))) = maxConcurrent (this w) /\
  stored (snd (perform c (dispatch pendingJobs) w)) = stored w /\
  sent (snd (perform c (dispatch pendingJobs) w)) = sent w /\
  calls (snd (perform c (dispatch pendingJobs) w)) = calls w /\
  (length (activeJobs (this (snd (perform c (dispatch pendingJobs) w))))
   <= Nat.max (length (activeJobs (this w))) (maxConcurrent (this w)))%nat /\
  exists new,
    activeJobs (this (snd (perform c (dispatch pendingJobs) w)))
    = (activeJobs (this w) ++ new)%list /\
    incl new (map Types.id pendingJobs).
Proof.
  unfold perform. revert w. induction pendingJobs as [|job rest IH]; intros w.
  - simpl. repeat split; [lia|]. exists []. rewrite app_nil_r. split; [reflexivity|].
    intros x [].
  - cbn [dispatch exec].
    destruct (Nat.leb_spec (maxConcurrent (this w)) (length (activeJobs (this w))))
      as [Hfull|Hroom].
    + simpl. repeat split; [lia|]. exists []. rewrite app_nil_r.
      split; [reflexivity | intros x []].
    + destruct (has (activeJobs (this w)) (Types.id job)) eqn:Eh; cbn [negb exec].
      * destruct (IH w) as (H1 & H2 & H3 & H4 & H5 & new & H6 & H7).
        repeat split; auto. exists new. split; [exact H6|].
        intros x Hx. right. auto.
      * pose proof (start_processJob (now c (calls w)) (Types.id job) (this w)) as Hs.
        destruct (start (now c (calls w)) (processJob (Types.id job)) (this w))
          as [t rest']. simpl in Hs. rewrite Eh in Hs. simpl in Hs.
        destruct (IH (park rest' (with_this t w)))
          as (H1 & H2 & H3 & H4 & H5 & new & H6 & H7).
        simpl in H1, H2, H3, H4, H5, H6.
        destruct (isPaused (this w)); subst t.
        -- repeat split; auto. exists new. split; [exact H6|].
           intros x Hx. right. auto.
        -- simpl in *. rewrite length_app in H5. simpl in H5.
           repeat split; auto; [lia|].
           exists (Types.id job :: new). rewrite H6, <- app_assoc.
           split; [reflexivity|].
           intros x [<-|Hx]; [left; reflexivity | right; auto].
Qed.

(** The loop of [processNextInQueue] starts the first jobs of its list
    that are not active, each id once, as many as there are slots. *)
Lemma dispatch_starts (c : Chrome) (pendingJobs : list Types.VideoJob) (w : World) :
  isPaused (this w) = false ->
  activeJobs (this (snd (perform c (dispatch pendingJobs) w)))
  = (activeJobs (this w)
     ++ firstn (maxConcurrent (this w) - length (activeJobs (this w)))
          (fresh_ids (activeJobs (this w)) (map Types.id pendingJobs)))%list.
Proof.
  unfold perform. revert w. induction pendingJobs as [|job rest IH]; intros w Hp.
  - simpl. rewrite firstn_nil. now rewrite app_nil_r.
  - cbn [dispatch exec].
    destruct (Nat.leb_spec (maxConcurrent (this w)) (length (activeJobs (this w))))
      as [Hfull|Hroom].
    + simpl snd.
      replace (maxConcurrent (this w) - length (activeJobs (this w)))%nat with 0%nat by lia.
      simpl. now rewrite app_nil_r.
    + cbn [map fresh_ids].
      destruct (has (activeJobs (this w)) (Types.id job)) eqn:Eh; cbn [negb exec].
      * apply IH, Hp.
      * pose proof (start_processJob (now c (calls w)) (Types.id job) (this w)) as Hs.
        destruct (start (now c (calls w)) (processJob (Types.id job)) (this w))
          as [t rest']. simpl in Hs. rewrite Eh, Hp in Hs. simpl in Hs. subst t.
        rewrite IH by exact Hp. cbn [this with_this park activeJobs maxConcurrent
                                     set_activeJobs].
        rewrite length_app. cbn [length].
        replace (maxConcurrent (this w) - length (activeJobs (this w)))%nat
          with (Datatypes.S (maxConcurrent (this w)
                             - (length (activeJobs (this w)) + 1)))%nat by lia.
        cbn [firstn]. now rewrite <- app_assoc.
Qed.

(** X23.  [processNextInQueue] starts jobs only while fewer than
    [maxConcurrent] are active: after it the number of active jobs is at
    most [maxConcurrent], or what it was if that was more.  The jobs it
    starts are added to the set of active jobs in the order of the queue:
    they are the first jobs that the storage holds as pending, each id
    once and none that was active already, as many as there were slots.
    None is started while the queue is paused, or when the browser rejects
    the reading of the storage.  The call itself writes nothing to the
    storage and sends no message: the jobs it started are parked at their
    first call to the browser. *)
Theorem processNextInQueue_keeps_to_maxConcurrent (c : Chrome) (w : World) :
  (length (activeJobs (this (snd (perform c processNextInQueue w))))
   <= Nat.max (length (activeJobs (this w))) (maxConcurrent (this w)))%nat /\
  activeJobs (this (snd (perform c processNextInQueue w)))
  = (activeJobs (this w)
     ++ if isPaused (this w) then []
        else match rejects c (calls w) with
             | Some _ => []
             | None =>
                 firstn (maxConcurrent (this w) - length (activeJobs (this w)))
                   (fresh_ids (activeJobs (this w)) (pending_ids w))
             end)%list /\
  (exists new,
     activeJobs (this (snd (perform c processNextInQueue w)))
     = (activeJobs (this w) ++ new)%list /\
     (forall i, In i new ->
        exists job, In job (stored w) /\ Types.id job = i /\
                    Types.status job = Types.pending) /\
     (isPaused (this w) = true -> new = [])) /\
  maxConcurrent (this (snd (perform c processNextInQueue w))) = maxConcurrent (this w) /\
  stored (snd (perform c processNextInQueue w)) = stored w /\
  sent (snd (perform c processNextInQueue w)) = sent w.
Proof.
  unfold perform, processNextInQueue. cbn [exec].
  destruct (isPaused (this w)) eqn:Ep; cbn [orb].
  { simpl. repeat split; [lia | now rewrite app_nil_r |].
    exists []. rewrite app_nil_r. repeat split. intros i []. }
  destruct (Nat.leb_spec (maxConcurrent (this w)) (length (activeJobs (this w))))
    as [Hfull|Hroom].
  { simpl. repeat split; [lia | |].
    - replace (maxConcurrent (this w) - length (activeJobs (this w)))%nat with 0%nat
        by lia.
      destruct (rejects c (calls w)); simpl; now rewrite app_nil_r.
    - exists []. rewrite app_nil_r. repeat split. intros i []. }
  unfold getPendingJobs, storedJobs. cbn [bind exec]. unfold answer.
  destruct (rejects c (calls w)); cbn [awaited bind exec].
  { simpl. repeat split; [lia | now rewrite app_nil_r |].
    exists []. rewrite app_nil_r. repeat split. intros i []. }
  match goal with |- context [exec c processJob (dispatch ?l) ?w1] =>
    destruct (dispatch_bounded c l w1) as (H1 & H2 & H3 & H4 & H5 & new & H6 & H7);
    pose proof (dispatch_starts c l w1 Ep) as Hs
  end.
  unfold perform in *. simpl in H1, H2, H3, H5, H6, Hs.
  split; [exact H5|]. split; [exact Hs|].
  repeat split; auto. exists new. split; [exact H6|]. split; [|discriminate].
  intros i Hi. apply H7 in Hi. apply in_map_iff in Hi as (job & Hid & Hjob).
  apply filter_In in Hjob as [Hin Hst]. exists job. repeat split; auto.
  destruct (Types.status job); try discriminate Hst. reflexivity.
Qed.

(** With three jobs waiting and two slots, the first two are started, in
    the order of the queue. *)
Example next_starts_the_first_two :
  activeJobs (this (snd (perform flowTabOpen processNextInQueue threeWaiting)))
  = ["job-1"; "job-2"].
Proof. reflexivity. Qed.

(** X24.  [processJob] itself does not look at [maxConcurrent]: called
    for a job that is not active, with the queue not paused, it takes a
    slot however many jobs are active, so a [CREATE_VIDEO] message or a
    retry can take the set of active jobs past the limit. *)
Theorem processJob_takes_a_slot_unchecked (instant : Z) (jobId : string) (t : Processor) :
  has (activeJobs t) jobId = false ->
  isPaused t = false ->
  activeJobs (fst (start instant (processJob jobId) t)) = (activeJobs t ++ [jobId])%list /\
  length (activeJobs (fst (start instant (processJob jobId) t)))
  = Datatypes.S (length (activeJobs t)).
Proof.
  intros Hh Hp. rewrite start_processJob, Hh, Hp. simpl.
  split; [reflexivity|]. rewrite length_app. simpl. lia.
Qed.

Lemma processJob_takes_a_slot_unchecked_witness :
  activeJobs (fst (start 0 (processJob "job-3") (this twoActive)))
  = ["job-1"; "job-2"; "job-3"] /\
  (maxConcurrent (this twoActive)
   < length (activeJobs (fst (start 0 (processJob "job-3") (this twoActive)))))%nat.
Proof.
  destruct (processJob_takes_a_slot_unchecked 0 "job-3" (this twoActive) eq_refl eq_refl)
    as [H1 H2].
  split; [exact H1 | rewrite H2; simpl; lia].
Defined.

(** ** The stored jobs *)

Lemma findIndex_found {A} (p : A -> bool) (l : list A) (n : nat) (x : A) :
  findIndex p l = Some (n, x) -> find p l = Some x /\ p x = true.
Proof.
  revert n. induction l as [|a l IH]; simpl; [discriminate|]. intros n.
  destruct (p a) eqn:E.
  - intros [= <- <-]. auto.
  - destruct (findIndex p l) as [[m y]|]; [|discriminate].
    intros [= <- <-]. apply (IH m). reflexivity.
Qed.

Lemma find_findIndex {A} (p : A -> bool) (l : list A) (x : A) :
  find p l = Some x -> exists n, findIndex p l = Some (n, x).
Proof.
  induction l as [|a l IH]; simpl; [discriminate|].
  destruct (p a).
  - intros [= <-]. eauto.
  - intros H. destruct (IH H) as [n ->]. eauto.
Qed.

Lemma findIndex_none {A} (p : A -> bool) (l : list A) :
  findIndex p l = None -> find p l = None.
Proof.
  induction l as [|a l IH]; simpl; [reflexivity|].
  destruct (p a); [discriminate|].
  destruct (findIndex p l) as [[m y]|]; [discriminate | auto].
Qed.

Lemma find_assign_at {A} (p : A -> bool) (l : list A) (n : nat) (x y : A) :
  findIndex p l = Some (n, x) -> p y = true -> find p (assign_at n y l) = Some y.
Proof.
  revert n. induction l as [|a l IH]; simpl; [discriminate|]. intros n.
  destruct (p a) eqn:E.
  - intros [= <- <-] Hy. simpl. rewrite Hy. reflexivity.
  - destruct (findIndex p l) as [[m z]|] eqn:Ef; [|discriminate].
    intros [= <- <-] Hy. simpl. rewrite E. apply (IH m); auto.
Qed.

Lemma find_assign_at_other {A} (p q : A -> bool) (l : list A) (n : nat) (x y : A) :
  findIndex p l = Some (n, x) -> q x = false -> q y = false ->
  find q (assign_at n y l) = find q l.
Proof.
  revert n. induction l as [|a l IH]; simpl; [discriminate|]. intros n.
  destruct (p a) eqn:E.
  - intros [= <- <-] Hx Hy. simpl. now rewrite Hx, Hy.
  - destruct (findIndex p l) as [[m z]|] eqn:Ef; [|discriminate].
    intros [= <- <-] Hx Hy. simpl. destruct (q a); [reflexivity|]. apply (IH m); auto.
Qed.

Lemma map_id_assign_at (l : list Types.VideoJob) (n : nat) (x y : Types.VideoJob)
    (p : Types.VideoJob -> bool) :
  findIndex p l = Some (n, x) -> Types.id y = Types.id x ->
  map Types.id (assign_at n y l) = map Types.id l.
Proof.
  revert n. induction l as [|a l IH]; simpl; [discriminate|]. intros n.
  destruct (p a).
  - intros [= <- <-] Hy. simpl. now rewrite Hy.
  - destruct (findIndex p l) as [[m z]|] eqn:Ef; [|discriminate].
    intros [= <- <-] Hy. simpl. f_equal. apply (IH m); auto.
Qed.

Section Preserving.
Context (c : Chrome) (started : string -> Task Reply) (P : list Types.VideoJob -> Prop).

Lemma preserves_bind {A B} (p : Task A) (f : A -> Task B) :
  preserves c started P p -> (forall a, preserves c started P (f a)) ->
  preserves c started P (bind p f).
Proof.
  intros Hp Hf w Hw. rewrite exec_bind. specialize (Hp w Hw).
  destruct (exec c started p w) as [[a|msg] w1]; simpl in *; [now apply Hf | exact Hp].
Qed.

Lemma preserves_try_catch {A} (p : Task A) (h : string -> Task A) :
  preserves c started P p -> (forall m, preserves c started P (h m)) ->
  preserves c started P (try_catch p h).
Proof.
  intros Hp Hh w Hw. rewrite exec_try_catch. specialize (Hp w Hw).
  destruct (exec c started p w) as [[a|msg] w1]; simpl in *; [exact Hp | now apply Hh].
Qed.

Lemma preserves_try_finally {A} (p : Task A) (f : Task unit) :
  preserves c started P p -> preserves c started P f ->
  preserves c started P (try_finally p f).
Proof.
  intros Hp Hf w Hw. rewrite exec_try_finally. specialize (Hp w Hw).
  destruct (exec c started p w) as [[a|msg] w1]; simpl in *;
    rewrite exec_bind; specialize (Hf w1 Hp);
    destruct (exec c started f w1) as [[[]|msg'] w2]; simpl in *; exact Hf.
Qed.

Lemma Reader_exec {A} (p : Task A) (w : World) :
  Reader p -> stored (snd (exec c started p w)) = stored w.
Proof.
  intros Hp. revert w. induction Hp; intros w; cbn [exec]; auto;
    try (rewrite ?H0, ?IHHp; reflexivity).
  destruct (start _ _ _) as [t rest]. rewrite IHHp. reflexivity.
Qed.

Lemma Reader_preserves {A} (p : Task A) : Reader p -> preserves c started P p.
Proof. intros Hp w Hw. now rewrite Reader_exec. Qed.

Lemma preserves_updateJobStatus (jobId : string) (status' : Types.VideoStatus)
    (data : Types.PartialVideoJob) :
  (forall jobs n job instant,
     P jobs -> findIndex (fun j => Types.id j =? jobId) jobs = Some (n, job) ->
     P (assign_at n (QueueStore.spread (with_status status' job) data instant) jobs)) ->
  preserves c started P (updateJobStatus jobId status' data).
Proof.
  intros H w Hw. unfold updateJobStatus, storedJobs. cbn [bind exec]. unfold answer.
  destruct (rejects c (calls w)); cbn [awaited bind exec]; [exact Hw|].
  destruct (findIndex _ (stored w)) as [[n job]|] eqn:Ef; cbn [exec]; [|exact Hw].
  unfold answer. cbn [calls called].
  destruct (rejects c (Datatypes.S (calls w))); cbn [awaited exec snd stored called];
    [exact Hw | now apply H].
Qed.

End Preserving.

Lemma Reader_bind {A B} (p : Task A) (f : A -> Task B) :
  Reader p -> (forall a, Reader (f a)) -> Reader (bind p f).
Proof. intros Hp Hf. induction Hp; simpl; try constructor; auto. Qed.

Lemma Reader_assign f : Reader (assign f).
Proof. unfold assign. repeat constructor. Qed.

Lemma Reader_getJob jobId : Reader (getJob jobId).
Proof.
  unfold getJob, storedJobs. cbn [bind]. constructor. intros [jobs|msg]; constructor.
Qed.

Lemma Reader_getPendingJobs : Reader getPendingJobs.
Proof.
  unfold getPendingJobs, storedJobs. cbn [bind]. constructor.
  intros [jobs|msg]; constructor.
Qed.

Lemma Reader_findOrCreateFlowTab : Reader findOrCreateFlowTab.
Proof.
  unfold findOrCreateFlowTab. cbn [bind]. constructor. intros [[|tab tabs]|msg]; simpl.
  - constructor. intros [t|msg]; constructor.
  - constructor. intros [x|msg]; constructor.
  - constructor.
Qed.

Lemma Reader_dispatch pendingJobs : Reader (dispatch pendingJobs).
Proof.
  induction pendingJobs as [|job rest IH]; simpl; constructor. intros t.
  destruct (_ <=? _)%nat; [constructor|].
  destruct (negb _); [constructor|]; exact IH.
Qed.

Lemma Reader_processNextInQueue : Reader processNextInQueue.
Proof.
  unfold processNextInQueue. constructor. intros t.
  destruct (_ || _); [constructor|].
  unfold getPendingJobs, storedJobs. cbn [bind]. constructor.
  intros [jobs|msg]; simpl; [apply Reader_dispatch | constructor].
Qed.

Section Methods.
Context (c : Chrome) (started : string -> Task Reply) (P : list Types.VideoJob -> Prop).
Hypothesis update_keeps :
  forall jobId status' data,
    Types.u_id data = None -> Types.u_retryCount data = None ->
    preserves c started P (updateJobStatus jobId status' data).

Lemma preserves_processJob (jobId : string) : preserves c started P (processJob jobId).
Proof.
  unfold processJob. intros w Hw. cbn [exec].
  destruct (has _ _); [exact Hw|]. destruct (isPaused _); [exact Hw|].
  revert w Hw. apply preserves_try_finally; [|apply Reader_preserves, Reader_assign].
  apply preserves_try_catch.
  - unfold handOver.
    apply preserves_bind; [apply Reader_preserves, Reader_assign|]. intros _.
    apply preserves_bind; [now apply update_keeps|]. intros _.
    apply preserves_bind; [apply Reader_preserves, Reader_getJob|].
    intros [job|]; [|apply Reader_preserves; constructor].
    apply preserves_bind; [apply Reader_preserves, Reader_findOrCreateFlowTab|].
    intros [[[|n]|]]; apply Reader_preserves; try constructor.
    intros [r|msg]; constructor.
  - intros m. apply preserves_bind; [now apply update_keeps|].
    intros _. apply Reader_preserves. constructor.
Qed.

Lemma preserves_cancelJob (jobId : string) : preserves c started P (cancelJob jobId).
Proof.
  unfold cancelJob. apply preserves_bind; [now apply update_keeps|]. intros _.
  apply preserves_bind; [apply Reader_preserves, Reader_assign|]. intros _.
  apply Reader_preserves. constructor.
Qed.

End Methods.

(** X25.  [cancelJob] marks the first stored job with the id as
    cancelled, whatever its status was, takes the id out of the set of
    active jobs and answers with success, also when no job has the id.  It
    sends no message to any tab.  It throws exactly when the browser
    rejects the read of the storage, or, a job having the id, the write:
    the error is the one of the browser, and the set of active jobs and
    the storage are as they were. *)
Theorem cancelJob_marks_and_frees (c : Chrome) (started : string -> Task Reply)
    (jobId : string) (w : World) :
  sent (snd (exec c started (cancelJob jobId) w)) = sent w /\
  parked (snd (exec c started (cancelJob jobId) w)) = parked w /\
  match exec c started (cancelJob jobId) w with
  | (Returned reply, w') =>
      reply = {| success := true; error := None |} /\
      activeJobs (this w') = delete (activeJobs (this w)) jobId /\
      match stored_job jobId w with
      | Some job =>
          stored_job jobId w'
          = Some (QueueStore.spread (with_status Types.cancelled job) no_data
                    (now c (Datatypes.S (calls w))))
      | None => stored w' = stored w
      end
  | (Thrown msg, w') => this w' = this w /\ stored w' = stored w
  end /\
  match rejects c (calls w) with
  | Some msg => exec c started (cancelJob jobId) w = (Thrown msg, called w)
  | None =>
      match stored_job jobId w with
      | None => exists w', exec c started (cancelJob jobId) w
                           = (Returned {| success := true; error := None |}, w')
      | Some job =>
          match rejects c (Datatypes.S (calls w)) with
          | Some msg =>
              exec c started (cancelJob jobId) w = (Thrown msg, called (called w))
          | None => exists w', exec c started (cancelJob jobId) w
                               = (Returned {| success := true; error := None |}, w')
          end
      end
  end.
Proof.
  unfold cancelJob, stored_job.
  split; [|split; [|split]].
  - apply Mute_exec. apply Mute_bind; [apply Mute_updateJobStatus|].
    intros _. unfold assign. repeat constructor.
  - rewrite exec_bind.
    pose proof (Steady_exec c started _ w (Steady_updateJobStatus jobId Types.cancelled no_data))
      as [_ Hp].
    destruct (exec c started (updateJobStatus jobId Types.cancelled no_data) w)
      as [[[]|msg] w1]; simpl in *; exact Hp.
  - unfold updateJobStatus, storedJobs, assign. simpl. unfold answer.
    destruct (rejects c (calls w)); simpl; [split; reflexivity|].
    destruct (findIndex _ (stored w)) as [[n job]|] eqn:Ef; simpl.
    + destruct (findIndex_found _ _ _ _ Ef) as [Hfind Hid]. rewrite Hfind.
      unfold answer. simpl.
      destruct (rejects c (Datatypes.S (calls w))); simpl; [split; reflexivity|].
      split; [reflexivity|]. split; [reflexivity|].
      apply (find_assign_at _ _ _ _ _ Ef). exact Hid.
    + rewrite (findIndex_none _ _ Ef). repeat split.
  - unfold updateJobStatus, storedJobs, assign. simpl. unfold answer.
    destruct (rejects c (calls w)); simpl; [reflexivity|].
    destruct (findIndex _ (stored w)) as [[n job]|] eqn:Ef; simpl.
    + destruct (findIndex_found _ _ _ _ Ef) as [Hfind Hid]. rewrite Hfind.
      unfold answer. simpl.
      destruct (rejects c (Datatypes.S (calls w))); simpl; [reflexivity|].
      eexists. reflexivity.
    + rewrite (findIndex_none _ _ Ef). eexists. reflexivity.
Qed.

(** A browser that rejects the first call made to it: [cancelJob] throws
    its error. *)
Example cancelJob_rejected :
  exec {| rejects := fun n => if (n =? 0)%nat then Some "QUOTA_BYTES quota exceeded"
                              else None;
          now := now flowTabOpen; tabs_query := tabs_query flowTabOpen;
          tabs_create := tabs_create flowTabOpen; tabs_reply := tabs_reply flowTabOpen |}
    processJob (cancelJob "job-1") twoActive
  = (Thrown "QUOTA_BYTES quota exceeded", called twoActive).
Proof. reflexivity. Qed.

(** X26.  [retryJob] of the processor has no cap on the number of
    retries and does not look at the status of the job: with a browser
    that rejects no call, the stored job comes out of it with its
    [retryCount] raised by one, whatever the count was. *)
Theorem retryJob_counts_without_a_cap (c : Chrome) (jobId : string) (w : World)
    (job : Types.VideoJob) :
  reliable c ->
  stored_job jobId w = Some job ->
  exists job',
    stored_job jobId (snd (perform c (retryJob jobId) w)) = Some job' /\
    Types.retryCount job' = Types.retryCount job + 1.
Proof.
  intros Hrel Hjob. unfold perform, retryJob, stored_job in *.
  unfold getJob, storedJobs. cbn [bind exec]. unfold answer.
  rewrite (Hrel (calls w)). cbn [awaited bind exec]. rewrite Hjob. cbn [bind].
  rewrite exec_bind.
  destruct (find_findIndex _ _ _ Hjob) as [n Ef].
  assert (Hu : exists job1 w1,
             exec c processJob
               (updateJobStatus jobId Types.pending (retry_data (Types.retryCount job + 1)))
               (called w) = (Returned tt, w1) /\
             find (fun j => Types.id j =? jobId) (stored w1) = Some job1 /\
             Types.retryCount job1 = Types.retryCount job + 1).
  { unfold updateJobStatus, storedJobs. cbn [bind exec]. unfold answer.
    rewrite (Hrel (calls (called w))). cbn [awaited bind exec stored called].
    rewrite Ef. cbn [exec]. unfold answer. rewrite (Hrel _). cbn [awaited exec].
    eexists. eexists. split; [reflexivity|]. cbn [stored called with_stored].
    split; [apply (find_assign_at _ _ _ _ _ Ef); apply (findIndex_found _ _ _ _ Ef)|].
    reflexivity. }
  destruct Hu as (job1 & w1 & -> & Hf1 & Hr1).
  apply (preserves_processJob c processJob
           (fun js => exists job', find (fun j => Types.id j =? jobId) js = Some job' /\
                                   Types.retryCount job' = Types.retryCount job + 1));
    [|eauto].
  intros jobId' status' data Hid Hrc. apply preserves_updateJobStatus.
  intros jobs m job0 instant (job' & Hf & Hr) Efm.
  destruct (String.eqb_spec jobId' jobId) as [->|Hne].
  - destruct (findIndex_found _ _ _ _ Efm) as [Hf0 Hid0].
    rewrite Hf in Hf0. injection Hf0 as <-.
    eexists. split; [apply (find_assign_at _ _ _ _ _ Efm)|].
    + unfold QueueStore.spread. simpl. rewrite Hid. exact Hid0.
    + unfold QueueStore.spread. simpl. rewrite Hrc. exact Hr.
  - destruct (findIndex_found _ _ _ _ Efm) as [Hf0 Hid0].
    apply String.eqb_eq in Hid0.
    exists job'. split; [|exact Hr].
    rewrite (find_assign_at_other _ (fun j => Types.id j =? jobId) _ _ _ _ Efm);
      [exact Hf | |].
    + apply String.eqb_neq. congruence.
    + unfold QueueStore.spread. simpl. rewrite Hid. simpl.
      apply String.eqb_neq. congruence.
Qed.

Lemma retryJob_counts_without_a_cap_witness :
  exists job',
    stored_job "job-1" (snd (perform flowTabOpen (retryJob "job-1") failedThrice))
    = Some job' /\
    Types.retryCount job' = 3 + 1.
Proof.
  apply (retryJob_counts_without_a_cap flowTabOpen "job-1" failedThrice
           (sampleJob "job-1" Types.failed 3)).
  - intros n. reflexivity.
  - reflexivity.
Defined.

(** X27.  No method of the processor adds a job to the storage or
    removes one: [processJob], [cancelJob] and [retryJob] leave the ids of
    the stored jobs and their order as they are, and
    [processNextInQueue], [startBatchProcessing], [pauseProcessing] and
    [resumeProcessing] write nothing to the storage. *)
Theorem processor_keeps_the_stored_ids (c : Chrome) (w : World) :
  (forall jobId,
     map Types.id (stored (snd (perform c (processJob jobId) w)))
     = map Types.id (stored w)) /\
  (forall jobId,
     map Types.id (stored (snd (perform c (cancelJob jobId) w)))
     = map Types.id (stored w)) /\
  (forall jobId,
     map Types.id (stored (snd (perform c (retryJob jobId) w)))
     = map Types.id (stored w)) /\
  stored (snd (perform c processNextInQueue w)) = stored w /\
  stored (snd (perform c startBatchProcessing w)) = stored w /\
  stored (snd (perform c pauseProcessing w)) = stored w /\
  stored (snd (perform c resumeProcessing w)) = stored w.
Proof.
  assert (Hu : forall jobId status' data,
             Types.u_id data = None -> Types.u_retryCount data = None ->
             preserves c processJob (fun js => map Types.id js = map Types.id (stored w))
               (updateJobStatus jobId status' data)).
  { intros jobId status' data Hid _. apply preserves_updateJobStatus.
    intros jobs n job instant Hjobs Ef. rewrite <- Hjobs.
    apply (map_id_assign_at _ _ job _ _ Ef).
    unfold QueueStore.spread. simpl. now rewrite Hid. }
  unfold perform. split; [|split; [|split; [|split; [|split; [|split]]]]].
  - intros jobId. now apply (preserves_processJob c processJob _ Hu jobId w).
  - intros jobId. now apply (preserves_cancelJob c processJob _ Hu jobId w).
  - intros jobId. revert w Hu. 
    enough (H : forall w0 w,
               (forall jobId status' data,
                  Types.u_id data = None -> Types.u_retryCount data = None ->
                  preserves c processJob
                    (fun js => map Types.id js = map Types.id (stored w0))
                    (updateJobStatus jobId status' data)) ->
               map Types.id (stored w) = map Types.id (stored w0) ->
               map Types.id (stored (snd (exec c processJob (retryJob jobId) w)))
               = map Types.id (stored w0)).
    { intros w Hu. now apply (H w w Hu). }
    intros w0 w Hu. revert w. 
    change (preserves c processJob (fun js => map Types.id js = map Types.id (stored w0))
              (retryJob jobId)).
    unfold retryJob.
    apply preserves_bind; [apply Reader_preserves, Reader_getJob|].
    intros [job|]; [|apply Reader_preserves; constructor].
    apply preserves_bind; [apply preserves_updateJobStatus|].
    + intros jobs n job0 instant Hjobs Ef. rewrite <- Hjobs.
      apply (map_id_assign_at _ _ job0 _ _ Ef). reflexivity.
    + intros _. now apply preserves_processJob.
  - apply Reader_exec, Reader_processNextInQueue.
  - apply Reader_exec. unfold startBatchProcessing.
    repeat (apply Reader_bind; [first [apply Reader_assign | apply Reader_processNextInQueue]
                               | intros _]).
    constructor.
  - reflexivity.
  - apply Reader_exec. unfold resumeProcessing.
    repeat (apply Reader_bind; [first [apply Reader_assign | apply Reader_processNextInQueue]
                               | intros _]).
    constructor.
Qed.

(** ** The jobs that were started give their slots back *)

Lemma start_processJob_rest (instant : Z) (jobId : string) (t : Processor) :
  has (activeJobs t) jobId = false ->
  isPaused t = false ->
  snd (start instant (processJob jobId) t) = handedOver jobId.
Proof.
  intros Hh Hp. unfold processJob. cbn [start]. rewrite Hh, Hp. reflexivity.
Qed.

Lemma handedOver_gives_back (c : Chrome) (started : string -> Task Reply)
    (jobId : string) (w : World) :
  this (snd (exec c started (handedOver jobId) w))
  = set_activeJobs (delete (activeJobs (this w)) jobId) (this w) /\
  parked (snd (exec c started (handedOver jobId) w)) = parked w.
Proof.
  unfold handedOver. rewrite exec_try_finally, exec_try_catch.
  match goal with |- context [exec c started ?rest w] =>
    pose proof (Steady_exec c started rest w (Steady_handOver_rest jobId)) as [Ht Hp];
    destruct (exec c started rest w) as [[r|msg] w1]
  end; simpl in Ht, Hp.
  - rewrite exec_bind.
    change (exec c started (assign ?f) ?x) with (Returned tt, with_this (f (this x)) x).
    simpl. rewrite Ht, Hp. auto.
  - rewrite exec_bind.
    match goal with |- context [exec c started (updateJobStatus ?a ?b ?d) w1] =>
      pose proof (Steady_exec c started _ w1 (Steady_updateJobStatus a b d)) as [Ht2 Hp2];
      destruct (exec c started (updateJobStatus a b d) w1) as [[[]|msg2] w2]
    end; simpl in Ht2, Hp2; cbv beta iota; rewrite ?exec_bind;
      change (exec c started (assign ?f) ?x) with (Returned tt, with_this (f (this x)) x);
      simpl; rewrite Ht2, Hp2, Ht, Hp; auto.
Qed.

Lemma dispatch_parks (c : Chrome) (pendingJobs : list Types.VideoJob) (w : World) :
  isPaused (this w) = false ->
  exists new,
    this (snd (perform c (dispatch pendingJobs) w))
    = set_activeJobs (activeJobs (this w) ++ new) (this w) /\
    parked (snd (perform c (dispatch pendingJobs) w))
    = (parked w ++ map handedOver new)%list /\
    (forall i, In i new -> ~ In i (activeJobs (this w))).
Proof.
  unfold perform. revert w. induction pendingJobs as [|job rest IH]; intros w Hp.
  - exists []. simpl. rewrite !app_nil_r. destruct (this w). simpl. auto.
  - cbn [dispatch exec].
    destruct (maxConcurrent (this w) <=? length (activeJobs (this w)))%nat.
    + exists []. simpl. rewrite !app_nil_r. destruct (this w). simpl. auto.
    + destruct (has (activeJobs (this w)) (Types.id job)) eqn:Eh; cbn [negb exec].
      * apply IH, Hp.
      * pose proof (start_processJob (now c (calls w)) (Types.id job) (this w)) as Hs.
        pose proof (start_processJob_rest (now c (calls w)) (Types.id job) (this w) Eh Hp)
          as Hr.
        destruct (start (now c (calls w)) (processJob (Types.id job)) (this w))
          as [t rest']. simpl in Hs, Hr. rewrite Eh, Hp in Hs. simpl in Hs. subst t rest'.
        destruct (IH (park (handedOver (Types.id job))
                        (with_this (set_activeJobs (activeJobs (this w) ++ [Types.id job])
                                      (this w)) w)))
          as (new & H1 & H2 & H3); [exact Hp|].
        simpl in H1, H2, H3.
        exists (Types.id job :: new). split; [|split].
        -- rewrite H1. unfold set_activeJobs. simpl. rewrite <- app_assoc. reflexivity.
        -- rewrite H2. rewrite <- app_assoc. reflexivity.
        -- intros i [<-|Hi]; [now apply has_false|].
           intros Hin. apply (H3 i Hi). apply in_or_app. auto.
Qed.

Lemma settle_handedOver (c : Chrome) (new : list string) :
  forall w,
    activeJobs
      (this (fold_left (fun w1 p => snd (exec c processJob p w1)) (map handedOver new) w))
    = fold_left delete new (activeJobs (this w)) /\
    parked (fold_left (fun w1 p => snd (exec c processJob p w1)) (map handedOver new) w)
    = parked w.
Proof.
  induction new as [|i new IH]; intros w; cbn [map fold_left]; [auto|].
  destruct (handedOver_gives_back c processJob i w) as [Ht Hp].
  destruct (IH (snd (exec c processJob (handedOver i) w))) as [H1 H2].
  rewrite H1, H2, Ht, Hp. auto.
Qed.

Lemma delete_all (new : list string) :
  forall s, fold_left delete new s
            = filter (fun y => negb (existsb (fun x => y =? x) new)) s.
Proof.
  induction new as [|i new IH]; intros s; simpl.
  - induction s as [|y s IHs]; simpl; [reflexivity | now rewrite <- IHs].
  - rewrite IH. unfold delete. clear IH.
    induction s as [|y s IHs]; simpl; [reflexivity|].
    destruct (y =? i); simpl; [exact IHs|].
    destruct (existsb _ new); simpl; [exact IHs | now rewrite IHs].
Qed.

(** X29.  The jobs that [processNextInQueue] starts give their slots
    back: once the methods it parked have run to their end, one after the
    other, the set of active jobs is what it was before the call, whatever
    the browser answered or rejected on the way, and nothing is left
    parked. *)
Theorem started_jobs_give_their_slots_back (c : Chrome) (w : World) :
  parked w = [] ->
  activeJobs (this (settle c (snd (perform c processNextInQueue w))))
  = activeJobs (this w) /\
  parked (settle c (snd (perform c processNextInQueue w))) = [].
Proof.
  intros Hnone. unfold settle, perform, processNextInQueue. cbn [exec].
  destruct (isPaused (this w)) eqn:Ep; cbn [orb].
  { simpl. rewrite Hnone. simpl. auto. }
  destruct (maxConcurrent (this w) <=? length (activeJobs (this w)))%nat.
  { simpl. rewrite Hnone. simpl. auto. }
  unfold getPendingJobs, storedJobs. cbn [bind exec]. unfold answer.
  destruct (rejects c (calls w)); cbn [awaited bind exec].
  { simpl. rewrite Hnone. simpl. auto. }
  match goal with |- context [exec c processJob (dispatch ?l) ?w1] =>
    destruct (dispatch_parks c l w1) as (new & H1 & H2 & H3); [exact Ep|];
    unfold perform in H1, H2;
    set (w2 := snd (exec c processJob (dispatch l) w1)) in *
  end.
  simpl in H1, H2, H3. rewrite Hnone in H2. simpl in H2. rewrite H2.
  match goal with |- context [fold_left _ (map handedOver new) ?w3] =>
    destruct (settle_handedOver c new w3) as [Ha Hb]
  end.
  rewrite Ha, Hb. simpl. split; [|reflexivity].
  rewrite H1. simpl. rewrite delete_all, filter_app.
  assert (E1 : filter (fun y => negb (existsb (fun x => y =? x) new)) (activeJobs (this w))
               = activeJobs (this w)).
  { clear - H3. induction (activeJobs (this w)) as [|y s IH]; simpl; [reflexivity|].
    destruct (existsb (fun x => y =? x) new) eqn:E.
    - apply existsb_exists in E as (x & Hx & Exy). apply String.eqb_eq in Exy. subst x.
      exfalso. apply (H3 y Hx). left. reflexivity.
    - simpl. f_equal. apply IH. intros i Hi Hin. apply (H3 i Hi). right. exact Hin. }
  assert (E2 : filter (fun y => negb (existsb (fun x => y =? x) new)) new = []).
  { clear. assert (H : forall l, incl l new ->
                      filter (fun y => negb (existsb (fun x => y =? x) new)) l = []).
    { induction l as [|y l IH]; intros Hl; simpl; [reflexivity|].
      assert (E : existsb (fun x => y =? x) new = true).
      { apply existsb_exists. exists y. split; [apply Hl; left; reflexivity|].
        apply String.eqb_refl. }
      rewrite E. simpl. apply IH. intros x Hx. apply Hl. right. exact Hx. }
    apply H. apply incl_refl. }
  rewrite E1, E2. apply app_nil_r.
Qed.

Lemma started_jobs_give_their_slots_back_witness :
  activeJobs (this (snd (perform flowTabOpen processNextInQueue threeWaiting)))
  = ["job-1"; "job-2"] /\
  activeJobs (this (settle flowTabOpen (snd (perform flowTabOpen processNextInQueue threeWaiting))))
  = [] /\
  parked (settle flowTabOpen (snd (perform flowTabOpen processNextInQueue threeWaiting))) = [].
Proof.
  split; [reflexivity|].
  apply (started_jobs_give_their_slots_back flowTabOpen threeWaiting). reflexivity.
Defined.

End QueueProcessorFacts.
